(** * rose_arch / rose_prune: a shallow embedding and its properties

    The two builtin applications of [lib/python/rose/apps] are embedded
    as Rocq functions: [rose_arch.py] (incremental archiving with its
    SQLite cache) and [rose_prune.py] (suite housekeeping).

    Conventions.
    - A Python [str] is a [string]; [None] is the [None] of an option.
    - A Python [dict] is a [gmap]; the order in which CPython iterates
      over a dict is not fixed by the language, [map_to_list] stands for it.
    - The external collaborators ([glob], the checksum and compression
      plug-ins, the process runner, the file system helpers,
      [env_var_process], [shlex], [re]) are the fields of a [World].
    - Stateful code threads a [State] (the cache and the trace of
      external actions) through an error monad whose failure is the
      Python exception that was raised. *)

From Stdlib Require Import ZArith NArith Ascii String.
From stdpp Require Import base option list gmap strings sorting.

Local Open Scope string_scope.

(** ** Python strings and the [%] operator *)

Module PyStr.

(** [s.startswith(p)]. *)
Definition startswith (s p : string) : bool := String.prefix p s.

(** [s.endswith(p)]. *)
Definition endswith (s p : string) : bool :=
  let n := String.length s in
  let m := String.length p in
  if (m <=? n)%nat then String.eqb (substring (n - m) m s) p else false.

(** [s[1:-1]]. *)
Definition slice_1_m1 (s : string) : string :=
  substring 1 (String.length s - 2) s.

(** [s[n:]]. *)
Definition drop_prefix (n : nat) (s : string) : string :=
  substring n (String.length s - n) s.

(** [c in s] for a one-character [c]. *)
Fixpoint contains (c : ascii) (s : string) : bool :=
  match s with
  | EmptyString => false
  | String a s' => if Ascii.eqb a c then true else contains c s'
  end.

(** [sep.join(l)]. *)
Fixpoint join (sep : string) (l : list string) : string :=
  match l with
  | [] => ""
  | [x] => x
  | x :: l' => x ++ sep ++ join sep l'
  end.

(** The values that reach a [%] conversion in the two applications:
    a string or [None] (an unset environment variable, an unmatched
    regex group). *)
Inductive PyVal :=
| VStr (s : string)
| VNone.

Definition hex_digit (n : N) : ascii :=
  match n with
  | 0 => "0" | 1 => "1" | 2 => "2" | 3 => "3" | 4 => "4" | 5 => "5"
  | 6 => "6" | 7 => "7" | 8 => "8" | 9 => "9" | 10 => "a" | 11 => "b"
  | 12 => "c" | 13 => "d" | 14 => "e" | _ => "f"
  end%N%char.

(** [repr] of a [str] (CPython 2 [string_repr]). *)
Definition repr_char (quote : ascii) (c : ascii) : string :=
  let n := N_of_ascii c in
  if Ascii.eqb c quote || Ascii.eqb c "\"%char
  then String "\"%char (String c "")
  else if (n =? 9)%N then "\t"
  else if (n =? 10)%N then "\n"
  else if (n =? 13)%N then "\r"
  else if (n <? 32)%N || (127 <=? n)%N
  then String "\"%char (String "x"%char
         (String (hex_digit (n / 16)) (String (hex_digit (n mod 16)) "")))
  else String c "".

Fixpoint repr_body (quote : ascii) (s : string) : string :=
  match s with
  | EmptyString => ""
  | String c s' => repr_char quote c ++ repr_body quote s'
  end.

Definition squote : ascii := "'"%char.
Definition dquote : ascii := Ascii.ascii_of_nat 34.

Definition repr_str (s : string) : string :=
  let quote :=
    if contains squote s && negb (contains dquote s) then dquote else squote in
  String quote (repr_body quote s ++ String quote "").

Definition str_val (v : PyVal) : string :=
  match v with VStr s => s | VNone => "None" end.

Definition repr_val (v : PyVal) : string :=
  match v with VStr s => repr_str s | VNone => "None" end.

(** [repr] of a dict whose keys are strings. *)
Definition repr_mapping (m : gmap string PyVal) : string :=
  "{" ++ join ", " ((λ kv, repr_str kv.1 ++ ": " ++ repr_val kv.2)
                      <$> map_to_list m) ++ "}".

(** The outcome of [template % mapping]. *)
Inductive FmtResult :=
| FmtOk (s : string)
| FmtKeyError (k : string)
| FmtValueError (msg : string)
| FmtTypeError (msg : string).

(** What [getnextarg] will hand out: the mapping itself (no key seen
    yet), the value a key selected, or nothing (already consumed). *)
Inductive ArgState :=
| ArgMapping
| ArgValue (v : PyVal)
| ArgUsed.

Record Spec := { ljust : bool; width : N; prec : option N }.

Definition spec0 : Spec := {| ljust := false; width := 0; prec := None |}.

(** Where [PyString_Format] stands inside the template. *)
Inductive Stage :=
| Lit
| Pct
| Key (depth : nat) (acc : string)
| Flags (sp : Spec)
| Width (sp : Spec)
| Dot (sp : Spec)
| Prec (sp : Spec)
| Conv (sp : Spec).

Definition is_digit (c : ascii) : bool :=
  let n := N_of_ascii c in (48 <=? n)%N && (n <=? 57)%N.

Definition digit_val (c : ascii) : N := (N_of_ascii c - 48)%N.

Definition PY_SSIZE_T_MAX : N := (2 ^ 63 - 1)%N.
Definition INT_MAX : N := (2 ^ 31 - 1)%N.

Definition spaces (n : N) : string :=
  string_of_list_ascii (replicate (N.to_nat n) " "%char).

(** Truncation to the precision, then padding to the width. *)
Definition pad (sp : Spec) (s : string) : string :=
  let len := N.of_nat (String.length s) in
  if (len <? width sp)%N
  then if ljust sp then s ++ spaces (width sp - len)
       else spaces (width sp - len) ++ s
  else s.

Definition truncate (sp : Spec) (s : string) : string :=
  match prec sp with
  | Some p => if (p <? N.of_nat (String.length s))%N
              then substring 0 (N.to_nat p) s else s
  | None => s
  end.

Definition not_enough : FmtResult :=
  FmtTypeError "not enough arguments for format string".

(** One conversion: [inl] is the exception, [inr] the text produced
    and what is left of the argument. *)
Definition convert (m : gmap string PyVal) (c : ascii) (sp : Spec)
    (arg : ArgState) : FmtResult + (string * ArgState) :=
  if Ascii.eqb c "%"%char then inr (pad sp "%", arg)
  else
    match arg with
    | ArgUsed => inl not_enough
    | _ =>
        let is_str := match arg with ArgValue (VStr _) => true | _ => false end in
        let str := match arg with
                   | ArgValue v => str_val v
                   | _ => repr_mapping m end in
        let repr := match arg with
                    | ArgValue v => repr_val v
                    | _ => repr_mapping m end in
        if Ascii.eqb c "s"%char then inr (pad sp (truncate sp str), ArgUsed)
        else if Ascii.eqb c "r"%char then inr (pad sp (truncate sp repr), ArgUsed)
        else if contains c "iduoxX"
        then inl (FmtTypeError "a number is required")
        else if contains c "eEfFgG"
        then inl (FmtTypeError "float argument required")
        else if Ascii.eqb c "c"%char
        then if is_str && (String.length str =? 1)%nat
             then inr (pad sp str, ArgUsed)
             else inl (FmtTypeError "%c requires int or char")
        else inl (FmtValueError "unsupported format character")
    end.

(** [*] as a width or a precision asks for an [int] argument; no
    argument of these applications is one. *)
Definition star (arg : ArgState) : FmtResult :=
  match arg with
  | ArgUsed => not_enough
  | _ => FmtTypeError "* wants int"
  end.

(** What to do with the first character [c] that is not part of the
    precision: either the state to continue in, or the conversion. *)
Inductive Next :=
| Goto (st : Stage) (arg : ArgState) (out : string)
| Stop (r : FmtResult).

Definition after_prec (m : gmap string PyVal) (c : ascii) (sp : Spec)
    (arg : ArgState) (out : string) : Next :=
  if contains c "hlL" then Goto (Conv sp) arg out
  else match convert m c sp arg with
       | inl e => Stop e
       | inr (piece, arg') => Goto Lit arg' (out ++ piece)
       end.

Definition after_dot (m : gmap string PyVal) (c : ascii) (sp : Spec)
    (arg : ArgState) (out : string) : Next :=
  if Ascii.eqb c "*"%char then Stop (star arg)
  else if is_digit c
  then Goto (Prec {| ljust := ljust sp; width := width sp;
                     prec := Some (digit_val c) |}) arg out
  else after_prec m c sp arg out.

Definition after_width (m : gmap string PyVal) (c : ascii) (sp : Spec)
    (arg : ArgState) (out : string) : Next :=
  if Ascii.eqb c "."%char
  then Goto (Dot {| ljust := ljust sp; width := width sp; prec := Some 0%N |})
            arg out
  else after_prec m c sp arg out.

Definition after_flags (m : gmap string PyVal) (c : ascii) (sp : Spec)
    (arg : ArgState) (out : string) : Next :=
  if Ascii.eqb c "*"%char then Stop (star arg)
  else if is_digit c
  then Goto (Width {| ljust := ljust sp; width := digit_val c;
                      prec := prec sp |}) arg out
  else after_width m c sp arg out.

Definition in_flags (m : gmap string PyVal) (c : ascii) (sp : Spec)
    (arg : ArgState) (out : string) : Next :=
  if Ascii.eqb c "-"%char
  then Goto (Flags {| ljust := true; width := width sp; prec := prec sp |})
            arg out
  else if contains c "+ #0" then Goto (Flags sp) arg out
  else after_flags m c sp arg out.

(** One character of the template. *)
Definition step (m : gmap string PyVal) (c : ascii) (st : Stage)
    (arg : ArgState) (out : string) : Next :=
  match st with
  | Lit =>
      if Ascii.eqb c "%"%char then Goto Pct arg out
      else Goto Lit arg (out ++ String c "")
  | Pct =>
      if Ascii.eqb c "("%char then Goto (Key 1 "") arg out
      else in_flags m c spec0 arg out
  | Key depth acc =>
      if Ascii.eqb c ")"%char
      then match depth with
           | 1%nat =>
               match m !! acc with
               | Some v => Goto (Flags spec0) (ArgValue v) out
               | None => Stop (FmtKeyError acc)
               end
           | _ => Goto (Key (depth - 1) (acc ++ String c "")) arg out
           end
      else if Ascii.eqb c "("%char
      then Goto (Key (S depth) (acc ++ String c "")) arg out
      else Goto (Key depth (acc ++ String c "")) arg out
  | Flags sp => in_flags m c sp arg out
  | Width sp =>
      if is_digit c
      then if ((PY_SSIZE_T_MAX - digit_val c) / 10 <? width sp)%N
           then Stop (FmtValueError "width too big")
           else Goto (Width {| ljust := ljust sp;
                               width := width sp * 10 + digit_val c;
                               prec := prec sp |}) arg out
      else after_width m c sp arg out
  | Dot sp => after_dot m c sp arg out
  | Prec sp =>
      if is_digit c
      then match prec sp with
           | Some p =>
               if ((INT_MAX - digit_val c) / 10 <? p)%N
               then Stop (FmtValueError "prec too big")
               else Goto (Prec {| ljust := ljust sp; width := width sp;
                                  prec := Some (p * 10 + digit_val c)%N |})
                         arg out
           | None => Stop (FmtValueError "prec too big")
           end
      else after_prec m c sp arg out
  | Conv sp =>
      match convert m c sp arg with
      | inl e => Stop e
      | inr (piece, arg') => Goto Lit arg' (out ++ piece)
      end
  end.

(** The template is consumed one character at a time; running out of
    characters inside a conversion is the [ValueError] of CPython. *)
Fixpoint run (m : gmap string PyVal) (fmt : string) (st : Stage)
    (arg : ArgState) (out : string) : FmtResult :=
  match fmt with
  | EmptyString =>
      match st with
      | Lit => FmtOk out
      | Key _ _ => FmtValueError "incomplete format key"
      | _ => FmtValueError "incomplete format"
      end
  | String c fmt' =>
      match step m c st arg out with
      | Goto st' arg' out' => run m fmt' st' arg' out'
      | Stop r => r
      end
  end.

(** [fmt % m] for a dict [m]. *)
Definition format (fmt : string) (m : gmap string PyVal) : FmtResult :=
  run m fmt Lit ArgMapping "".

End PyStr.

(** ** rose_arch: data model, cache and external world *)

Module Arch.
Import PyStr.

(** [RoseArchTarget.ST_*]. *)
Inductive Status := ST_OLD | ST_NEW | ST_BAD | ST_NULL.

#[global] Instance Status_eq_dec : EqDecision Status.
Proof. solve_decision. Defined.

Module RoseArchSource.
Record t := mk {
  checksum : string;
  orig_name : string;
  orig_path : option string;
  name : string;
  path : option string;
}.

(** [RoseArchSource.__init__]. *)
Definition __init__ (checksum orig_name : string) (orig_path : option string) : t :=
  mk checksum orig_name orig_path orig_name orig_path.

Definition set_name (s : t) (n : string) : t :=
  mk (checksum s) (orig_name s) (orig_path s) n (path s).

Definition set_path (s : t) (p : option string) : t :=
  mk (checksum s) (orig_name s) (orig_path s) (name s) p.

(** [RoseArchSource.__eq__]: the keys compared are [checksum] and
    [name]; two references to one object are equal in these too. *)
Definition __eq__ (s o : t) : bool :=
  String.eqb (checksum s) (checksum o) && String.eqb (name s) (name o).
End RoseArchSource.

Abbreviation Source := RoseArchSource.t.

(** [d1 == d2] for two dicts of sources (CPython [dict_equal]): the
    same number of entries, and every key of the first is in the second
    with a value that [__eq__] accepts. *)
Definition sources_eqb (a b : gmap string Source) : bool :=
  (size a =? size b)%nat
  && forallb (λ kv, match b !! kv.1 with
                    | Some s' => RoseArchSource.__eq__ kv.2 s'
                    | None => false
                    end) (map_to_list a).

Definition opt_str_eqb (a b : option string) : bool :=
  match a, b with
  | Some x, Some y => String.eqb x y
  | None, None => true
  | _, _ => false
  end.

Module RoseArchTarget.
Record t := mk {
  name : string;
  compress_scheme : option string;
  command_format : option string;
  command_rc : Z;
  sources : gmap string Source;
  source_edit_format : option string;
  status : option Status;
  work_source_path : option string;
}.

(** [RoseArchTarget.__init__]. *)
Definition __init__ (name : string) : t :=
  mk name None None 0 ∅ None None None.

Definition set_compress_scheme (x : t) (v : option string) : t :=
  mk (name x) v (command_format x) (command_rc x) (sources x)
     (source_edit_format x) (status x) (work_source_path x).
Definition set_command_format (x : t) (v : option string) : t :=
  mk (name x) (compress_scheme x) v (command_rc x) (sources x)
     (source_edit_format x) (status x) (work_source_path x).
Definition set_command_rc (x : t) (v : Z) : t :=
  mk (name x) (compress_scheme x) (command_format x) v (sources x)
     (source_edit_format x) (status x) (work_source_path x).
Definition set_sources (x : t) (v : gmap string Source) : t :=
  mk (name x) (compress_scheme x) (command_format x) (command_rc x) v
     (source_edit_format x) (status x) (work_source_path x).
Definition set_source_edit_format (x : t) (v : option string) : t :=
  mk (name x) (compress_scheme x) (command_format x) (command_rc x)
     (sources x) v (status x) (work_source_path x).
Definition set_status (x : t) (v : option Status) : t :=
  mk (name x) (compress_scheme x) (command_format x) (command_rc x)
     (sources x) (source_edit_format x) v (work_source_path x).
Definition set_work_source_path (x : t) (v : option string) : t :=
  mk (name x) (compress_scheme x) (command_format x) (command_rc x)
     (sources x) (source_edit_format x) (status x) v.

(** [RoseArchTarget.__eq__], key by key in the order of the source. *)
Definition __eq__ (s o : t) : bool :=
  String.eqb (name s) (name o)
  && opt_str_eqb (compress_scheme s) (compress_scheme o)
  && opt_str_eqb (command_format s) (command_format o)
  && (command_rc s =? command_rc o)%Z
  && sources_eqb (sources s) (sources o)
  && opt_str_eqb (source_edit_format s) (source_edit_format o).

(** [RoseArchTarget.__ne__]. *)
Definition __ne__ (s o : t) : bool := negb (__eq__ s o).
End RoseArchTarget.

Abbreviation Target := RoseArchTarget.t.

(** *** The cache: two SQLite tables *)

(** A row of [targets(target_name, compress_scheme, command_format,
    command_rc, source_edit_format)]. *)
Record TargetRow := {
  tr_target_name : string;
  tr_compress_scheme : option string;
  tr_command_format : option string;
  tr_command_rc : Z;
  tr_source_edit_format : option string;
}.

(** A row of [sources(target_name, source_name, checksum)]. *)
Record SourceRow := {
  sr_target_name : string;
  sr_source_name : string;
  sr_checksum : string;
}.

Record Db := { T_TARGETS : list TargetRow; T_SOURCES : list SourceRow }.

Definition empty_db : Db := {| T_TARGETS := []; T_SOURCES := [] |}.

Module RoseArchDAO.

(** [delete]: [DELETE FROM t WHERE target_name==?] on both tables. *)
Definition delete (db : Db) (target : Target) : Db :=
  {| T_TARGETS :=
       filter (λ r, tr_target_name r ≠ RoseArchTarget.name target) (T_TARGETS db);
     T_SOURCES :=
       filter (λ r, sr_target_name r ≠ RoseArchTarget.name target) (T_SOURCES db) |}.

(** The [WHERE] clause of [delete_all]: [target_name != ?] for every
    filter target, joined by [AND]. *)
Definition where_all (names : list string) (n : string) : bool :=
  forallb (λ f, negb (String.eqb n f)) names.

(** [delete_all]: with no filter target the statement has no [WHERE]
    clause and empties both tables. *)
Definition delete_all (db : Db) (filter_targets : list Target) : Db :=
  match filter_targets with
  | [] => empty_db
  | _ =>
      let names := RoseArchTarget.name <$> filter_targets in
      {| T_TARGETS :=
           filter (λ r, where_all names (tr_target_name r) = false) (T_TARGETS db);
         T_SOURCES :=
           filter (λ r, where_all names (sr_target_name r) = false) (T_SOURCES db) |}
  end.

Definition target_row (target : Target) : TargetRow :=
  {| tr_target_name := RoseArchTarget.name target;
     tr_compress_scheme := RoseArchTarget.compress_scheme target;
     tr_command_format := RoseArchTarget.command_format target;
     tr_command_rc := RoseArchTarget.command_rc target;
     tr_source_edit_format := RoseArchTarget.source_edit_format target |}.

Definition source_rows (target : Target) : list SourceRow :=
  (λ kv, {| sr_target_name := RoseArchTarget.name target;
            sr_source_name := RoseArchSource.name kv.2;
            sr_checksum := kv.1 |})
    <$> map_to_list (RoseArchTarget.sources target).

(** [UNIQUE(target_name, checksum)]. *)
Definition source_conflict (rows : list SourceRow) (r : SourceRow) : bool :=
  existsb (λ r', String.eqb (sr_target_name r') (sr_target_name r)
                 && String.eqb (sr_checksum r') (sr_checksum r)) rows.

Fixpoint insert_sources (rows new : list SourceRow) : option (list SourceRow) :=
  match new with
  | [] => Some rows
  | r :: new' =>
      if source_conflict rows r then None
      else insert_sources (rows ++ [r])%list new'
  end.

(** [insert]: one row in [targets], one row per source in [sources].
    [None] is [sqlite3.IntegrityError] ([PRIMARY KEY(target_name)] or
    the [UNIQUE] constraint): the statements of the failed call are
    not committed, and the connection is closed without a commit, so
    the cache is the one before the call. *)
Definition insert (db : Db) (target : Target) : option Db :=
  if existsb (λ r, String.eqb (tr_target_name r) (RoseArchTarget.name target))
             (T_TARGETS db)
  then None
  else
    match insert_sources (T_SOURCES db) (source_rows target) with
    | Some srcs => Some {| T_TARGETS := (T_TARGETS db ++ [target_row target])%list;
                           T_SOURCES := srcs |}
    | None => None
    end.

(** The loop over the rows of [sources] in [select]. *)
Definition select_sources (rows : list SourceRow) (target_name : string)
    : gmap string Source :=
  foldl (λ m r, <[sr_checksum r := RoseArchSource.__init__ (sr_checksum r)
                                     (sr_source_name r) None]> m)
        ∅ (filter (λ r, sr_target_name r = target_name) rows).

(** [select]: the first row of [targets] for the name, if any, and
    the sources recorded for it. *)
Definition select (db : Db) (target_name : string) : option Target :=
  match filter (λ r, tr_target_name r = target_name) (T_TARGETS db) with
  | [] => None
  | row :: _ =>
      Some (RoseArchTarget.mk target_name (tr_compress_scheme row)
              (tr_command_format row) (tr_command_rc row)
              (select_sources (T_SOURCES db) target_name)
              (tr_source_edit_format row) None None)
  end.

(** [update_command_rc]. *)
Definition update_command_rc (db : Db) (target : Target) : Db :=
  {| T_TARGETS :=
       (λ r, if String.eqb (tr_target_name r) (RoseArchTarget.name target)
             then {| tr_target_name := tr_target_name r;
                     tr_compress_scheme := tr_compress_scheme r;
                     tr_command_format := tr_command_format r;
                     tr_command_rc := RoseArchTarget.command_rc target;
                     tr_source_edit_format := tr_source_edit_format r |}
             else r) <$> T_TARGETS db;
     T_SOURCES := T_SOURCES db |}.

End RoseArchDAO.

(** *** Paths and keys *)

(** [s.split(c, 1)] when [c] occurs in [s]. *)
Fixpoint split_first (c : ascii) (s : string) : option (string * string) :=
  match s with
  | EmptyString => None
  | String a s' =>
      if Ascii.eqb a c then Some ("", s')
      else match split_first c s' with
           | Some (h, t) => Some (String a h, t)
           | None => None
           end
  end.

(** [s.rsplit(c, 1)[1]] when [c] occurs in [s]. *)
Fixpoint after_last (c : ascii) (s : string) : option string :=
  match s with
  | EmptyString => None
  | String a s' =>
      match after_last c s' with
      | Some t => Some t
      | None => if Ascii.eqb a c then Some s' else None
      end
  end.

(** [s.rstrip(c)]. *)
Fixpoint rstrip (c : ascii) (s : string) : string :=
  match s with
  | EmptyString => ""
  | String a s' =>
      let r := rstrip c s' in
      if String.eqb r "" && Ascii.eqb a c then "" else String a r
  end.

(** [p[:p.rfind(c) + 1]]. *)
Fixpoint upto_last (c : ascii) (s : string) : string :=
  match s with
  | EmptyString => ""
  | String a s' =>
      let h := upto_last c s' in
      if String.eqb h ""
      then if Ascii.eqb a c then String a "" else ""
      else String a h
  end.

(** [os.path.join(a, b)] (posixpath). *)
Definition path_join (a b : string) : string :=
  if startswith b "/" then b
  else if String.eqb a "" || endswith a "/" then a ++ b
  else a ++ "/" ++ b.

(** [os.path.dirname(p)] (posixpath). *)
Definition dirname (p : string) : string :=
  let head := upto_last "/" p in
  if negb (String.eqb head "") && negb (String.eqb (rstrip "/" head) "")
  then rstrip "/" head else head.

(** Truth value of a string or [None]. *)
Definition truthy (v : option string) : bool :=
  match v with
  | Some s => negb (String.eqb s "")
  | None => false
  end.

(** [s.startswith("(") and s.endswith(")")]. *)
Definition parenthesised (s : string) : bool :=
  startswith s "(" && endswith s ")".

(** *** Exceptions, events and external actions *)

Inductive PyExc :=
| ConfigValueError (keys : list string) (value : string)
| CompulsoryConfigValueError (key : string)
| RoseArchDuplicateError (t_key : string) (s_key_tail : string)
| RoseArchValueError (target_name what value kind : string)
| RosePopenError (command : string) (ret_code : Z)
| IntegrityError (target_name : string)
| PyKeyError (key : string)
| PyValueError (msg : string)
| PyTypeError (msg : string)
| PyAttributeError (msg : string)
| HandlerError (scheme : string).

Inductive Event :=
| RoseArchEvent (target : Target) (ret_code : option (option Z))
| EvRoseArchValueError (target_name what value kind : string)
| EvConfigValueError (keys : list string) (value : string)
| EvRosePopenError (command : string) (ret_code : Z) (out err : string)
| EvText (s : string).

Inductive Level := LevelDefault | LevelFail.

(** What reaches the world outside the process, in order. *)
Inductive Action :=
| AEvent (e : Event)
| AEventErr (e : Event) (level : Level)
| AChdir (dir : string)
| AMkdtemp (dir : string)
| AMakedirs (dir : string)
| ASymlink (src : option string) (dst : string)
| ARunOk (command : string)
| ACompress (scheme : string) (target_name : string) (work_dir : string)
| ARun (command : string)
| AFsDelete (path : string)
| ADbDelete (target_name : string)
| ADbDeleteAll (target_names : list string)
| ADbInsert (row : TargetRow) (rows : list SourceRow)
| ADbUpdateCommandRc (target_name : string) (command_rc : Z).

(** What a compression handler may leave in the target: new working
    paths for its sources and the path of one consolidated artifact. *)
Record CompressOut := {
  co_path : Source → option string;
  co_work_source_path : option string;
}.

(** The collaborators of the application.  Their answers are those of
    one run: the files, their checksums and the environment are taken not
    to change while the run lasts.
    - [w_suite_name], [w_cycle]: [os.getenv] of [ROSE_SUITE_NAME] and
      [ROSE_TASK_CYCLE_TIME];
    - [w_env_var_process]: [None] for [UnboundEnvironmentVariableError];
    - [w_shlex_split]: [None] for the [ValueError] of an open quotation;
    - [w_get_checksum_func]: whether the name of the scheme is accepted;
    - [w_get_checksum]: the pairs (relative path, checksum) of a path, the
      checksum being [None] for a directory;
    - [w_get_handler]: whether a compression scheme has a handler;
    - [w_compress_sources]: [None] when the handler raises;
    - [w_re_compile]: [None] for [re.error], else the function from a
      name to the [groupdict] of its match, if it matches;
    - [w_popen_run]: exit status, standard output and standard error of a
      shell command; [run_ok] raises when the status is not 0;
    - [w_mkdtemp]: the directory [mkdtemp] returns, by the number of
      actions performed so far. *)
Record World := {
  w_suite_name : option string;
  w_cycle : option string;
  w_getcwd : string;
  w_get_suite_dir : string → string;
  w_env_var_process : string → option string;
  w_shlex_split : string → option (list string);
  w_glob : string → list string;
  w_get_checksum_func : option string → bool;
  w_get_checksum : option string → string → list (string * option string);
  w_get_handler : string → bool;
  w_compress_sources : string → Target → string → option CompressOut;
  w_re_compile : string → option (string → option (gmap string PyVal));
  w_popen_run : string → Z * string * string;
  w_list_to_shell_str : list string → string;
  w_mkdtemp : nat → string;
}.

(** Modelled from the spec: the configuration tree ([rose.config]) is
    not part of the sources.  A node of a target carries its ignored
    flag and its option keys; the value of an option is looked up in
    the node of the target first and in the section of run-level
    defaults next. *)
Record ConfigNode := { is_ignored : bool; opts : gmap string string }.

Definition SECTION : string := "arch".

(** [t_node.get_value([key], r_node.get_value([SECTION, key], default))]. *)
Definition get_value (r_node : gmap string ConfigNode) (t_node : ConfigNode)
    (key : string) (default : option string) : option string :=
  match opts t_node !! key with
  | Some v => Some v
  | None =>
      match r_node !! SECTION with
      | Some sec =>
          if is_ignored sec then default
          else match opts sec !! key with
               | Some v => Some v
               | None => default
               end
      | None => default
      end
  end.

(** [_get_conf]. *)
Definition _get_conf (w : World) (r_node : gmap string ConfigNode)
    (t_node : ConfigNode) (key : string) (compulsory : bool)
    (default : option string) : PyExc + option string :=
  let value := get_value r_node t_node key default in
  if compulsory && negb (truthy value)
  then inl (CompulsoryConfigValueError key)
  else
    match value with
    | Some v =>
        if truthy value
        then match w_env_var_process w v with
             | Some v' => inr (Some v')
             | None => inl (ConfigValueError [key] v)
             end
        else inr value
    | None => inr value
    end.

(** *** Events and errors while a target is set up *)

Definition W (A : Type) : Type := list Action * (PyExc + A).

Definition retW {A} (a : A) : W A := ([], inr a).
Definition raiseW {A} (e : PyExc) : W A := ([], inl e).
Definition emitW (a : Action) : W unit := ([a], inr tt).
Definition liftW {A} (r : PyExc + A) : W A := ([], r).
Definition bindW {A B} (m : W A) (f : A → W B) : W B :=
  match m with
  | (l, inl e) => (l, inl e)
  | (l, inr a) => let '(l', r) := f a in ((l ++ l')%list, r)
  end.

Notation "x <~ m ;; k" := (bindW m (λ x, k))
  (at level 100, m at next level, right associativity).

(** *** [_run_target_setup] *)

Definition str_val_of (v : option string) : PyVal :=
  match v with Some s => VStr s | None => VNone end.

(** [try: fmt % keys] with [except KeyError] marking the target bad;
    any other exception of [%] leaves the function. *)
Definition check_format (what : string) (fmt : option string)
    (keys : gmap string PyVal) (target : Target) : W Target :=
  match fmt with
  | None => raiseW (PyTypeError "unsupported operand type(s) for %")
  | Some f =>
      match format f keys with
      | FmtOk _ => retW target
      | FmtKeyError k =>
          _ <~ emitW (AEvent (EvRoseArchValueError
                                (RoseArchTarget.name target) what f "KeyError"));;
          retW (RoseArchTarget.set_status target (Some ST_BAD))
      | FmtValueError msg => raiseW (PyValueError msg)
      | FmtTypeError msg => raiseW (PyTypeError msg)
      end
  end.

(** The loop over [get_checksum(path, checksum_func)]. *)
Definition add_checksums (name path : string) (target : Target)
    (l : list (string * option string)) : Target :=
  foldl (λ t pc,
           match pc.2 with
           | None => t
           | Some checksum =>
               let src :=
                 if String.eqb pc.1 ""
                 then RoseArchSource.__init__ checksum name (Some path)
                 else RoseArchSource.__init__ checksum (path_join name pc.1)
                        (Some (path_join path pc.1)) in
               RoseArchTarget.set_sources t
                 (<[checksum := src]> (RoseArchTarget.sources t))
           end) target l.

(** The loop over the paths a pattern matched. *)
Definition add_paths (w : World) (update_check : option string)
    (source_prefix : string) (target : Target) (paths : list string) : Target :=
  foldl (λ t path,
           add_checksums (drop_prefix (String.length source_prefix) path) path t
             (w_get_checksum w update_check path)) target paths.

(** One pattern of the [source] option. *)
Definition source_step (w : World) (t_key : string)
    (update_check : option string) (source_prefix : string)
    (is_compulsory_target : bool) (target : Target) (source_glob : string)
    : list Action * Target :=
  let is_paren := parenthesised source_glob in
  let source_glob' := if is_paren then slice_1_m1 source_glob else source_glob in
  let is_compulsory_source := if is_paren then false else is_compulsory_target in
  match w_glob w (source_prefix ++ source_glob') with
  | [] =>
      ([AEvent (EvConfigValueError [t_key; "source"] source_glob')],
       if is_compulsory_source
       then RoseArchTarget.set_status target (Some ST_BAD)
       else target)
  | paths => ([], add_paths w update_check source_prefix target paths)
  end.

Fixpoint source_loop (w : World) (t_key : string)
    (update_check : option string) (source_prefix : string)
    (is_compulsory_target : bool) (target : Target) (globs : list string)
    : list Action * Target :=
  match globs with
  | [] => ([], target)
  | g :: globs' =>
      let '(ev, t) := source_step w t_key update_check source_prefix
                        is_compulsory_target target g in
      let '(ev', t') := source_loop w t_key update_check source_prefix
                          is_compulsory_target t globs' in
      ((ev ++ ev')%list, t')
  end.

(** [if not target.sources]. *)
Definition zero_source_check (is_compulsory_target : bool) (target : Target)
    : Target :=
  if bool_decide (RoseArchTarget.sources target = ∅)
  then RoseArchTarget.set_status target
         (Some (if is_compulsory_target then ST_BAD else ST_NULL))
  else target.

(** The compression scheme: explicit and known, or inferred from the
    extension of the last segment of the name. *)
Definition resolve_compress (w : World) (t_key : string)
    (compress : option string) (target : Target) : W Target :=
  let target := RoseArchTarget.set_compress_scheme target compress in
  if negb (truthy compress)
  then
    let target_base :=
      match after_last "/" (RoseArchTarget.name target) with
      | Some b => b
      | None => RoseArchTarget.name target
      end in
    match split_first "." target_base with
    | Some (_, tail) =>
        if w_get_handler w tail
        then retW (RoseArchTarget.set_compress_scheme target (Some tail))
        else retW target
    | None => retW target
    end
  else
    if w_get_handler w (default "" compress) then retW target
    else
      _ <~ emitW (AEvent (EvConfigValueError [t_key; "compress"]
                            (default "" compress)));;
      retW (RoseArchTarget.set_status target (Some ST_BAD)).

(** The body of the rename loop for one source. *)
Definition rename_source (w : World) (target_name rename_format : string)
    (rename_parser : option (string → option (gmap string PyVal)))
    (source : Source) : PyExc + Source :=
  let dict_ : gmap string PyVal :=
    <["cycle" := str_val_of (w_cycle w)]>
      (<["name" := VStr (RoseArchSource.name source)]> ∅) in
  let dict_ :=
    match rename_parser with
    | Some parser =>
        match parser (RoseArchSource.name source) with
        | Some groupdict => groupdict ∪ dict_
        | None => dict_
        end
    | None => dict_
    end in
  match format rename_format dict_ with
  | FmtOk s => inr (RoseArchSource.set_name source s)
  | FmtKeyError _ =>
      inl (RoseArchValueError target_name "rename-format" rename_format "KeyError")
  | FmtValueError _ =>
      inl (RoseArchValueError target_name "rename-format" rename_format "ValueError")
  | FmtTypeError msg => inl (PyTypeError msg)
  end.

Fixpoint rename_list (w : World) (target_name rename_format : string)
    (rename_parser : option (string → option (gmap string PyVal)))
    (l : list (string * Source)) : PyExc + list (string * Source) :=
  match l with
  | [] => inr []
  | (k, s) :: l' =>
      match rename_source w target_name rename_format rename_parser s with
      | inl e => inl e
      | inr s' =>
          match rename_list w target_name rename_format rename_parser l' with
          | inl e => inl e
          | inr r => inr ((k, s') :: r)
          end
      end
  end.

(** [if rename_format: ...]. *)
Definition rename_sources (w : World) (r_node : gmap string ConfigNode)
    (t_node : ConfigNode) (target : Target) : PyExc + Target :=
  match _get_conf w r_node t_node "rename-format" false None with
  | inl e => inl e
  | inr rename_format =>
      if truthy rename_format
      then
        match _get_conf w r_node t_node "rename-parser" false None with
        | inl e => inl e
        | inr rename_parser_str =>
            let compiled :=
              if truthy rename_parser_str
              then match w_re_compile w (default "" rename_parser_str) with
                   | Some p => inr (Some p)
                   | None =>
                       inl (RoseArchValueError (RoseArchTarget.name target)
                              "rename-parser" (default "" rename_parser_str)
                              "error")
                   end
              else inr None in
            match compiled with
            | inl e => inl e
            | inr rename_parser =>
                match rename_list w (RoseArchTarget.name target)
                        (default "" rename_format) rename_parser
                        (map_to_list (RoseArchTarget.sources target)) with
                | inl e => inl e
                | inr l =>
                    inr (RoseArchTarget.set_sources target (list_to_map l))
                end
            end
        end
      else inr target
  end.

Definition _run_target_setup (w : World) (config : gmap string ConfigNode)
    (t_key s_key_tail : string) (t_node : ConfigNode)
    (is_compulsory_target : bool) : W Target :=
  target_prefix <~ liftW (_get_conf w config t_node "target-prefix" false (Some ""));;
  let target := RoseArchTarget.__init__ (default "" target_prefix ++ s_key_tail) in
  command_format <~ liftW (_get_conf w config t_node "command-format" true None);;
  let target := RoseArchTarget.set_command_format target command_format in
  target <~ check_format "command-format" command_format
              (<["sources" := VStr ""]> (<["target" := VStr ""]> ∅)) target;;
  source_edit_format <~
    liftW (_get_conf w config t_node "source-edit-format" false (Some ""));;
  let target := RoseArchTarget.set_source_edit_format target source_edit_format in
  target <~ check_format "source-edit-format" source_edit_format
              (<["in" := VStr ""]> (<["out" := VStr ""]> ∅)) target;;
  update_check_str <~ liftW (_get_conf w config t_node "update-check" false None);;
  if negb (w_get_checksum_func w update_check_str)
  then raiseW (RoseArchValueError (RoseArchTarget.name target) "update-check"
                 (default "" update_check_str) "ValueError")
  else
    source_prefix <~ liftW (_get_conf w config t_node "source-prefix" false (Some ""));;
    source <~ liftW (_get_conf w config t_node "source" true None);;
    match w_shlex_split w (default "" source) with
    | None => raiseW (PyValueError "No closing quotation")
    | Some globs =>
        target <~ (let '(ev, t) :=
                     source_loop w t_key update_check_str
                       (default "" source_prefix) is_compulsory_target
                       target globs in
                   (ev, inr t));;
        let target := zero_source_check is_compulsory_target target in
        compress <~ liftW (_get_conf w config t_node "compress" false None);;
        target <~ resolve_compress w t_key compress target;;
        liftW (rename_sources w config t_node target)
    end.

(** *** The state of a run *)

Record State := { st_db : Db; st_trace : list Action }.

Definition emit (a : Action) (st : State) : State :=
  {| st_db := st_db st; st_trace := (st_trace st ++ [a])%list |}.

Definition emits (l : list Action) (st : State) : State :=
  {| st_db := st_db st; st_trace := (st_trace st ++ l)%list |}.

Definition with_db (db : Db) (a : Action) (st : State) : State :=
  {| st_db := db; st_trace := (st_trace st ++ [a])%list |}.

Definition status_in_bad_null (target : Target) : bool :=
  match RoseArchTarget.status target with
  | Some ST_BAD | Some ST_NULL => true
  | _ => false
  end.

Definition exc_of_fmt (r : FmtResult) : PyExc :=
  match r with
  | FmtOk _ => PyValueError ""
  | FmtKeyError k => PyKeyError k
  | FmtValueError msg => PyValueError msg
  | FmtTypeError msg => PyTypeError msg
  end.

(** *** [_run_target_update] *)

(** The body of the staging loop for one source: its working path,
    the directory for it, then the edit command or a symbolic link. *)
Definition stage_source (w : World) (target : Target) (work_dir : string)
    (source : Source) (st : State) : State * Source * option PyExc :=
  let path := path_join work_dir (RoseArchSource.name source) in
  let source := RoseArchSource.set_path source (Some path) in
  let st := emit (AMakedirs (dirname path)) st in
  if truthy (RoseArchTarget.source_edit_format target)
  then
    match format (default "" (RoseArchTarget.source_edit_format target))
            (<["in" := str_val_of (RoseArchSource.orig_path source)]>
               (<["out" := VStr path]> ∅)) with
    | FmtOk command =>
        let st := emit (ARunOk command) st in
        let rc := (w_popen_run w command).1.1 in
        if (rc =? 0)%Z then (st, source, None)
        else (st, source, Some (RosePopenError command rc))
    | r => (st, source, Some (exc_of_fmt r))
    end
  else (emit (ASymlink (RoseArchSource.orig_path source) path) st, source, None).

Fixpoint stage_list (w : World) (target : Target) (work_dir : string)
    (l : list (string * Source)) (acc : gmap string Source) (st : State)
    : State * gmap string Source * option PyExc :=
  match l with
  | [] => (st, acc, None)
  | (k, s) :: l' =>
      let '(st', s', e) := stage_source w target work_dir s st in
      let acc' := <[k := s']> acc in
      match e with
      | Some _ => (st', acc', e)
      | None => stage_list w target work_dir l' acc' st'
      end
  end.

(** [# Rename/edit sources]. *)
Definition stage (w : World) (target : Target) (work_dir : string)
    (st : State) : State * Target * option PyExc :=
  let rename_required :=
    existsb (λ kv, negb (String.eqb (RoseArchSource.name kv.2)
                                    (RoseArchSource.orig_name kv.2)))
            (map_to_list (RoseArchTarget.sources target)) in
  if rename_required || truthy (RoseArchTarget.source_edit_format target)
  then
    let '(st', srcs, e) :=
      stage_list w target work_dir
        (map_to_list (RoseArchTarget.sources target))
        (RoseArchTarget.sources target) st in
    (st', RoseArchTarget.set_sources target srcs, e)
  else (st, target, None).

(** [# Compress sources]. *)
Definition compress (w : World) (target : Target) (work_dir : string)
    (st : State) : State * Target * option PyExc :=
  if truthy (RoseArchTarget.compress_scheme target)
  then
    let scheme := default "" (RoseArchTarget.compress_scheme target) in
    if w_get_handler w scheme
    then
      let st := emit (ACompress scheme (RoseArchTarget.name target) work_dir) st in
      match w_compress_sources w scheme target work_dir with
      | Some out =>
          (st,
           RoseArchTarget.set_work_source_path
             (RoseArchTarget.set_sources target
                ((λ s, RoseArchSource.set_path s (co_path out s))
                   <$> RoseArchTarget.sources target))
             (co_work_source_path out),
           None)
      | None => (st, target, Some (HandlerError scheme))
      end
    else (st, target, Some (PyAttributeError "compress_sources"))
  else (st, target, None).

(** [# Run archive command], up to [dao.update_command_rc(target)]. *)
Definition archive (w : World) (target : Target) (st : State)
    : State * Target * option Z * option PyExc :=
  let sources :=
    if truthy (RoseArchTarget.work_source_path target)
    then [default "" (RoseArchTarget.work_source_path target)]
    else (λ kv, default "" (RoseArchSource.path kv.2))
           <$> map_to_list (RoseArchTarget.sources target) in
  match RoseArchTarget.command_format target with
  | None => (st, target, None,
             Some (PyTypeError "unsupported operand type(s) for %"))
  | Some command_format =>
      match format command_format
              (<["sources" := VStr (w_list_to_shell_str w sources)]>
                 (<["target" := VStr (w_list_to_shell_str w
                                        [RoseArchTarget.name target])]> ∅)) with
      | FmtOk command =>
          let st := emit (ARun command) st in
          let '(ret_code, out, err) := w_popen_run w command in
          let '(st, target) :=
            if negb (ret_code =? 0)%Z
            then (emit (AEvent (EvRosePopenError command ret_code out err)) st,
                  target)
            else (emit (AEventErr (EvText err) LevelDefault) st,
                  RoseArchTarget.set_status target (Some ST_NEW)) in
          let st := emit (AEvent (EvText out)) st in
          let target := RoseArchTarget.set_command_rc target ret_code in
          let st := with_db (RoseArchDAO.update_command_rc (st_db st) target)
                      (ADbUpdateCommandRc (RoseArchTarget.name target) ret_code)
                      st in
          (st, target, Some ret_code, None)
      | r => (st, target, None, Some (exc_of_fmt r))
      end
  end.

(** The [try] block. *)
Definition update_body (w : World) (target : Target) (work_dir : string)
    (st : State) : State * Target * option Z * option PyExc :=
  let target := RoseArchTarget.set_status target (Some ST_BAD) in
  let '(st, target, e) := stage w target work_dir st in
  match e with
  | Some _ => (st, target, None, e)
  | None =>
      let '(st, target, e) := compress w target work_dir st in
      match e with
      | Some _ => (st, target, None, e)
      | None => archive w target st
      end
  end.

Definition _run_target_update (w : World) (target : Target) (st : State)
    : State * (PyExc + Target) :=
  if bool_decide (RoseArchTarget.status target = Some ST_OLD)
  then (emit (AEvent (RoseArchEvent target None)) st, inr target)
  else if status_in_bad_null target
  then
    let is_bad := bool_decide (RoseArchTarget.status target = Some ST_BAD) in
    let target := RoseArchTarget.set_command_rc target (if is_bad then 1 else 0) in
    let level := if is_bad then LevelFail else LevelDefault in
    let event := RoseArchEvent target None in
    (emit (AEventErr event level) (emit (AEvent event) st), inr target)
  else
    let target := RoseArchTarget.set_command_rc target 1 in
    match RoseArchDAO.insert (st_db st) target with
    | None => (st, inl (IntegrityError (RoseArchTarget.name target)))
    | Some db' =>
        let st := with_db db' (ADbInsert (RoseArchDAO.target_row target)
                                 (RoseArchDAO.source_rows target)) st in
        let work_dir := w_mkdtemp w (length (st_trace st)) in
        let st := emit (AMkdtemp work_dir) st in
        let '(st, target, ret_code, e) := update_body w target work_dir st in
        (* finally *)
        let st := emit (AFsDelete work_dir) st in
        let event := RoseArchEvent target (Some ret_code) in
        let st := emit (AEvent event) st in
        let st := if status_in_bad_null target
                  then emit (AEventErr event LevelFail) st else st in
        match e with
        | Some x => (st, inl x)
        | None => (st, inr target)
        end
    end.

(** *** [_run] *)

(** [sorted] and [list.sort]: a stable sort. *)
Fixpoint insert_sorted {A} (le : A → A → bool) (x : A) (l : list A) : list A :=
  match l with
  | [] => [x]
  | y :: l' => if le y x then y :: insert_sorted le x l' else x :: y :: l'
  end.

Definition py_sorted {A} (le : A → A → bool) (l : list A) : list A :=
  foldl (λ acc x, insert_sorted le x acc) [] l.

(** [sorted(config.value.items())]. *)
Definition sorted_items (config : gmap string ConfigNode)
    : list (string * ConfigNode) :=
  py_sorted (λ a b, String.leb a.1 b.1) (map_to_list config).

(** [targets.sort(key=lambda target: target.name)]. *)
Definition sort_targets (targets : list Target) : list Target :=
  py_sorted (λ a b, String.leb (RoseArchTarget.name a) (RoseArchTarget.name b))
            targets.

(** The comparison with the cache: purge the rows of the name, or
    mark the target as unchanged. *)
Definition diff_step (target : Target) (st : State) : State * Target :=
  match RoseArchDAO.select (st_db st) (RoseArchTarget.name target) with
  | None =>
      (with_db (RoseArchDAO.delete (st_db st) target)
         (ADbDelete (RoseArchTarget.name target)) st, target)
  | Some old_target =>
      if RoseArchTarget.__ne__ old_target target
      then (with_db (RoseArchDAO.delete (st_db st) target)
              (ADbDelete (RoseArchTarget.name target)) st, target)
      else (st, RoseArchTarget.set_status target (Some ST_OLD))
  end.

(** What the head of the loop makes of a key: [None] for an entry that
    is skipped, else the part of the key after the colon. *)
Definition target_key (t_key : string) (t_node : ConfigNode) : option string :=
  if is_ignored t_node || negb (contains ":" t_key) then None
  else
    match split_first ":" t_key with
    | None => None
    | Some (s_key_head, s_key_tail) =>
        if negb (String.eqb s_key_head SECTION) || String.eqb s_key_tail ""
        then None
        else Some s_key_tail
    end.

(** [# Set up the targets]. *)
Fixpoint setup_loop (w : World) (config : gmap string ConfigNode)
    (items : list (string * ConfigNode)) (s_key_tails : gset string)
    (targets : list Target) (st : State) : State * (PyExc + list Target) :=
  match items with
  | [] => (st, inr targets)
  | (t_key, t_node) :: items' =>
      match target_key t_key t_node with
      | None => setup_loop w config items' s_key_tails targets st
      | Some s_key_tail =>
          match w_env_var_process w s_key_tail with
          | None => (st, inl (ConfigValueError [t_key; ""] ""))
          | Some s_key_tail =>
              let is_paren := parenthesised s_key_tail in
              let s_key_tail :=
                if is_paren then slice_1_m1 s_key_tail else s_key_tail in
              let is_compulsory_target := negb is_paren in
              if bool_decide (s_key_tail ∈ s_key_tails)
              then (st, inl (RoseArchDuplicateError t_key s_key_tail))
              else
                let s_key_tails := {[s_key_tail]} ∪ s_key_tails in
                match _run_target_setup w config t_key s_key_tail t_node
                        is_compulsory_target with
                | (ev, inl e) => (emits ev st, inl e)
                | (ev, inr target) =>
                    let '(st, target) := diff_step target (emits ev st) in
                    setup_loop w config items' s_key_tails
                      (targets ++ [target])%list st
                end
          end
      end
  end.

(** [# Update the targets]. *)
Fixpoint update_loop (w : World) (targets : list Target) (st : State)
    : State * (PyExc + list Target) :=
  match targets with
  | [] => (st, inr [])
  | target :: targets' =>
      match _run_target_update w target st with
      | (st, inl e) => (st, inl e)
      | (st, inr target) =>
          match update_loop w targets' st with
          | (st, inl e) => (st, inl e)
          | (st, inr done) => (st, inr (target :: done))
          end
      end
  end.

(** [dao.delete_all(filter_targets=targets)]. *)
Definition delete_all_step (targets : list Target) (st : State) : State :=
  with_db (RoseArchDAO.delete_all (st_db st) targets)
    (ADbDeleteAll (RoseArchTarget.name <$> targets)) st.

(** The targets of the run as they stand when [_run] returns. *)
Definition _run_targets (w : World) (config : gmap string ConfigNode)
    (st : State) : State * (PyExc + list Target) :=
  match setup_loop w config (sorted_items config) ∅ [] st with
  | (st, inl e) => (st, inl e)
  | (st, inr targets) =>
      let targets := sort_targets targets in
      update_loop w targets (delete_all_step targets st)
  end.

(** [[target.status for target in targets].count(ST_BAD)]. *)
Definition count_bad (targets : list Target) : nat :=
  length (filter (λ s, s = Some ST_BAD) (RoseArchTarget.status <$> targets)).

Definition _run (w : World) (config : gmap string ConfigNode) (st : State)
    : State * (PyExc + nat) :=
  match _run_targets w config st with
  | (st, inl e) => (st, inl e)
  | (st, inr targets) => (st, inr (count_bad targets))
  end.

(** *** [run] *)

(** The cache file as the process leaves it: its committed content
    ([None]: no file) and whether a connection is still open. *)
Record Store := { file : option Db; conn_open : bool }.

(** [RoseArchDAO.__init__] and [create]: the file and its two tables
    are created when the file does not exist. *)
Definition dao_init (file : option Db) : Store :=
  match file with
  | None => {| file := Some empty_db; conn_open := true |}
  | Some db => {| file := Some db; conn_open := false |}
  end.

Definition run (w : World) (config : gmap string ConfigNode)
    (file0 : option Db) : Store * list Action * (PyExc + option nat) :=
  let dao := dao_init file0 in
  if negb (truthy (w_suite_name w)) then (dao, [], inr None)
  else
    let suite_dir := w_get_suite_dir w (default "" (w_suite_name w)) in
    let cwd := w_getcwd w in
    let st0 := {| st_db := default empty_db (file dao);
                  st_trace := [AChdir suite_dir] |} in
    let '(st, r) := _run w config st0 in
    ({| file := Some (st_db st); conn_open := false |},
     (st_trace st ++ [AChdir cwd])%list,
     match r with inl e => inl e | inr n => inr (Some n) end).

End Arch.

(** ** Notions used to state the properties *)

Module Notions.
Import PyStr Arch.

(** The trace only grows. *)
Definition extends (st st' : State) (l : list Action) : Prop :=
  st_trace st' = (st_trace st ++ l)%list.

(** Actions that neither touch the cache nor run the archive command. *)
Definition quiet (a : Action) : Prop :=
  match a with
  | ARun _ | ADbInsert _ _ | ADbDelete _ | ADbDeleteAll _
  | ADbUpdateCommandRc _ _ => False
  | _ => True
  end.

(** The command line of the archive step. *)
Definition archive_command (w : World) (target : Target) : option FmtResult :=
  let sources :=
    if truthy (RoseArchTarget.work_source_path target)
    then [default "" (RoseArchTarget.work_source_path target)]
    else (λ kv, default "" (RoseArchSource.path kv.2))
           <$> map_to_list (RoseArchTarget.sources target) in
  (λ cf, format cf
           (<["sources" := VStr (w_list_to_shell_str w sources)]>
              (<["target" := VStr (w_list_to_shell_str w
                                     [RoseArchTarget.name target])]> ∅)))
    <$> RoseArchTarget.command_format target.

(** A target that the update step will try to archive. *)
Definition pending (target : Target) : Prop :=
  RoseArchTarget.status target ≠ Some ST_OLD
  ∧ status_in_bad_null target = false.

(** The rows of the two tables that carry a given target name: all
    that [select] reads. *)
Definition rows_of (db : Db) (n : string) : list TargetRow * list SourceRow :=
  (filter (λ r, tr_target_name r = n) (T_TARGETS db),
   filter (λ r, sr_target_name r = n) (T_SOURCES db)).

Definition no_rows (db : Db) (n : string) : Prop := rows_of db n = ([], []).

Definition row_set_rc (rc : Z) (r : TargetRow) : TargetRow :=
  {| tr_target_name := tr_target_name r;
     tr_compress_scheme := tr_compress_scheme r;
     tr_command_format := tr_command_format r;
     tr_command_rc := rc;
     tr_source_edit_format := tr_source_edit_format r |}.

(** The names that occur in the cache. *)
Definition names_in (S : string → Prop) (db : Db) : Prop :=
  Forall (λ r, S (tr_target_name r)) (T_TARGETS db)
  ∧ Forall (λ r, S (sr_target_name r)) (T_SOURCES db).


(** The fields of a target that the steps after its construction keep. *)
Definition same_core (t t' : Target) : Prop :=
  RoseArchTarget.name t' = RoseArchTarget.name t
  ∧ RoseArchTarget.command_rc t' = RoseArchTarget.command_rc t.

(** The [sources] dict is keyed by the checksum of its values. *)
Definition keyed (m : gmap string Source) : Prop :=
  ∀ k s, m !! k = Some s → RoseArchSource.checksum s = k.

(** An action that only reports: a call of [handle_event]. *)
Definition is_report (a : Action) : Prop :=
  match a with
  | AEvent _ | AEventErr _ _ => True
  | _ => False
  end.

(** Two sources agree in what [RoseArchSource.__eq__] compares. *)
Definition same_source (s s' : Source) : Prop :=
  RoseArchSource.checksum s = RoseArchSource.checksum s'
  ∧ RoseArchSource.name s = RoseArchSource.name s'.

(** Two source sets agree: the same checksums, and under each checksum
    sources of the same (possibly renamed) name. *)
Definition same_sources (a b : gmap string Source) : Prop :=
  ∀ k, match a !! k, b !! k with
       | Some s, Some s' => same_source s s'
       | None, None => True
       | _, _ => False
       end.

(** One of the compared values of the cached target differs from the
    value of the resolved target. *)
Definition differs (old t : Target) : Prop :=
  RoseArchTarget.compress_scheme old ≠ RoseArchTarget.compress_scheme t
  ∨ RoseArchTarget.command_format old ≠ RoseArchTarget.command_format t
  ∨ RoseArchTarget.command_rc old ≠ RoseArchTarget.command_rc t
  ∨ ¬ same_sources (RoseArchTarget.sources old) (RoseArchTarget.sources t)
  ∨ RoseArchTarget.source_edit_format old ≠ RoseArchTarget.source_edit_format t.

(** The cache holds an entry of the name of [r] that compares equal to
    [r]: the test that marks [r] as OLD. *)
Definition hit (db : Db) (r : Target) : Prop :=
  ∃ old, RoseArchDAO.select db (RoseArchTarget.name r) = Some old
         ∧ RoseArchTarget.__eq__ old r = true.

(** What every target has when it leaves the set-up: the return code of
    a new object, sources keyed by their checksum, and a status that is
    unset, BAD or NULL. *)
Definition fresh (r : Target) : Prop :=
  RoseArchTarget.command_rc r = 0%Z
  ∧ keyed (RoseArchTarget.sources r)
  ∧ (RoseArchTarget.status r = None
     ∨ RoseArchTarget.status r = Some ST_BAD
     ∨ RoseArchTarget.status r = Some ST_NULL).

(** The set-up loop without the cache: the events and the target of
    every entry that was set up, in order, and the exception that ended
    the loop, if any, with the events of the failing set-up. *)
Fixpoint resolve_loop (w : World) (config : gmap string ConfigNode)
    (items : list (string * ConfigNode)) (s_key_tails : gset string)
    : list (list Action * Target) * option (list Action * PyExc) :=
  match items with
  | [] => ([], None)
  | (t_key, t_node) :: items' =>
      match target_key t_key t_node with
      | None => resolve_loop w config items' s_key_tails
      | Some s_key_tail =>
          match w_env_var_process w s_key_tail with
          | None => ([], Some ([], ConfigValueError [t_key; ""] ""))
          | Some s_key_tail =>
              let is_paren := parenthesised s_key_tail in
              let s_key_tail :=
                if is_paren then slice_1_m1 s_key_tail else s_key_tail in
              if bool_decide (s_key_tail ∈ s_key_tails)
              then ([], Some ([], RoseArchDuplicateError t_key s_key_tail))
              else
                match _run_target_setup w config t_key s_key_tail t_node
                        (negb is_paren) with
                | (ev, inl e) => ([], Some (ev, e))
                | (ev, inr target) =>
                    let '(rs, x) := resolve_loop w config items'
                                      ({[s_key_tail]} ∪ s_key_tails) in
                    ((ev, target) :: rs, x)
                end
          end
      end
  end.

(** The comparison with the cache, target after target. *)
Fixpoint diff_all (rs : list (list Action * Target)) (st : State)
    : State * list Target :=
  match rs with
  | [] => (st, [])
  | (ev, r) :: rs' =>
      let '(st1, t) := diff_step r (emits ev st) in
      let '(st2, ts) := diff_all rs' st1 in
      (st2, t :: ts)
  end.


(** A computation of the set-up that only reports. *)
Definition reports {A} (m : W A) : Prop := Forall is_report m.1.


(** Closes [∃ l, extends st st' l ∧ Forall quiet l] when [st'] is [st]
    after a fixed number of quiet actions. *)
Ltac quiet_trace :=
  eexists; split;
  [ unfold extends, emit, with_db; simpl; rewrite <- ?app_assoc; simpl;
    first [ reflexivity | symmetry; apply app_nil_r ]
  | repeat constructor ].

(** The actions of the [try] block of the update step. *)
Definition body_action (a : Action) : Prop :=
  match a with
  | AMakedirs _ | ARunOk _ | ASymlink _ _ | ACompress _ _ _ | ARun _
  | AEvent _ | AEventErr _ _ | ADbUpdateCommandRc _ _ => True
  | _ => False
  end.

(** A source as the staging loop leaves it: its working path is its
    (possibly renamed) name under the working directory. *)
Definition staged (work_dir : string) (s : Source) : Source :=
  RoseArchSource.set_path s
    (Some (path_join work_dir (RoseArchSource.name s))).

(** Some source of the target has been renamed. *)
Definition renamed (t : Target) : Prop :=
  ∃ k s, RoseArchTarget.sources t !! k = Some s
         ∧ RoseArchSource.name s ≠ RoseArchSource.orig_name s.

(** The archive commands that a list of actions runs. *)
Definition archive_commands (l : list Action) : list string :=
  omap (λ a, match a with ARun c => Some c | _ => None end) l.

(** The settings of a target that the loops of the set-up leave alone. *)
Definition same_settings (t t' : Target) : Prop :=
  RoseArchTarget.name t' = RoseArchTarget.name t
  ∧ RoseArchTarget.command_format t' = RoseArchTarget.command_format t
  ∧ RoseArchTarget.command_rc t' = RoseArchTarget.command_rc t
  ∧ RoseArchTarget.source_edit_format t' = RoseArchTarget.source_edit_format t
  ∧ RoseArchTarget.work_source_path t' = RoseArchTarget.work_source_path t.

(** The source that the set-up builds for the entry [(rel, checksum)]
    that [get_checksum] returns for a matched path. *)
Definition found_source (name path rel checksum : string) : Source :=
  if String.eqb rel ""
  then RoseArchSource.__init__ checksum name (Some path)
  else RoseArchSource.__init__ checksum (path_join name rel)
         (Some (path_join path rel)).

(** What the rename step keeps of a source: all but its name. *)
Definition same_origin (s s' : Source) : Prop :=
  RoseArchSource.checksum s' = RoseArchSource.checksum s
  ∧ RoseArchSource.orig_name s' = RoseArchSource.orig_name s
  ∧ RoseArchSource.orig_path s' = RoseArchSource.orig_path s
  ∧ RoseArchSource.path s' = RoseArchSource.path s.

(** The key tail under which the set-up loop registers an entry of the
    configuration: the part of the key after [arch:], with environment
    variables substituted and enclosing parentheses removed. *)
Definition processed_tail (w : World) (item : string * ConfigNode)
    : option string :=
  match target_key item.1 item.2 with
  | None => None
  | Some tail =>
      match w_env_var_process w tail with
      | None => None
      | Some tail' =>
          Some (if parenthesised tail' then slice_1_m1 tail' else tail')
      end
  end.

(** Actions of the set-up phase: reports and purges of single names. *)
Definition setup_action (a : Action) : Prop :=
  match a with
  | AEvent _ | AEventErr _ _ | ADbDelete _ => True
  | _ => False
  end.

(** Actions of the update phase: anything but a change of directory or
    a purge. *)
Definition update_action (a : Action) : Prop :=
  match a with
  | AChdir _ | ADbDelete _ | ADbDeleteAll _ => False
  | _ => True
  end.

(** The argument of a conversion in the run of [%] on the values of the
    set-up check (every key bound to the empty string) and in a run of the
    same template on other values. *)
Definition arg_sim (a0 a : ArgState) : Prop :=
  match a0, a with
  | ArgMapping, ArgMapping => True
  | ArgValue v0, ArgValue _ => v0 = VStr ""
  | ArgUsed, ArgUsed => True
  | _, _ => False
  end.

(** What the second run does when the first makes the move [n0]: it
    continues in the same stage when the first continues, and the first
    never stops with a result. *)
Definition next_sim (n0 n : Next) : Prop :=
  match n0 with
  | Goto st' a0' _ => ∃ a' out', n = Goto st' a' out' ∧ arg_sim a0' a'
  | Stop r => ∀ s, r ≠ FmtOk s
  end.

(** The mapping [m] binds every key that the mapping [m0] of a set-up
    check binds, and [m0] binds its keys to the empty string. *)
Definition covers (m0 m : gmap string PyVal) : Prop :=
  ∀ k v0, m0 !! k = Some v0 → v0 = VStr "" ∧ is_Some (m !! k).


End Notions.

(** ** A concrete world for examples *)

Module Examples.
Import PyStr Arch.

(** Whitespace tokenisation, enough of [shlex.split] for patterns
    without quotes. *)
Fixpoint split_ws_aux (s : string) (cur : string) : list string :=
  match s with
  | EmptyString => if String.eqb cur "" then [] else [cur]
  | String c s' =>
      if Ascii.eqb c " "%char
      then if String.eqb cur "" then split_ws_aux s' ""
           else cur :: split_ws_aux s' ""
      else split_ws_aux s' (cur ++ String c "")
  end.

Definition split_ws (s : string) : list string := split_ws_aux s "".

Definition lookup_table {A} (tbl : list (string * A)) (k : string) : option A :=
  snd <$> List.find (λ kv, String.eqb kv.1 k) tbl.

(** A world given by the files each pattern matches, the checksum of
    each file, the known compression schemes and the exit status of
    each command. *)
Definition mk_world (suite : option string)
    (globs : list (string * list string))
    (sums : list (string * string))
    (handlers : list string)
    (exit_status : string → Z) : World :=
  {| w_suite_name := suite;
     w_cycle := Some "20130101T0000Z";
     w_getcwd := "/work";
     w_get_suite_dir := λ n, "/suites/" ++ n;
     w_env_var_process := λ s, Some s;
     w_shlex_split := λ s, Some (split_ws s);
     w_glob := λ p, default [] (lookup_table globs p);
     w_get_checksum_func := λ _, true;
     w_get_checksum := λ _ p, [("", lookup_table sums p)];
     w_get_handler := λ s, existsb (String.eqb s) handlers;
     w_compress_sources := λ _ t _,
       Some {| co_path := RoseArchSource.path; co_work_source_path := None |};
     w_re_compile := λ _, Some (λ _, None);
     w_popen_run := λ c, (exit_status c, "", "");
     w_list_to_shell_str := join " ";
     w_mkdtemp := λ _, "/tmp/tmpdir" |}.

Definition node (l : list (string * string)) : ConfigNode :=
  {| is_ignored := false; opts := list_to_map l |}.

Definition st0 (db : Db) : State := {| st_db := db; st_trace := [] |}.

(** The statuses a run ends with, when it returns. *)
Definition final_statuses (r : State * (PyExc + list Target))
    : option (list (option Status)) :=
  match r.2 with
  | inr ts => Some (RoseArchTarget.status <$> ts)
  | inl _ => None
  end.

(** The archive commands of a trace. *)
Definition commands (l : list Action) : list string :=
  omap (λ a, match a with ARun c => Some c | _ => None end) l.

(** One compulsory target with one file. *)
Definition w_one : World :=
  mk_world (Some "suite") [("a*", ["a1"])] [("a1", "c1")] [] (λ _, 0%Z).

Definition conf_one : gmap string ConfigNode :=
  {[ "arch:out" := node [("source", "a*");
                         ("command-format", "cp %(sources)s %(target)s")] ]}.

Definition db_one : Db :=
  {| T_TARGETS := [ {| tr_target_name := "out"; tr_compress_scheme := None;
                       tr_command_format := Some "cp %(sources)s %(target)s";
                       tr_command_rc := 0;
                       tr_source_edit_format := Some "" |} ];
     T_SOURCES := [ {| sr_target_name := "out"; sr_source_name := "a1";
                       sr_checksum := "c1" |} ] |}.

(** A world in which [ROSE_SUITE_NAME] is not set. *)
Definition w_unset : World :=
  mk_world None [("a*", ["a1"])] [("a1", "c1")] [] (λ _, 0%Z).

(** A cache that still remembers a target of an earlier configuration. *)
Definition db_stale : Db :=
  {| T_TARGETS := [ {| tr_target_name := "gone"; tr_compress_scheme := None;
                       tr_command_format := Some "cp %(sources)s %(target)s";
                       tr_command_rc := 0;
                       tr_source_edit_format := Some "" |} ];
     T_SOURCES := [ {| sr_target_name := "gone"; sr_source_name := "g1";
                       sr_checksum := "c9" |} ] |}.

(** The target that [conf_one] resolves to in [w_one]. *)
Definition t_one : Target :=
  RoseArchTarget.mk "out" None (Some "cp %(sources)s %(target)s") 0
    {[ "c1" := RoseArchSource.mk "c1" "a1" (Some "a1") "a1" (Some "a1") ]}
    (Some "") None None.

(** A world without any file, and the two scenarios of an empty target:
    optional (parenthesised name) and compulsory. *)
Definition w_empty : World := mk_world (Some "suite") [] [] [] (λ _, 0%Z).

Definition conf_opt : gmap string ConfigNode :=
  {[ "arch:(out.txt)" := node [("source", "data/*.txt");
                               ("command-format", "cp %(sources)s %(target)s")] ]}.

Definition conf_comp : gmap string ConfigNode :=
  {[ "arch:out.txt" := node [("source", "data/*.txt");
                             ("command-format", "cp %(sources)s %(target)s")] ]}.

(** The world of [w_one], except that every command exits with status 2. *)
Definition w_fail : World :=
  mk_world (Some "suite") [("a*", ["a1"])] [("a1", "c1")] [] (λ _, 2%Z).

Definition row_one (rc : Z) : TargetRow :=
  {| tr_target_name := "out"; tr_compress_scheme := None;
     tr_command_format := Some "cp %(sources)s %(target)s";
     tr_command_rc := rc;
     tr_source_edit_format := Some "" |}.

(** The status and the number of sources of the target a set-up returns. *)
Definition resolved_status (r : W Target) : option (option Status * nat) :=
  match r.2 with
  | inr t => Some (RoseArchTarget.status t, size (RoseArchTarget.sources t))
  | inl _ => None
  end.

(** An optional target with a required pattern that matches nothing. *)
Definition node_two_patterns : ConfigNode :=
  node [("source", "a* b*"); ("command-format", "cp %(sources)s %(target)s")].

Definition conf_two_patterns : gmap string ConfigNode :=
  {[ "arch:(out)" := node_two_patterns ]}.

(** An optional target without sources and with an unknown compression
    scheme. *)
Definition node_zip : ConfigNode :=
  node [("source", "data/*.txt");
        ("command-format", "cp %(sources)s %(target)s");
        ("compress", "zip")].

Definition conf_zip : gmap string ConfigNode := {[ "arch:(out.txt)" := node_zip ]}.

(** A cache that holds the target [out.txt] as archived earlier from
    one file. *)
Definition db_prev : Db :=
  {| T_TARGETS := [ {| tr_target_name := "out.txt"; tr_compress_scheme := None;
                       tr_command_format := Some "cp %(sources)s %(target)s";
                       tr_command_rc := 0;
                       tr_source_edit_format := Some "" |} ];
     T_SOURCES := [ {| sr_target_name := "out.txt"; sr_source_name := "data/a.txt";
                       sr_checksum := "c7" |} ] |}.

(** The compulsory target [out.txt] as resolved when no file matches. *)
Definition t_bad : Target :=
  RoseArchTarget.mk "out.txt" None (Some "cp %(sources)s %(target)s") 0 ∅
    (Some "") (Some ST_BAD) None.

(** Two entries whose keys differ after the colon, but which resolve to
    the same target name [ab] through a [target-prefix]. *)
Definition conf_dup : gmap string ConfigNode :=
  {[ "arch:ab" := node [("source", "a*");
                        ("command-format", "cp %(sources)s %(target)s")];
     "arch:b" := node [("source", "a*"); ("target-prefix", "a");
                       ("command-format", "cp %(sources)s %(target)s")] ]}.

(** Two entries with the same key after the colon, once the parentheses
    of the optional one are removed. *)
Definition conf_dup_key : gmap string ConfigNode :=
  {[ "arch:(out)" := node [("source", "a*");
                           ("command-format", "cp %(sources)s %(target)s")];
     "arch:out" := node [("source", "a*");
                         ("command-format", "cp %(sources)s %(target)s")] ]}.

(** The names of the targets a set-up loop resolved. *)
Definition resolved_names (r : State * (PyExc + list Target)) : option (list string) :=
  match r.2 with
  | inr ts => Some (RoseArchTarget.name <$> ts)
  | inl _ => None
  end.

(** The arguments of a command template, for the examples of [%]. *)
Definition m2 : gmap string PyVal :=
  <["sources" := VStr "a b"]> (<["target" := VStr "t"]> ∅).

(** The configuration of [conf_one] without its compulsory
    [command-format]: the set-up of the target raises. *)
Definition conf_nocmd : gmap string ConfigNode :=
  {[ "arch:out" := node [("source", "a*")] ]}.

(** The configuration of [conf_one] with a rename that uses the cycle. *)
Definition conf_cycle : gmap string ConfigNode :=
  {[ "arch:out" := node [("source", "a*");
                         ("command-format", "cp %(sources)s %(target)s");
                         ("rename-format", "%(cycle)s-%(name)s")] ]}.

(** The world of [w_one] one cycle later: only [ROSE_TASK_CYCLE_TIME]
    differs. *)
Definition w_next_cycle : World :=
  {| w_suite_name := w_suite_name w_one;
     w_cycle := Some "20130102T0000Z";
     w_getcwd := w_getcwd w_one;
     w_get_suite_dir := w_get_suite_dir w_one;
     w_env_var_process := w_env_var_process w_one;
     w_shlex_split := w_shlex_split w_one;
     w_glob := w_glob w_one;
     w_get_checksum_func := w_get_checksum_func w_one;
     w_get_checksum := w_get_checksum w_one;
     w_get_handler := w_get_handler w_one;
     w_compress_sources := w_compress_sources w_one;
     w_re_compile := w_re_compile w_one;
     w_popen_run := w_popen_run w_one;
     w_list_to_shell_str := w_list_to_shell_str w_one;
     w_mkdtemp := w_mkdtemp w_one |}.

(** The node of the target of [conf_cycle], and the target [t_one] after
    the rename of its source in [w_one]. *)
Definition node_cycle : ConfigNode :=
  node [("source", "a*");
        ("command-format", "cp %(sources)s %(target)s");
        ("rename-format", "%(cycle)s-%(name)s")].

Definition t_renamed : Target :=
  RoseArchTarget.set_sources t_one
    {[ "c1" := RoseArchSource.mk "c1" "a1" (Some "a1") "20130101T0000Z-a1"
                 (Some "a1") ]}.

(** Three targets whose names, through [target-prefix], are not in the
    order of their keys: [za], [b] and [ac]. *)
Definition conf_three : gmap string ConfigNode :=
  {[ "arch:a" := node [("source", "a*"); ("target-prefix", "z");
                       ("command-format", "cp %(sources)s %(target)s")];
     "arch:b" := node [("source", "a*");
                       ("command-format", "cp %(sources)s %(target)s")];
     "arch:c" := node [("source", "a*"); ("target-prefix", "a");
                       ("command-format", "cp %(sources)s %(target)s")] ]}.

(** The targets a run or a set-up loop returns, none when it raises. *)
Definition returned (r : State * (PyExc + list Target)) : list Target :=
  match r.2 with
  | inr ts => ts
  | inl _ => []
  end.


End Examples.

(** ** rose_prune *)

Module Prune.
Import PyStr.

(** The collaborators of [RosePruneApp.run]. *)
Record World := {
  w_suite_name : option string;
  w_conf_cycles : option string;
  w_conf_globs : option string;
  w_shlex_split : option string → list string;
  w_task_cycle_time_mode : bool;
  w_is_offset : string → bool;
  w_date_shift : string → option string;
  w_get_cycle_items_globs : string → list string;
  w_get_suite_jobs_auths : string → list string;
  w_get_suite_dir_rel : string → string;
  w_get_suite_dir : string → string;
  w_getcwd : string;
  w_get_cmd : string → string → list string;
  w_run_ok : list string → option (string * string);
  w_glob : string → list string;
}.

Inductive PyExc :=
| OffsetValueError (cycle : string)
| PyKeyError (key : string)
| PyValueError (msg : string)
| PyTypeError (msg : string).

Inductive Action :=
| AGenerate (suite_name : string) (cycles : list string)
| ASsh (cmd : list string)
| AEventPopenError (cmd : list string)
| AEventDelete (name : string)
| AChdir (dir : string)
| AFsDelete (name : string).

(** The template of the remote command, as line 72 has it. *)
Definition SH_CMD_TEMPLATE : string := "cd %(d)s && ls -d %(g)s && rm -rf %(g)".

Definition sh_cmd_args (suite_dir_rel : string) (globs : list string)
    : gmap string PyVal :=
  <["d" := VStr suite_dir_rel]> (<["g" := VStr (join " " globs)]> ∅).

(** [sh_cmd = TEMPLATE % sh_cmd_args]. *)
Definition sh_cmd (suite_dir_rel : string) (globs : list string) : FmtResult :=
  format SH_CMD_TEMPLATE (sh_cmd_args suite_dir_rel globs).

(** [out.splitlines()]. *)
Fixpoint splitlines_aux (s : string) (cur : string) : list string :=
  match s with
  | EmptyString => if String.eqb cur "" then [] else [cur]
  | String c s' =>
      if (N_of_ascii c =? 10)%N then cur :: splitlines_aux s' ""
      else if (N_of_ascii c =? 13)%N
      then match s' with
           | String c' s'' =>
               if (N_of_ascii c' =? 10)%N then cur :: splitlines_aux s'' ""
               else cur :: splitlines_aux s' ""
           | EmptyString => [cur]
           end
      else splitlines_aux s' (cur ++ String c "")
  end.

Definition splitlines (s : string) : list string := splitlines_aux s "".

(** The loop that shifts the cycles: its results are dropped, only an
    [OffsetValueError] of [date_shift] is visible. *)
Fixpoint shift_cycles (w : World) (cycles : list string) : option PyExc :=
  match cycles with
  | [] => None
  | cycle :: cycles' =>
      if w_task_cycle_time_mode w && w_is_offset w cycle
      then match w_date_shift w cycle with
           | Some _ => shift_cycles w cycles'
           | None => Some (OffsetValueError cycle)
           end
      else shift_cycles w cycles'
  end.

(** The loop over the hosts of the suite. *)
Definition prune_host (w : World) (suite_dir_rel cmd host : string)
    : list Action :=
  let c := w_get_cmd w host cmd in
  ASsh c ::
  match w_run_ok w c with
  | None => [AEventPopenError c]
  | Some (out, _) =>
      (λ line, AEventDelete (host ++ ":" ++ suite_dir_rel ++ "/" ++ line))
        <$> splitlines out
  end.

Definition truthy (v : option string) : bool :=
  match v with
  | Some s => negb (String.eqb s "")
  | None => false
  end.

(** [RosePruneApp.run]: the actions performed and the exception that
    ended the call, if any. *)
Definition run (w : World) : list Action * option PyExc :=
  if negb (truthy (w_suite_name w)) then ([], None)
  else
    let suite_name := default "" (w_suite_name w) in
    let cycles := w_shlex_split w (w_conf_cycles w) in
    if match cycles with [] => true | _ => false end
       && negb (truthy (w_conf_globs w))
    then ([], None)
    else
      match shift_cycles w cycles with
      | Some e => ([], Some e)
      | None =>
          let acts :=
            match cycles with
            | [] => []
            | _ => [AGenerate suite_name cycles]
            end in
          let globs :=
            (concat (w_get_cycle_items_globs w <$> cycles)
             ++ w_shlex_split w (Some (default "" (w_conf_globs w))))%list in
          let hosts := w_get_suite_jobs_auths w suite_name in
          let suite_dir_rel := w_get_suite_dir_rel w suite_name in
          match sh_cmd suite_dir_rel globs with
          | FmtOk cmd =>
              let remote := concat (prune_host w suite_dir_rel cmd <$> hosts) in
              let local :=
                AFsDelete <$> concat (w_glob w <$> globs) in
              ((acts ++ remote ++ [AChdir (w_get_suite_dir w suite_name)]
                ++ local ++ [AChdir (w_getcwd w)])%list, None)
          | FmtKeyError k => (acts, Some (PyKeyError k))
          | FmtValueError msg => (acts, Some (PyValueError msg))
          | FmtTypeError msg => (acts, Some (PyTypeError msg))
          end
      end.

End Prune.

(** * Properties *)

Module PyStrTests.
Import PyStr Examples.

Example fmt_plain : format "cp %(sources)s %(target)s" m2 = FmtOk "cp a b t".
Proof. vm_compute. reflexivity. Qed.

Example fmt_pct : format "100%% %(target)5s|%(target)-3s|%(sources).1s" m2
                  = FmtOk "100%     t|t  |a".
Proof. vm_compute. reflexivity. Qed.

Example fmt_keyerr : format "cp %(source)s" m2 = FmtKeyError "source".
Proof. vm_compute. reflexivity. Qed.

Example fmt_num : format "%(target)d" m2 = FmtTypeError "a number is required".
Proof. vm_compute. reflexivity. Qed.

Example fmt_twice : format "%(target)s %s" m2 = not_enough.
Proof. vm_compute. reflexivity. Qed.

Example fmt_repr : format "%(target)r" (<["target" := VStr "a'b"]> ∅)
                   = FmtOk (String dquote ("a'b" ++ String dquote "")).
Proof. vm_compute. reflexivity. Qed.

Example fmt_unfinished_key : format "x %(tar" m2 = FmtValueError "incomplete format key".
Proof. vm_compute. reflexivity. Qed.

Example fmt_bad_char : format "%(target)y" m2 = FmtValueError "unsupported format character".
Proof. vm_compute. reflexivity. Qed.
End PyStrTests.

Module ExampleRuns.
Import PyStr Arch Notions Examples.

Example run_one_db : st_db (_run w_one conf_one (st0 empty_db)).1 = db_one.
Proof. vm_compute. reflexivity. Qed.

Example run_one_result : (_run w_one conf_one (st0 empty_db)).2 = inr 0%nat.
Proof. vm_compute. reflexivity. Qed.

Example run_one_command :
  ARun "cp a1 out" ∈ st_trace (_run w_one conf_one (st0 empty_db)).1.
Proof. vm_compute. set_solver. Qed.

Example run_one_again :
  final_statuses (_run_targets w_one conf_one (st0 db_one)) = Some [Some ST_OLD].
Proof. vm_compute. reflexivity. Qed.

End ExampleRuns.

(** ** rose_prune: the template of the remote command *)

Module PruneFacts.
Import PyStr Prune.

(** C10. The remote command of the pruning task is built by
    [%]-substitution from a template whose last placeholder, [%(g)],
    has no conversion character: for every directory and every list of
    globs (empty or not) the substitution raises
    [ValueError: incomplete format] and yields no command; hence a call
    of [run] either returns before it reaches the template having done
    nothing, or fails while shifting a cycle, or ends in that
    [ValueError] - no remote command is ever issued. *)
Theorem sh_cmd_incomplete_format :
  (∀ (suite_dir_rel : string) (globs : list string),
     sh_cmd suite_dir_rel globs = FmtValueError "incomplete format")
  ∧ (∀ w : World,
       run w = ([], None)
       ∨ (∃ cycle, run w = ([], Some (OffsetValueError cycle)))
       ∨ ((run w).2 = Some (PyValueError "incomplete format")
          ∧ ∀ a, a ∈ (run w).1 → ∃ n c, a = AGenerate n c)).
Proof.
  assert (Hfmt : ∀ d g, sh_cmd d g = FmtValueError "incomplete format").
  { intros d g. vm_compute. reflexivity. }
  split; [exact Hfmt|].
  intros w. unfold run.
  destruct (negb (truthy (w_suite_name w))); [by left|].
  destruct (_ && _); [by left|].
  destruct (shift_cycles w _) as [e|] eqn:Hs.
  - right; left. clear -Hs.
    induction (w_shlex_split w (w_conf_cycles w)) as [|c cs IH]; [done|].
    simpl in Hs. destruct (_ && _).
    + destruct (w_date_shift w c); [by apply IH|].
      injection Hs as <-. by eexists.
    + by apply IH.
  - right; right. rewrite Hfmt. simpl. split; [done|].
    intros a Ha. destruct (w_shlex_split w (w_conf_cycles w)).
    + by apply elem_of_nil in Ha.
    + apply list_elem_of_singleton in Ha as ->. by do 2 eexists.
Qed.

End PruneFacts.

(** ** rose_arch: the early return of [run] *)

Module EarlyReturn.
Import PyStr Arch Notions Examples.

(** With [ROSE_SUITE_NAME] unset and no cache file in the directory, the
    call returns at once, but the cache file has been created with its
    two empty tables and the connection to it is left open: the early
    return is not free of side effects. *)
Lemma run_unset_creates_store :
  w_suite_name w_unset = None
  ∧ run w_unset conf_one None
    = ({| file := Some empty_db; conn_open := true |}, [], inr None).
Proof. split; reflexivity. Qed.

(** C9 (amended). When [ROSE_SUITE_NAME] is unset or empty, [run]
    returns [None] without resolving or executing any target (the trace
    of actions is empty) and without changing the rows of an existing
    cache; the data access object is built before the test, so a cache
    file that does not exist is created with two empty tables, and the
    connection that created it is not closed. *)
Theorem run_without_suite_name (w : World) (config : gmap string ConfigNode)
    (file0 : option Db) :
  truthy (w_suite_name w) = false →
  run w config file0
  = (match file0 with
     | Some db => {| file := Some db; conn_open := false |}
     | None => {| file := Some empty_db; conn_open := true |}
     end, [], inr None).
Proof.
  intros Hs. unfold run. rewrite Hs. simpl. by destruct file0.
Qed.

Lemma run_without_suite_name_witness :
  truthy (w_suite_name w_unset) = false
  ∧ run w_unset conf_one (Some db_one)
    = ({| file := Some db_one; conn_open := false |}, [], inr None).
Proof.
  split; [reflexivity|].
  apply (run_without_suite_name w_unset conf_one (Some db_one)). reflexivity.
Defined.

End EarlyReturn.

(** ** rose_arch: what the update of a target does to the state *)

Module UpdateFacts.
Import PyStr Arch Notions.

Lemma extends_refl st : extends st st [].
Proof. unfold extends. by rewrite app_nil_r. Qed.

Lemma extends_trans st1 st2 st3 l1 l2 :
  extends st1 st2 l1 → extends st2 st3 l2 → extends st1 st3 (l1 ++ l2)%list.
Proof. unfold extends. intros H1 H2. by rewrite H2, H1, app_assoc. Qed.

Lemma extends_emit a st : extends st (emit a st) [a].
Proof. reflexivity. Qed.

Lemma extends_with_db db a st : extends st (with_db db a st) [a].
Proof. reflexivity. Qed.

Lemma stage_source_spec w target work_dir s st :
  let r := stage_source w target work_dir s st in
  st_db r.1.1 = st_db st
  ∧ ∃ l, extends st r.1.1 l ∧ Forall quiet l.
Proof.
  unfold stage_source. simpl.
  destruct (truthy _).
  - destruct (format _ _) eqn:Hf; simpl.
    + destruct (_ =? _)%Z; simpl; (split; [done|]); quiet_trace.
    + split; [done|]. quiet_trace.
    + split; [done|]. quiet_trace.
    + split; [done|]. quiet_trace.
  - simpl. split; [done|]. quiet_trace.
Qed.

Lemma stage_list_spec w target work_dir l acc st :
  let r := stage_list w target work_dir l acc st in
  st_db r.1.1 = st_db st
  ∧ ∃ tr, extends st r.1.1 tr ∧ Forall quiet tr.
Proof.
  revert acc st. induction l as [|[k s] l IH]; intros acc st; simpl.
  - split; [done|]. exists []. split; [apply extends_refl|constructor].
  - pose proof (stage_source_spec w target work_dir s st) as Hs.
    destruct (stage_source w target work_dir s st) as [[st1 s1] e1].
    simpl in Hs. destruct Hs as [Hdb (l1 & He1 & Hq1)].
    destruct e1.
    + simpl. split; [done|]. by exists l1.
    + specialize (IH (<[k:=s1]> acc) st1). simpl in IH.
      destruct IH as [Hdb2 (l2 & He2 & Hq2)].
      split; [congruence|]. exists (l1 ++ l2)%list.
      split; [by eapply extends_trans|by apply Forall_app].
Qed.

Lemma stage_spec w target work_dir st :
  let r := stage w target work_dir st in
  st_db r.1.1 = st_db st
  ∧ RoseArchTarget.name r.1.2 = RoseArchTarget.name target
  ∧ RoseArchTarget.status r.1.2 = RoseArchTarget.status target
  ∧ RoseArchTarget.command_rc r.1.2 = RoseArchTarget.command_rc target
  ∧ ∃ tr, extends st r.1.1 tr ∧ Forall quiet tr.
Proof.
  unfold stage. destruct (_ || _).
  - pose proof (stage_list_spec w target work_dir
                  (map_to_list (RoseArchTarget.sources target))
                  (RoseArchTarget.sources target) st) as Hs.
    destruct (stage_list _ _ _ _ _ _) as [[st1 srcs] e]. simpl in *.
    destruct Hs as [Hdb Htr]. by repeat split.
  - simpl. repeat split. exists []. split; [apply extends_refl|constructor].
Qed.

Lemma compress_spec w target work_dir st :
  let r := compress w target work_dir st in
  st_db r.1.1 = st_db st
  ∧ RoseArchTarget.name r.1.2 = RoseArchTarget.name target
  ∧ RoseArchTarget.status r.1.2 = RoseArchTarget.status target
  ∧ RoseArchTarget.command_rc r.1.2 = RoseArchTarget.command_rc target
  ∧ ∃ tr, extends st r.1.1 tr ∧ Forall quiet tr.
Proof.
  unfold compress. destruct (truthy _).
  - destruct (w_get_handler _ _).
    + destruct (w_compress_sources _ _ _ _); simpl; repeat split; quiet_trace.
    + simpl. repeat split. quiet_trace.
  - simpl. repeat split. quiet_trace.
Qed.

(** The archive step either fails before the command and changes
    nothing, or runs the command once and records its exit status. *)
Lemma archive_spec w target st :
  (∃ e, archive w target st = (st, target, None, Some e)
        ∧ ∀ c, archive_command w target ≠ Some (FmtOk c))
  ∨ (∃ command ret_code out err,
       archive_command w target = Some (FmtOk command)
       ∧ w_popen_run w command = (ret_code, out, err)
       ∧ let target' :=
           RoseArchTarget.set_command_rc
             (if (ret_code =? 0)%Z
              then RoseArchTarget.set_status target (Some ST_NEW) else target)
             ret_code in
         ∃ st' ev,
           archive w target st = (st', target', Some ret_code, None)
           ∧ st_db st' = RoseArchDAO.update_command_rc (st_db st) target'
           ∧ extends st st'
               [ARun command; ev; AEvent (EvText out);
                ADbUpdateCommandRc (RoseArchTarget.name target) ret_code]
           ∧ quiet ev).
Proof.
  unfold archive, archive_command.
  destruct (RoseArchTarget.command_format target) as [cf|]; simpl.
  2:{ left. eexists. split; [reflexivity|]. intros c Hc. discriminate. }
  destruct (format cf _) as [command| | |] eqn:Hf.
  2-4: left; eexists; (split; [reflexivity|]); intros c Hc; discriminate.
  right. destruct (w_popen_run w command) as [[ret_code out] err] eqn:Hr.
  exists command, ret_code, out, err.
  split; [done|]. split; [exact Hr|].
  destruct (ret_code =? 0)%Z; simpl.
  - do 2 eexists. repeat split.
    + unfold extends. simpl. rewrite <- !app_assoc. reflexivity.
    + exact I.
  - do 2 eexists. repeat split.
    + unfold extends. simpl. rewrite <- !app_assoc. reflexivity.
    + exact I.
Qed.

(** The [try] block: an exception before the archive command leaves
    the cache as it was and runs no command; otherwise the archive
    command runs once and its exit status is recorded. *)
Lemma update_body_spec w target work_dir st :
  let r := update_body w target work_dir st in
  RoseArchTarget.name r.1.1.2 = RoseArchTarget.name target
  ∧ ((∃ e tr, r.2 = Some e ∧ r.1.2 = None
              ∧ st_db r.1.1.1 = st_db st
              ∧ RoseArchTarget.status r.1.1.2 = Some ST_BAD
              ∧ RoseArchTarget.command_rc r.1.1.2 = RoseArchTarget.command_rc target
              ∧ extends st r.1.1.1 tr ∧ Forall quiet tr)
     ∨ (∃ command ret_code out err tr ev,
          r.2 = None ∧ r.1.2 = Some ret_code
          ∧ w_popen_run w command = (ret_code, out, err)
          ∧ RoseArchTarget.command_rc r.1.1.2 = ret_code
          ∧ RoseArchTarget.status r.1.1.2
            = Some (if (ret_code =? 0)%Z then ST_NEW else ST_BAD)
          ∧ st_db r.1.1.1 = RoseArchDAO.update_command_rc (st_db st) r.1.1.2
          ∧ extends st r.1.1.1
              (tr ++ [ARun command; ev; AEvent (EvText out);
                      ADbUpdateCommandRc (RoseArchTarget.name target) ret_code])
          ∧ Forall quiet tr ∧ quiet ev)).
Proof.
  unfold update_body.
  pose proof (stage_spec w (RoseArchTarget.set_status target (Some ST_BAD))
                work_dir st) as Hs.
  destruct (stage _ _ _ _) as [[st1 t1] e1]. simpl in Hs.
  destruct Hs as (Hdb1 & Hn1 & Hst1 & Hrc1 & tr1 & He1 & Hq1).
  destruct e1 as [e1|].
  { simpl. split; [done|]. left. exists e1, tr1. by repeat split. }
  pose proof (compress_spec w t1 work_dir st1) as Hc.
  destruct (compress _ _ _ _) as [[st2 t2] e2]. simpl in Hc.
  destruct Hc as (Hdb2 & Hn2 & Hst2 & Hrc2 & tr2 & He2 & Hq2).
  destruct e2 as [e2|].
  { simpl. split; [congruence|]. left. exists e2, (tr1 ++ tr2)%list.
    repeat split; try congruence.
    - by eapply extends_trans.
    - by apply Forall_app. }
  destruct (archive_spec w t2 st2) as [(e & Ha & _)|Ha].
  { rewrite Ha. simpl. split; [congruence|]. left. exists e, (tr1 ++ tr2)%list.
    repeat split; try congruence.
    - by eapply extends_trans.
    - by apply Forall_app. }
  destruct Ha as (command & ret_code & out & err & _ & Hr & Ha).
  simpl in Ha. destruct Ha as (st' & ev & Ha & Hdb3 & He3 & Hq3).
  rewrite Ha. simpl. split.
  { destruct (ret_code =? 0)%Z; simpl; congruence. }
  right. exists command, ret_code, out, err, (tr1 ++ tr2)%list, ev.
  repeat split; try done.
  - destruct (ret_code =? 0)%Z; simpl; [done|congruence].
  - rewrite Hdb3. congruence.
  - rewrite <- app_assoc. eapply extends_trans; [exact He1|].
    eapply extends_trans; [exact He2|]. rewrite Hn2, Hn1 in He3. exact He3.
  - by apply Forall_app.
Qed.

Lemma update_old w target st :
  RoseArchTarget.status target = Some ST_OLD →
  _run_target_update w target st
  = (emit (AEvent (RoseArchEvent target None)) st, inr target).
Proof. intros H. unfold _run_target_update. by rewrite bool_decide_eq_true_2. Qed.

Lemma update_bad_null w target st :
  status_in_bad_null target = true →
  ∃ rc level,
    _run_target_update w target st
    = (emit (AEventErr (RoseArchEvent (RoseArchTarget.set_command_rc target rc) None)
               level)
         (emit (AEvent (RoseArchEvent (RoseArchTarget.set_command_rc target rc) None))
            st),
       inr (RoseArchTarget.set_command_rc target rc)).
Proof.
  intros H. unfold _run_target_update.
  rewrite bool_decide_eq_false_2.
  2:{ intros Ho. unfold status_in_bad_null in H. by rewrite Ho in H. }
  rewrite H. by do 2 eexists.
Qed.

Lemma update_pending_conflict w target st :
  pending target →
  RoseArchDAO.insert (st_db st) (RoseArchTarget.set_command_rc target 1) = None →
  _run_target_update w target st
  = (st, inl (IntegrityError (RoseArchTarget.name target))).
Proof.
  intros [Ho Hb] Hi. unfold _run_target_update.
  rewrite bool_decide_eq_false_2 by done. rewrite Hb, Hi. reflexivity.
Qed.

(** The first action of the update of a pending target is the insertion
    of its row with [command_rc = 1]; then either an exception ends the
    step before the archive command, or the command runs once and its
    exit status replaces the [1]. *)
Lemma update_pending_spec w target st db1 :
  pending target →
  RoseArchDAO.insert (st_db st) (RoseArchTarget.set_command_rc target 1) = Some db1 →
  let r := _run_target_update w target st in
  ∃ tail,
    extends st r.1
      (ADbInsert (RoseArchDAO.target_row (RoseArchTarget.set_command_rc target 1))
         (RoseArchDAO.source_rows target) :: tail)
    ∧ ((∃ e, r.2 = inl e ∧ st_db r.1 = db1 ∧ Forall quiet tail)
       ∨ (∃ t' command out err tr1 tr2,
            r.2 = inr t'
            ∧ RoseArchTarget.name t' = RoseArchTarget.name target
            ∧ w_popen_run w command = (RoseArchTarget.command_rc t', out, err)
            ∧ RoseArchTarget.status t'
              = Some (if (RoseArchTarget.command_rc t' =? 0)%Z
                      then ST_NEW else ST_BAD)
            ∧ st_db r.1 = RoseArchDAO.update_command_rc db1 t'
            ∧ tail = (tr1 ++ ARun command :: tr2)%list
            ∧ Forall quiet tr1
            ∧ Forall (λ a, quiet a ∨ ∃ n rc, a = ADbUpdateCommandRc n rc) tr2)).
Proof.
  intros [Ho Hb] Hi. unfold _run_target_update.
  rewrite bool_decide_eq_false_2 by done. rewrite Hb, Hi.
  set (t1 := RoseArchTarget.set_command_rc target 1).
  set (st1 := with_db db1 _ st).
  set (work_dir := w_mkdtemp w _).
  pose proof (update_body_spec w t1 work_dir (emit (AMkdtemp work_dir) st1)) as Hu.
  destruct (update_body _ _ _ _) as [[[st2 t2] ret_code] e]. simpl in Hu.
  destruct Hu as [Hn [Hu|Hu]].
  - destruct Hu as (e' & tr & -> & -> & Hdb & Hst & Hrc & He & Hq).
    unfold status_in_bad_null. rewrite Hst. simpl.
    exists ([AMkdtemp work_dir] ++ tr
            ++ [AFsDelete work_dir; AEvent (RoseArchEvent t2 (Some None));
                AEventErr (RoseArchEvent t2 (Some None)) LevelFail])%list.
    split.
    + unfold extends in *. simpl in *. rewrite He. subst st1. simpl.
      rewrite <- !app_assoc. reflexivity.
    + left. exists e'. split; [done|]. split; [done|].
      constructor; [exact I|]. apply Forall_app. split; [done|].
      repeat constructor.
  - destruct Hu as (command & rc & out & err & tr & ev & -> & -> & Hr & Hrc
                    & Hst & Hdb & He & Hq & Hqe).
    simpl.
    set (fin := if status_in_bad_null t2
                then [AEventErr (RoseArchEvent t2 (Some (Some rc))) LevelFail]
                else []).
    exists ([AMkdtemp work_dir] ++ (tr ++ [ARun command; ev; AEvent (EvText out);
                ADbUpdateCommandRc (RoseArchTarget.name t1) rc])
            ++ [AFsDelete work_dir; AEvent (RoseArchEvent t2 (Some (Some rc)))]
            ++ fin)%list.
    split.
    + unfold extends in *. subst fin. destruct (status_in_bad_null t2); simpl in *;
        rewrite He; subst st1; simpl; rewrite <- !app_assoc; reflexivity.
    + right. exists t2, command, out, err, (AMkdtemp work_dir :: tr),
        ([ev; AEvent (EvText out); ADbUpdateCommandRc (RoseArchTarget.name t1) rc;
          AFsDelete work_dir; AEvent (RoseArchEvent t2 (Some (Some rc)))] ++ fin)%list.
      split.
      { by destruct (status_in_bad_null t2). }
      split; [done|]. split; [by rewrite Hrc|]. split; [by rewrite Hrc|].
      split.
      { destruct (status_in_bad_null t2); simpl; exact Hdb. }
      split.
      { simpl. rewrite <- !app_assoc. reflexivity. }
      split; [by constructor|].
      repeat (constructor; [first [by left | right; by do 2 eexists]|]).
      subst fin. destruct (status_in_bad_null t2); repeat constructor.
Qed.

End UpdateFacts.

(** ** rose_arch: the cache, name by name *)

Module DaoFacts.
Import PyStr Arch Notions.

Lemma select_rows_of db db' n :
  rows_of db n = rows_of db' n → RoseArchDAO.select db n = RoseArchDAO.select db' n.
Proof.
  unfold rows_of, RoseArchDAO.select, RoseArchDAO.select_sources.
  intros [= -> ->]. reflexivity.
Qed.

Lemma no_rows_select db n : no_rows db n → RoseArchDAO.select db n = None.
Proof. unfold no_rows, rows_of, RoseArchDAO.select. by intros [= -> _]. Qed.

Lemma filter_nil_iff {A} (P : A → Prop) `{∀ x, Decision (P x)} (l : list A) :
  filter P l = [] ↔ Forall (λ x, ¬ P x) l.
Proof.
  induction l as [|x l IH]; simpl.
  - split; [constructor|done].
  - rewrite filter_cons. destruct (decide (P x)).
    + split; [done|]. by inversion 1.
    + rewrite IH. split; [by constructor|by inversion 1].
Qed.

Lemma no_rows_iff db n :
  no_rows db n ↔
  Forall (λ r, tr_target_name r ≠ n) (T_TARGETS db)
  ∧ Forall (λ r, sr_target_name r ≠ n) (T_SOURCES db).
Proof.
  unfold no_rows, rows_of. rewrite <- !filter_nil_iff. split.
  - by intros [= -> ->].
  - by intros [-> ->].
Qed.

(** [delete] removes the rows of the name and no other row. *)
Lemma delete_no_rows db t : no_rows (RoseArchDAO.delete db t) (RoseArchTarget.name t).
Proof.
  apply no_rows_iff. unfold RoseArchDAO.delete. simpl. split.
  - apply Forall_forall. intros r Hr. by apply list_elem_of_filter in Hr as [? _].
  - apply Forall_forall. intros r Hr. by apply list_elem_of_filter in Hr as [? _].
Qed.

Lemma filter_filter_keep {A} (P Q : A → Prop)
    `{∀ x, Decision (P x)} `{∀ x, Decision (Q x)} (l : list A) :
  (∀ x, P x → Q x) → filter P (filter Q l) = filter P l.
Proof.
  intros HPQ. induction l as [|x l IH]; [done|].
  rewrite !filter_cons. destruct (decide (Q x)) as [Hx|Hx].
  - rewrite filter_cons. destruct (decide (P x)); by rewrite IH.
  - destruct (decide (P x)) as [Hxn|]; [|done].
    exfalso. by apply Hx, HPQ.
Qed.

Lemma delete_rows_of db t n :
  n ≠ RoseArchTarget.name t → rows_of (RoseArchDAO.delete db t) n = rows_of db n.
Proof.
  intros Hne. unfold rows_of, RoseArchDAO.delete. cbn [T_TARGETS T_SOURCES].
  f_equal.
  - apply filter_filter_keep. intros r. congruence.
  - apply filter_filter_keep. intros r. congruence.
Qed.

Lemma where_all_false names n :
  RoseArchDAO.where_all names n = false ↔ n ∈ names.
Proof.
  unfold RoseArchDAO.where_all. induction names as [|m names IH]; simpl.
  - split; [done|]. by intros ?%elem_of_nil.
  - rewrite elem_of_cons, andb_false_iff, IH, negb_false_iff.
    split; (intros [H|H]; [left|by right]).
    + by apply String.eqb_eq.
    + by apply String.eqb_eq.
Qed.

(** [delete_all] keeps exactly the rows whose name is a filter target. *)
Lemma delete_all_rows_of db ts n :
  n ∈ RoseArchTarget.name <$> ts →
  rows_of (RoseArchDAO.delete_all db ts) n = rows_of db n.
Proof.
  intros Hn. unfold RoseArchDAO.delete_all.
  destruct ts as [|t ts]; [by apply elem_of_nil in Hn|].
  set (names := RoseArchTarget.name <$> t :: ts) in *.
  unfold rows_of. cbn [T_TARGETS T_SOURCES].
  f_equal.
  - apply filter_filter_keep. intros r ->. by apply where_all_false.
  - apply filter_filter_keep. intros r ->. by apply where_all_false.
Qed.

Lemma delete_all_names db ts :
  Forall (λ r, tr_target_name r ∈ RoseArchTarget.name <$> ts)
         (T_TARGETS (RoseArchDAO.delete_all db ts))
  ∧ Forall (λ r, sr_target_name r ∈ RoseArchTarget.name <$> ts)
           (T_SOURCES (RoseArchDAO.delete_all db ts)).
Proof.
  unfold RoseArchDAO.delete_all. destruct ts as [|t ts]; [by split; constructor|].
  cbn [T_TARGETS T_SOURCES]. split; apply Forall_forall; intros r Hr;
    apply list_elem_of_filter in Hr as [Hr _]; by apply where_all_false in Hr.
Qed.

(** [insert], when it succeeds, appends the row of the target and the
    rows of its sources. *)
Lemma insert_sources_Some rows new res :
  RoseArchDAO.insert_sources rows new = Some res → res = (rows ++ new)%list.
Proof.
  revert rows. induction new as [|r new IH]; intros rows; simpl.
  - intros [= <-]. by rewrite app_nil_r.
  - destruct (RoseArchDAO.source_conflict rows r); [done|].
    intros H%IH. by rewrite H, <- app_assoc.
Qed.

Lemma insert_Some db t db' :
  RoseArchDAO.insert db t = Some db' →
  db' = {| T_TARGETS := (T_TARGETS db ++ [RoseArchDAO.target_row t])%list;
           T_SOURCES := (T_SOURCES db ++ RoseArchDAO.source_rows t)%list |}.
Proof.
  unfold RoseArchDAO.insert. destruct (existsb _ _); [done|].
  destruct (RoseArchDAO.insert_sources _ _) as [srcs|] eqn:Hs; [|done].
  apply insert_sources_Some in Hs as ->. by intros [= <-].
Qed.

Lemma source_rows_name t :
  Forall (λ r, sr_target_name r = RoseArchTarget.name t) (RoseArchDAO.source_rows t).
Proof.
  unfold RoseArchDAO.source_rows. apply Forall_fmap, Forall_forall. by intros.
Qed.

Lemma source_rows_NoDup t :
  NoDup (sr_checksum <$> RoseArchDAO.source_rows t).
Proof.
  unfold RoseArchDAO.source_rows. rewrite <- list_fmap_compose.
  apply (NoDup_fst_map_to_list (RoseArchTarget.sources t)).
Qed.

Lemma insert_sources_fresh n rows new :
  Forall (λ r, sr_target_name r ≠ n) rows →
  Forall (λ r, sr_target_name r = n) new →
  NoDup (sr_checksum <$> new) →
  RoseArchDAO.insert_sources rows new = Some (rows ++ new)%list.
Proof.
  intros Hrows Hnew Hnd.
  assert (Hgen : ∀ pre, NoDup (sr_checksum <$> (pre ++ new)%list) →
            Forall (λ r, sr_target_name r = n) pre →
            RoseArchDAO.insert_sources (rows ++ pre)%list new
            = Some ((rows ++ pre) ++ new)%list).
  { clear Hnd. induction new as [|r new IH]; intros pre Hnd Hpre; simpl.
    - by rewrite app_nil_r.
    - inversion Hnew as [|?? Hr Hnew']; subst.
      assert (RoseArchDAO.source_conflict (rows ++ pre)%list r = false) as ->.
      { unfold RoseArchDAO.source_conflict. apply not_true_is_false.
        intros (r' & Hin & Hc)%existsb_exists.
        apply andb_true_iff in Hc as [Hn%String.eqb_eq Hk%String.eqb_eq].
        apply in_app_or in Hin as [Hin|Hin].
        - rewrite Forall_forall in Hrows.
          apply (Hrows r'); [by apply list_elem_of_In|]. by rewrite Hn.
        - rewrite fmap_app, fmap_cons in Hnd.
          apply NoDup_app in Hnd as (_ & Hdis & _).
          apply (Hdis (sr_checksum r')).
          + apply list_elem_of_fmap. exists r'. split; [done|].
            by apply list_elem_of_In.
          + rewrite Hk. by left. }
      rewrite <- app_assoc. rewrite (IH Hnew' (pre ++ [r])%list).
      + by rewrite <- !app_assoc.
      + by rewrite <- app_assoc.
      + apply Forall_app. split; [done|]. by constructor. }
  specialize (Hgen [] Hnd (Forall_nil_2 _)). by rewrite app_nil_r in Hgen.
Qed.

Lemma insert_fresh db t :
  no_rows db (RoseArchTarget.name t) →
  RoseArchDAO.insert db t
  = Some {| T_TARGETS := (T_TARGETS db ++ [RoseArchDAO.target_row t])%list;
            T_SOURCES := (T_SOURCES db ++ RoseArchDAO.source_rows t)%list |}.
Proof.
  intros [Ht Hs]%no_rows_iff. unfold RoseArchDAO.insert.
  assert (existsb (λ r, String.eqb (tr_target_name r) (RoseArchTarget.name t))
            (T_TARGETS db) = false) as ->.
  { apply not_true_is_false. intros (r & Hin & Hr%String.eqb_eq)%existsb_exists.
    rewrite Forall_forall in Ht. apply (Ht r); [by apply list_elem_of_In|done]. }
  rewrite (insert_sources_fresh (RoseArchTarget.name t)); try done.
  - apply source_rows_name.
  - apply source_rows_NoDup.
Qed.

Lemma filter_all {A} (P : A → Prop) `{∀ x, Decision (P x)} (l : list A) :
  Forall P l → filter P l = l.
Proof.
  induction 1 as [|x l Hx _ IH]; [done|].
  rewrite filter_cons. destruct (decide (P x)); [by rewrite IH|done].
Qed.

Lemma filter_none {A} (P : A → Prop) `{∀ x, Decision (P x)} (l : list A) :
  Forall (λ x, ¬ P x) l → filter P l = [].
Proof. intros Hl. by apply filter_nil_iff. Qed.

(** After a successful [insert], the rows of another name are the same. *)
Lemma insert_rows_of_ne db t db' n :
  RoseArchDAO.insert db t = Some db' →
  n ≠ RoseArchTarget.name t → rows_of db' n = rows_of db n.
Proof.
  intros ->%insert_Some Hne. unfold rows_of. cbn [T_TARGETS T_SOURCES].
  rewrite !filter_app. f_equal.
  - rewrite (filter_none _ [_]); [by rewrite app_nil_r|].
    constructor; [|constructor]. simpl. congruence.
  - rewrite (filter_none _ (RoseArchDAO.source_rows t)); [by rewrite app_nil_r|].
    eapply Forall_impl; [apply source_rows_name|]. simpl. congruence.
Qed.

(** After [insert] into a cache without rows of the name, the rows of the
    name are those of the target. *)
Lemma insert_rows_of_eq db t db' :
  no_rows db (RoseArchTarget.name t) →
  RoseArchDAO.insert db t = Some db' →
  rows_of db' (RoseArchTarget.name t)
  = ([RoseArchDAO.target_row t], RoseArchDAO.source_rows t).
Proof.
  intros Hno ->%insert_Some. unfold rows_of. cbn [T_TARGETS T_SOURCES].
  unfold no_rows, rows_of in Hno. injection Hno as Ht Hs.
  rewrite !filter_app, Ht, Hs. simpl. f_equal.
  - rewrite filter_cons. by destruct (decide _).
  - apply filter_all, source_rows_name.
Qed.

(** [update_command_rc] rewrites the return code in the rows of the
    name and leaves every other row alone. *)
Lemma update_rc_rows_of_ne db t n :
  n ≠ RoseArchTarget.name t →
  rows_of (RoseArchDAO.update_command_rc db t) n = rows_of db n.
Proof.
  intros Hne. unfold rows_of, RoseArchDAO.update_command_rc.
  cbn [T_TARGETS T_SOURCES]. f_equal.
  induction (T_TARGETS db) as [|r l IH]; [done|].
  rewrite fmap_cons, !filter_cons, IH.
  destruct (String.eqb_spec (tr_target_name r) (RoseArchTarget.name t)) as [He|He].
  - cbn [tr_target_name]. destruct (decide (tr_target_name r = n)); [congruence|done].
  - done.
Qed.

Lemma update_rc_rows_of_eq db t :
  rows_of (RoseArchDAO.update_command_rc db t) (RoseArchTarget.name t)
  = (row_set_rc (RoseArchTarget.command_rc t)
       <$> (rows_of db (RoseArchTarget.name t)).1,
     (rows_of db (RoseArchTarget.name t)).2).
Proof.
  unfold rows_of, RoseArchDAO.update_command_rc.
  cbn [T_TARGETS T_SOURCES fst snd]. f_equal.
  induction (T_TARGETS db) as [|r l IH]; [done|].
  rewrite fmap_cons, !filter_cons, IH.
  destruct (String.eqb_spec (tr_target_name r) (RoseArchTarget.name t)) as [He|He].
  - cbn [tr_target_name]. destruct (decide _); [|done]. by rewrite fmap_cons.
  - by destruct (decide _).
Qed.

Lemma update_rc_names db t (S : string → Prop) :
  Forall (λ r, S (tr_target_name r)) (T_TARGETS db) →
  Forall (λ r, S (tr_target_name r)) (T_TARGETS (RoseArchDAO.update_command_rc db t)).
Proof.
  intros H. unfold RoseArchDAO.update_command_rc. cbn [T_TARGETS].
  apply Forall_fmap. eapply Forall_impl; [exact H|].
  intros r Hr. simpl. by destruct (String.eqb _ _).
Qed.

Lemma names_in_insert S db t db' :
  names_in S db → S (RoseArchTarget.name t) →
  RoseArchDAO.insert db t = Some db' → names_in S db'.
Proof.
  intros [Ht Hs] Hn ->%insert_Some. split; cbn [T_TARGETS T_SOURCES].
  - apply Forall_app. split; [done|]. by repeat constructor.
  - apply Forall_app. split; [done|].
    eapply Forall_impl; [apply source_rows_name|]. by intros r ->.
Qed.

Lemma names_in_update_rc S db t :
  names_in S db → names_in S (RoseArchDAO.update_command_rc db t).
Proof. intros [Ht Hs]. split; [by apply update_rc_names|done]. Qed.

Lemma names_in_delete_all db ts :
  names_in (λ n, n ∈ RoseArchTarget.name <$> ts) (RoseArchDAO.delete_all db ts).
Proof. apply delete_all_names. Qed.

End DaoFacts.

(** ** rose_arch: the loop over the targets *)

Module RunLemmas.
Import PyStr Arch Notions UpdateFacts DaoFacts.

(** One update step keeps the name of the target and brings no foreign
    name into the cache. *)
Lemma update_names w t st (S : string → Prop) :
  names_in S (st_db st) → S (RoseArchTarget.name t) →
  let r := _run_target_update w t st in
  names_in S (st_db r.1)
  ∧ ∀ t', r.2 = inr t' → RoseArchTarget.name t' = RoseArchTarget.name t.
Proof.
  intros Hin HS.
  destruct (decide (RoseArchTarget.status t = Some ST_OLD)) as [Ho|Ho].
  { rewrite update_old by done. simpl. split; [done|]. by intros t' [= <-]. }
  destruct (status_in_bad_null t) eqn:Hb.
  { destruct (update_bad_null w t st Hb) as (rc & level & ->). simpl.
    split; [done|]. by intros t' [= <-]. }
  destruct (RoseArchDAO.insert (st_db st) (RoseArchTarget.set_command_rc t 1))
    as [db1|] eqn:Hi.
  2:{ rewrite update_pending_conflict by done. simpl. by split. }
  destruct (update_pending_spec w t st db1 (conj Ho Hb) Hi) as (tail & He & Hr).
  simpl in *. eapply names_in_insert in Hi; [|done|done].
  destruct Hr as [(e & Hr & Hdb & _)|(t' & c & o & e & tr1 & tr2 & Hr & Hn & _ & _ & Hdb & _)].
  - rewrite Hdb, Hr. by split.
  - rewrite Hdb, Hr. split; [by apply names_in_update_rc|].
    by intros ? [= <-].
Qed.

Lemma update_loop_names w ts st (S : string → Prop) :
  names_in S (st_db st) → Forall (λ t, S (RoseArchTarget.name t)) ts →
  let r := update_loop w ts st in
  names_in S (st_db r.1)
  ∧ ∀ out, r.2 = inr out →
           RoseArchTarget.name <$> out = RoseArchTarget.name <$> ts.
Proof.
  revert st. induction ts as [|t ts IH]; intros st Hin Hall; simpl.
  - split; [done|]. by intros out [= <-].
  - inversion Hall as [|?? Ht Hts]; subst.
    pose proof (update_names w t st S Hin Ht) as Hu.
    destruct (_run_target_update w t st) as [st1 [e|t1]]; simpl in Hu.
    + simpl. split; [apply Hu|done].
    + destruct Hu as [Hin1 Hn1]. specialize (IH st1 Hin1 Hts).
      destruct (update_loop w ts st1) as [st2 [e|out]]; simpl in *.
      * split; [apply IH|done].
      * destruct IH as [Hin2 Hn2]. split; [done|].
        intros ? [= <-]. rewrite fmap_cons, (Hn1 t1), (Hn2 out); done.
Qed.

(** The stable insertion sort permutes its argument. *)
Lemma insert_sorted_perm {A} (le : A → A → bool) x l :
  insert_sorted le x l ≡ₚ x :: l.
Proof.
  induction l as [|y l IH]; simpl; [done|].
  destruct (le y x); [|done]. rewrite IH. apply Permutation_swap.
Qed.

Lemma py_sorted_perm {A} (le : A → A → bool) l : py_sorted le l ≡ₚ l.
Proof.
  unfold py_sorted.
  assert (H : ∀ acc, foldl (λ acc x, insert_sorted le x acc) acc l ≡ₚ (acc ++ l)%list).
  { induction l as [|x l IH]; intros acc; simpl.
    - by rewrite app_nil_r.
    - rewrite IH, insert_sorted_perm. simpl. apply Permutation_middle. }
  apply (H []).
Qed.

End RunLemmas.

(** ** rose_arch: the return value and the stale rows *)

Module RunResult.
Import PyStr Arch Notions Examples UpdateFacts DaoFacts RunLemmas.

Example setup_one :
  _run_target_setup w_one conf_one "arch:out" "out"
    (node [("source", "a*"); ("command-format", "cp %(sources)s %(target)s")]) true
  = ([], inr t_one).
Proof. vm_compute. reflexivity. Qed.




(** The scenarios of the empty target: optional, it ends NULL and the
    run returns 0 without touching the cache; compulsory, it ends BAD and
    the run returns 1. *)
Example empty_optional_target :
  final_statuses (_run_targets w_empty conf_opt (st0 empty_db)) = Some [Some ST_NULL]
  ∧ (_run w_empty conf_opt (st0 empty_db)).2 = inr 0%nat
  ∧ st_db (_run w_empty conf_opt (st0 empty_db)).1 = empty_db
  ∧ commands (st_trace (_run w_empty conf_opt (st0 empty_db)).1) = [].
Proof. vm_compute. done. Qed.

Example empty_compulsory_target :
  final_statuses (_run_targets w_empty conf_comp (st0 empty_db)) = Some [Some ST_BAD]
  ∧ (_run w_empty conf_comp (st0 empty_db)).2 = inr 1%nat.
Proof. vm_compute. done. Qed.

(** A set-up that raises ends the run before [delete_all] is reached:
    with a target that lacks its compulsory [command-format], the rows of
    a name that is no longer configured are still in the cache when the run
    ends, although no target was resolved. *)
Lemma stale_rows_kept_when_setup_raises :
  _run_targets w_one conf_nocmd (st0 db_stale)
  = (st0 db_stale, inl (CompulsoryConfigValueError "command-format"))
  ∧ Arch.run w_one conf_nocmd (Some db_stale)
    = ({| file := Some db_stale; conn_open := false |},
       [AChdir "/suites/suite"; AChdir "/work"],
       inl (CompulsoryConfigValueError "command-format")).
Proof. split; vm_compute; reflexivity. Qed.

(** C7 (amended). When the set-up of every target of the configuration
    completes, every row of the cache (in either table) whose
    [target_name] is not the name of a resolved target is gone when the run
    ends - whether it returns or an update step raises; with no resolved
    target, both tables are empty. *)
Theorem stale_rows_purged (w : World) (config : gmap string ConfigNode)
    (st st1 : State) (targets : list Target) :
  setup_loop w config (sorted_items config) ∅ [] st = (st1, inr targets) →
  let db' := st_db (_run_targets w config st).1 in
  (∀ r, r ∈ T_TARGETS db' → tr_target_name r ∈ RoseArchTarget.name <$> targets)
  ∧ (∀ r, r ∈ T_SOURCES db' → sr_target_name r ∈ RoseArchTarget.name <$> targets)
  ∧ (targets = [] → db' = empty_db).
Proof.
  intros Hs. unfold _run_targets. rewrite Hs.
  set (sorted := sort_targets targets).
  assert (Hperm : sorted ≡ₚ targets) by apply py_sorted_perm.
  assert (Hin : names_in (λ n, n ∈ RoseArchTarget.name <$> sorted)
                  (st_db (delete_all_step sorted st1)))
    by apply names_in_delete_all.
  assert (Hall : Forall (λ t, RoseArchTarget.name t ∈ RoseArchTarget.name <$> sorted)
                   sorted).
  { apply Forall_forall. intros t Ht. by apply list_elem_of_fmap_2. }
  destruct (update_loop_names w sorted (delete_all_step sorted st1) _ Hin Hall)
    as [[Ht Hsrc] _].
  split; [|split].
  - intros r Hr. rewrite Forall_forall in Ht. rewrite <- Hperm. by apply Ht.
  - intros r Hr. rewrite Forall_forall in Hsrc. rewrite <- Hperm. by apply Hsrc.
  - intros ->. subst sorted. reflexivity.
Qed.

Lemma stale_rows_purged_witness :
  setup_loop w_one conf_one (sorted_items conf_one) ∅ [] (st0 db_stale)
  = ((setup_loop w_one conf_one (sorted_items conf_one) ∅ [] (st0 db_stale)).1,
     inr [t_one])
  ∧ let db' := st_db (_run_targets w_one conf_one (st0 db_stale)).1 in
    (∀ r, r ∈ T_TARGETS db' → tr_target_name r ∈ RoseArchTarget.name <$> [t_one])
    ∧ (∀ r, r ∈ T_SOURCES db' → sr_target_name r ∈ RoseArchTarget.name <$> [t_one])
    ∧ ([t_one] = [] → db' = empty_db).
Proof.
  split; [vm_compute; reflexivity|].
  apply (stale_rows_purged w_one conf_one (st0 db_stale)
           (setup_loop w_one conf_one (sorted_items conf_one) ∅ [] (st0 db_stale)).1
           [t_one]).
  vm_compute; reflexivity.
Defined.

End RunResult.

(** ** rose_arch: the provisional row of a target *)

Module ProvisionalRow.
Import PyStr Arch Notions Examples UpdateFacts DaoFacts RunLemmas.

(** The update of a freshly resolved target ([command_rc] still 0) whose
    archive command exits with status 2: the row inserted before the
    command carries [command_rc = 1], not 0, and after the failure the
    row of the target carries 2. *)
Lemma provisional_row_carries_one :
  pending t_one
  ∧ RoseArchTarget.command_rc t_one = 0%Z
  ∧ head (st_trace (_run_target_update w_fail t_one (st0 empty_db)).1)
    = Some (ADbInsert (row_one 1)
              [ {| sr_target_name := "out"; sr_source_name := "a1";
                   sr_checksum := "c1" |} ])
  ∧ T_TARGETS (st_db (_run_target_update w_fail t_one (st0 empty_db)).1)
    = [row_one 2].
Proof.
  split; [by split|]. split; [done|]. split; vm_compute; reflexivity.
Qed.

(** C8 (amended). For a freshly resolved target about to be executed
    (status neither OLD, BAD nor NULL, no row of its name left in the
    cache), the update step sets [command_rc] to 1 - not 0 - and its very
    first action, before any command, is the insertion of the row of the
    target with that value and of the rows of its sources.  These rows are
    still in the cache when the step ends: if the step returns, the row of
    the target carries the exit status of the archive command (the target
    is NEW when that status is 0 and BAD otherwise); if the step raises
    before the archive command has run, the row still carries 1. *)
Theorem provisional_row (w : World) (target : Target) (st : State) :
  pending target →
  no_rows (st_db st) (RoseArchTarget.name target) →
  let r := _run_target_update w target st in
  let row rc := row_set_rc rc (RoseArchDAO.target_row target) in
  ∃ tail,
    st_trace r.1
    = (st_trace st ++ ADbInsert (row 1%Z) (RoseArchDAO.source_rows target) :: tail)%list
    ∧ (rows_of (st_db r.1) (RoseArchTarget.name target)).2
      = RoseArchDAO.source_rows target
    ∧ match r.2 with
      | inl _ =>
          (rows_of (st_db r.1) (RoseArchTarget.name target)).1 = [row 1%Z]
          ∧ Forall quiet tail
      | inr t' =>
          (rows_of (st_db r.1) (RoseArchTarget.name target)).1
          = [row (RoseArchTarget.command_rc t')]
          ∧ RoseArchTarget.status t'
            = Some (if (RoseArchTarget.command_rc t' =? 0)%Z then ST_NEW else ST_BAD)
          ∧ ∃ command out err,
              ARun command ∈ tail
              ∧ w_popen_run w command = (RoseArchTarget.command_rc t', out, err)
      end.
Proof.
  intros Hp Hno. cbv zeta.
  set (t1 := RoseArchTarget.set_command_rc target 1).
  assert (∃ db1, RoseArchDAO.insert (st_db st) t1 = Some db1
                 ∧ rows_of db1 (RoseArchTarget.name target)
                   = ([row_set_rc 1 (RoseArchDAO.target_row target)],
                      RoseArchDAO.source_rows target))
    as (db1 & Hi & Hrows).
  { eexists. split; [by apply insert_fresh|].
    apply (insert_rows_of_eq (st_db st) t1); [done|by apply insert_fresh]. }
  destruct (update_pending_spec w target st _ Hp Hi) as (tail & He & Hr).
  exists tail. split; [exact He|].
  destruct Hr as [(e & -> & -> & Hq)
                 |(t' & c & o & e & tr1 & tr2 & -> & Hn & Hrun & Hst & -> & -> & _)].
  - rewrite Hrows. by repeat split.
  - rewrite <- Hn, update_rc_rows_of_eq, Hn, Hrows. simpl.
    split; [done|]. split; [done|]. split; [done|].
    exists c, o, e. split; [|done]. apply elem_of_app. right. by left.
Qed.

Lemma provisional_row_witness :
  pending t_one
  ∧ no_rows (st_db (st0 empty_db)) (RoseArchTarget.name t_one)
  ∧ let r := _run_target_update w_fail t_one (st0 empty_db) in
    let row rc := row_set_rc rc (RoseArchDAO.target_row t_one) in
    ∃ tail,
      st_trace r.1
      = (st_trace (st0 empty_db)
         ++ ADbInsert (row 1%Z) (RoseArchDAO.source_rows t_one) :: tail)%list
      ∧ (rows_of (st_db r.1) (RoseArchTarget.name t_one)).2
        = RoseArchDAO.source_rows t_one
      ∧ match r.2 with
        | inl _ =>
            (rows_of (st_db r.1) (RoseArchTarget.name t_one)).1 = [row 1%Z]
            ∧ Forall quiet tail
        | inr t' =>
            (rows_of (st_db r.1) (RoseArchTarget.name t_one)).1
            = [row (RoseArchTarget.command_rc t')]
            ∧ RoseArchTarget.status t'
              = Some (if (RoseArchTarget.command_rc t' =? 0)%Z
                      then ST_NEW else ST_BAD)
            ∧ ∃ command out err,
                ARun command ∈ tail
                ∧ w_popen_run w_fail command
                  = (RoseArchTarget.command_rc t', out, err)
        end.
Proof.
  split; [by split|]. split; [reflexivity|].
  apply (provisional_row w_fail t_one (st0 empty_db)); [by split|reflexivity].
Defined.

End ProvisionalRow.

(** ** rose_arch: what the set-up of a target establishes *)

Module SetupFacts.
Import PyStr Arch Notions Examples.

Lemma bindW_inr {A B} (m : W A) (f : A → W B) ev b :
  bindW m f = (ev, inr b) →
  ∃ l1 a l2, m = (l1, inr a) ∧ f a = (l2, inr b) ∧ ev = (l1 ++ l2)%list.
Proof.
  unfold bindW. destruct m as [l1 [e|a]]; [done|].
  destruct (f a) as [l2 r] eqn:Hf. intros [= <- ->]. by exists l1, a, l2.
Qed.

Lemma liftW_inr {A} (r : PyExc + A) ev a :
  liftW r = (ev, inr a) → r = inr a ∧ ev = [].
Proof. unfold liftW. by intros [= <- ->]. Qed.

Lemma check_format_inr what fmt keys t ev t' :
  check_format what fmt keys t = (ev, inr t') →
  t' = t ∨ t' = RoseArchTarget.set_status t (Some ST_BAD).
Proof.
  unfold check_format. destruct fmt as [f|]; [|done].
  destruct (format f keys); try done.
  - intros [= _ <-]. by left.
  - intros [= _ <-]. by right.
Qed.

Lemma add_checksums_spec name path t l :
  let t' := add_checksums name path t l in
  same_core t t'
  ∧ RoseArchTarget.status t' = RoseArchTarget.status t
  ∧ (keyed (RoseArchTarget.sources t) → keyed (RoseArchTarget.sources t'))
  ∧ (RoseArchTarget.sources t ≠ ∅ → RoseArchTarget.sources t' ≠ ∅).
Proof.
  unfold add_checksums. revert t. induction l as [|[p c] l IH]; intros t; simpl.
  - by repeat split.
  - destruct c as [c|]; simpl; [|apply IH].
    match goal with |- context [foldl _ ?t0 l] => specialize (IH t0) end.
    simpl in IH. destruct IH as ([Hn Hrc] & Hst & Hk & Hne).
    repeat split; try done.
    + intros Hkt. apply Hk. intros k s.
      destruct (decide (c = k)) as [->|Hck].
      * rewrite lookup_insert_eq. intros [= <-]. by destruct (String.eqb p "").
      * rewrite lookup_insert_ne by done. apply Hkt.
    + intros _. apply Hne. apply insert_non_empty.
Qed.

Lemma add_paths_spec w update_check source_prefix t paths :
  let t' := add_paths w update_check source_prefix t paths in
  same_core t t'
  ∧ RoseArchTarget.status t' = RoseArchTarget.status t
  ∧ (keyed (RoseArchTarget.sources t) → keyed (RoseArchTarget.sources t'))
  ∧ (RoseArchTarget.sources t ≠ ∅ → RoseArchTarget.sources t' ≠ ∅).
Proof.
  unfold add_paths. revert t. induction paths as [|p paths IH]; intros t; simpl.
  - by repeat split.
  - match goal with |- context [foldl _ ?t0 paths] => specialize (IH t0) end.
    simpl in IH. destruct IH as ([Hn Hrc] & Hst & Hk & Hne).
    destruct (add_checksums_spec (drop_prefix (String.length source_prefix) p) p t
                (w_get_checksum w update_check p)) as ([Hn' Hrc'] & Hst' & Hk' & Hne').
    repeat split; try congruence; auto.
Qed.

(** One pattern: the status is either kept or becomes BAD, and it
    becomes BAD exactly for an unmatched pattern that is compulsory. *)
Lemma source_step_spec w t_key update_check source_prefix c t g :
  let t' := (source_step w t_key update_check source_prefix c t g).2 in
  same_core t t'
  ∧ (keyed (RoseArchTarget.sources t) → keyed (RoseArchTarget.sources t'))
  ∧ (RoseArchTarget.sources t ≠ ∅ → RoseArchTarget.sources t' ≠ ∅)
  ∧ (RoseArchTarget.status t = Some ST_BAD → RoseArchTarget.status t' = Some ST_BAD)
  ∧ (RoseArchTarget.status t' = RoseArchTarget.status t
     ∨ RoseArchTarget.status t' = Some ST_BAD).
Proof.
  unfold source_step.
  destruct (w_glob w _) as [|p paths] eqn:Hg; cbn [snd].
  - destruct (if parenthesised g then false else c); simpl;
      repeat split; auto.
  - destruct (add_paths_spec w update_check source_prefix t (p :: paths))
      as (Hc & Hst & Hk & Hne).
    repeat split; try apply Hc; auto; try congruence.
Qed.

Lemma source_loop_spec w t_key update_check source_prefix c t globs :
  let t' := (source_loop w t_key update_check source_prefix c t globs).2 in
  same_core t t'
  ∧ (keyed (RoseArchTarget.sources t) → keyed (RoseArchTarget.sources t'))
  ∧ (RoseArchTarget.sources t ≠ ∅ → RoseArchTarget.sources t' ≠ ∅)
  ∧ (RoseArchTarget.status t = Some ST_BAD → RoseArchTarget.status t' = Some ST_BAD)
  ∧ (RoseArchTarget.status t' = RoseArchTarget.status t
     ∨ RoseArchTarget.status t' = Some ST_BAD).
Proof.
  revert t. induction globs as [|g globs IH]; intros t; simpl.
  - repeat split; auto.
  - pose proof (source_step_spec w t_key update_check source_prefix c t g) as Hs.
    destruct (source_step _ _ _ _ _ t g) as [ev1 t1]. simpl in Hs.
    specialize (IH t1).
    destruct (source_loop _ _ _ _ _ t1 globs) as [ev2 t2]. simpl in *.
    destruct Hs as ([Hn1 Hrc1] & Hk1 & Hne1 & Hb1 & Hs1).
    destruct IH as ([Hn2 Hrc2] & Hk2 & Hne2 & Hb2 & Hs2).
    repeat split; try congruence; auto.
    destruct Hs2 as [Hs2|Hs2]; [|by right].
    destruct Hs1 as [Hs1|Hs1]; [left|right]; congruence.
Qed.

Lemma zero_source_check_spec c t :
  let t' := zero_source_check c t in
  same_core t t'
  ∧ RoseArchTarget.sources t' = RoseArchTarget.sources t
  ∧ (RoseArchTarget.sources t = ∅ →
     RoseArchTarget.status t' = Some (if c then ST_BAD else ST_NULL))
  ∧ (RoseArchTarget.sources t ≠ ∅ → t' = t).
Proof.
  unfold zero_source_check. case_bool_decide as He; simpl; by repeat split.
Qed.

(** The compression scheme: the status becomes BAD exactly when a scheme
    is given and is not known. *)
Lemma resolve_compress_spec w t_key compress t ev t' :
  resolve_compress w t_key compress t = (ev, inr t') →
  same_core t t'
  ∧ RoseArchTarget.sources t' = RoseArchTarget.sources t
  ∧ RoseArchTarget.status t'
    = if truthy compress && negb (w_get_handler w (default "" compress))
      then Some ST_BAD else RoseArchTarget.status t.
Proof.
  unfold resolve_compress. destruct (truthy compress); simpl.
  - destruct (w_get_handler w _); simpl; intros [= _ <-]; by repeat split.
  - destruct (split_first _ _) as [[h tail]|]; [destruct (w_get_handler w tail)|];
      simpl; intros [= _ <-]; by repeat split.
Qed.

Lemma rename_list_spec w n fmt parser l l' :
  rename_list w n fmt parser l = inr l' →
  Forall2 (λ x y, x.1 = y.1
                  ∧ RoseArchSource.checksum y.2 = RoseArchSource.checksum x.2) l l'.
Proof.
  revert l'. induction l as [|[k s] l IH]; intros l'; simpl.
  - intros [= <-]. constructor.
  - destruct (rename_source w n fmt parser s) as [e|s'] eqn:Hs; [done|].
    destruct (rename_list w n fmt parser l) as [e|r]; [done|].
    intros [= <-]. constructor; [|by apply IH].
    simpl. split; [done|]. unfold rename_source in Hs.
    destruct (format _ _); try done. by injection Hs as <-.
Qed.

(** The rename step keeps the keys of [sources] and the checksum of
    every source. *)
Lemma rename_sources_spec w config t_node t t' :
  rename_sources w config t_node t = inr t' →
  same_core t t'
  ∧ RoseArchTarget.status t' = RoseArchTarget.status t
  ∧ (keyed (RoseArchTarget.sources t) → keyed (RoseArchTarget.sources t'))
  ∧ (RoseArchTarget.sources t' = ∅ → RoseArchTarget.sources t = ∅).
Proof.
  unfold rename_sources.
  destruct (_get_conf w config t_node "rename-format" false None) as [e|rf]; [done|].
  destruct (truthy rf).
  2:{ intros [= <-]. by repeat split. }
  destruct (_get_conf w config t_node "rename-parser" false None) as [e|rp]; [done|].
  match goal with |- context [match ?c with inl _ => _ | inr _ => _ end] =>
    destruct c as [e|parser] end; [done|].
  destruct (rename_list _ _ _ _ _) as [e|l'] eqn:Hl; [done|].
  intros [= <-]. apply rename_list_spec in Hl. simpl.
  split; [by split|]. split; [done|]. split.
  - intros Hk k s' Hs'. apply elem_of_list_to_map_2 in Hs'.
    apply list_elem_of_lookup in Hs' as [i Hi].
    destruct (Forall2_lookup_r _ _ _ _ _ Hl Hi) as ([k0 s0] & Hi0 & Hk0 & Hc).
    simpl in *. subst k0. rewrite Hc. apply Hk.
    apply elem_of_map_to_list. by eapply list_elem_of_lookup_2.
  - intros He. destruct l' as [|[k s'] l'].
    + apply Forall2_nil_inv_r in Hl. by apply map_to_list_empty_iff.
    + simpl in He. by apply insert_non_empty in He.
Qed.

(** What a successful set-up went through. *)
Lemma setup_inv w config t_key s_key_tail t_node c ev t :
  _run_target_setup w config t_key s_key_tail t_node c = (ev, inr t) →
  ∃ t0 update_check source_prefix source globs compress ev2 t3,
    RoseArchTarget.command_rc t0 = 0%Z
    ∧ RoseArchTarget.sources t0 = ∅
    ∧ (RoseArchTarget.status t0 = None ∨ RoseArchTarget.status t0 = Some ST_BAD)
    ∧ _get_conf w config t_node "update-check" false None = inr update_check
    ∧ _get_conf w config t_node "source-prefix" false (Some "") = inr source_prefix
    ∧ _get_conf w config t_node "source" true None = inr source
    ∧ w_shlex_split w (default "" source) = Some globs
    ∧ _get_conf w config t_node "compress" false None = inr compress
    ∧ resolve_compress w t_key compress
        (zero_source_check c
           (source_loop w t_key update_check (default "" source_prefix) c t0 globs).2)
      = (ev2, inr t3)
    ∧ rename_sources w config t_node t3 = inr t.
Proof.
  unfold _run_target_setup. intros H.
  apply bindW_inr in H as (? & target_prefix & ? & _ & H & _).
  apply bindW_inr in H as (? & command_format & ? & _ & H & _).
  apply bindW_inr in H as (? & ta & ? & Ha & H & _).
  apply bindW_inr in H as (? & source_edit_format & ? & _ & H & _).
  apply bindW_inr in H as (? & tb & ? & Hb & H & _).
  apply bindW_inr in H as (? & update_check & ? & [Hu _]%liftW_inr & H & _).
  destruct (negb (w_get_checksum_func w update_check)); [done|].
  apply bindW_inr in H as (? & source_prefix & ? & [Hp _]%liftW_inr & H & _).
  apply bindW_inr in H as (? & source & ? & [Hs _]%liftW_inr & H & _).
  destruct (w_shlex_split w (default "" source)) as [globs|] eqn:Hg; [|done].
  apply bindW_inr in H as (? & tc & ? & Hc & H & _).
  apply bindW_inr in H as (? & compress & ? & [Hz _]%liftW_inr & H & _).
  apply bindW_inr in H as (ev2 & t3 & ? & Hr & H & _).
  apply liftW_inr in H as [H _].
  exists tb, update_check, source_prefix, source, globs, compress, ev2, t3.
  assert (RoseArchTarget.command_rc tb = 0%Z ∧ RoseArchTarget.sources tb = ∅
          ∧ (RoseArchTarget.status tb = None
             ∨ RoseArchTarget.status tb = Some ST_BAD))
    as (Hrc0 & Hsrc0 & Hst0).
  { apply check_format_inr in Ha, Hb.
    destruct Hb as [->| ->]; destruct Ha as [->| ->]; simpl; auto. }
  assert (tc = (source_loop w t_key update_check (default "" source_prefix) c
                  tb globs).2) as <-.
  { destruct (source_loop _ _ _ _ _ tb globs) as [evs ts]. by injection Hc as _ <-. }
  by repeat split.
Qed.

(** Every target that leaves the set-up is fresh. *)
Lemma setup_fresh w config t_key s_key_tail t_node c ev t :
  _run_target_setup w config t_key s_key_tail t_node c = (ev, inr t) → fresh t.
Proof.
  intros Hsetup.
  apply setup_inv in Hsetup
    as (t0 & uc & sp & src & gl & compress & ev2 & t3 & Hrc0 & Hsrc0 & Hst0 & _ & _
        & _ & _ & _ & Hc & Hr).
  destruct (source_loop_spec w t_key uc (default "" sp) c t0 gl)
    as ([_ Hrc1] & Hk1 & _ & _ & Hst1).
  set (t1 := (source_loop _ _ _ _ _ t0 gl).2) in *.
  destruct (zero_source_check_spec c t1) as ([_ Hrc2] & Hsrc2 & Hz0 & Hz1).
  apply resolve_compress_spec in Hc as ([_ Hrc3] & Hsrc3 & Hst3).
  apply rename_sources_spec in Hr as ([_ Hrc4] & Hst4 & Hk4 & _).
  split; [congruence|]. split.
  - apply Hk4. rewrite Hsrc3, Hsrc2. apply Hk1. rewrite Hsrc0. intros k s.
    by rewrite lookup_empty.
  - rewrite Hst4, Hst3. destruct (_ && _); [auto|].
    destruct (decide (RoseArchTarget.sources t1 = ∅)) as [He|He].
    + rewrite (Hz0 He). destruct c; auto.
    + rewrite (Hz1 He). destruct Hst1 as [->| ->]; [|auto].
      destruct Hst0 as [->| ->]; auto.
Qed.

Lemma bindW_reports {A B} (m : W A) (f : A → W B) :
  reports m → (∀ a, reports (f a)) → reports (bindW m f).
Proof.
  unfold reports, bindW. destruct m as [l [e|a]]; [done|].
  intros Hm Hf. specialize (Hf a). destruct (f a) as [l' r]. simpl in *.
  by apply Forall_app.
Qed.

Lemma liftW_reports {A} (r : PyExc + A) : reports (liftW r).
Proof. constructor. Qed.

Lemma check_format_reports what fmt keys t : reports (check_format what fmt keys t).
Proof.
  unfold check_format, reports. destruct fmt as [f|]; [|constructor].
  destruct (format f keys); simpl; repeat constructor.
Qed.

Lemma source_loop_reports w t_key uc sp c t globs :
  Forall is_report (source_loop w t_key uc sp c t globs).1.
Proof.
  revert t. induction globs as [|g globs IH]; intros t; simpl; [constructor|].
  destruct (source_step w t_key uc sp c t g) as [ev1 t1] eqn:Hs.
  specialize (IH t1). destruct (source_loop w t_key uc sp c t1 globs) as [ev2 t2].
  simpl in *. apply Forall_app. split; [|done].
  unfold source_step in Hs. destruct (w_glob w _); injection Hs as <- _;
    repeat constructor.
Qed.

Lemma resolve_compress_reports w t_key compress t :
  reports (resolve_compress w t_key compress t).
Proof.
  unfold resolve_compress, reports. destruct (negb (truthy compress)).
  - destruct (split_first _ _) as [[h tail]|]; [destruct (w_get_handler w tail)|];
      constructor.
  - destruct (w_get_handler w _); simpl; repeat constructor.
Qed.

Lemma setup_reports w config t_key s_key_tail t_node c :
  reports (_run_target_setup w config t_key s_key_tail t_node c).
Proof.
  unfold _run_target_setup.
  apply bindW_reports; [apply liftW_reports|intros target_prefix].
  apply bindW_reports; [apply liftW_reports|intros command_format].
  apply bindW_reports; [apply check_format_reports|intros ta].
  apply bindW_reports; [apply liftW_reports|intros source_edit_format].
  apply bindW_reports; [apply check_format_reports|intros tb].
  apply bindW_reports; [apply liftW_reports|intros update_check].
  destruct (negb _); [constructor|].
  apply bindW_reports; [apply liftW_reports|intros source_prefix].
  apply bindW_reports; [apply liftW_reports|intros source].
  destruct (w_shlex_split w _) as [globs|]; [|constructor].
  apply bindW_reports.
  { pose proof (source_loop_reports w t_key update_check (default "" source_prefix)
                  c tb globs) as H.
    by destruct (source_loop _ _ _ _ _ tb globs). }
  intros tc.
  apply bindW_reports; [apply liftW_reports|intros compress].
  apply bindW_reports; [apply resolve_compress_reports|intros t3].
  apply liftW_reports.
Qed.

End SetupFacts.

(** ** rose_arch: source patterns and targets without sources *)

Module ResolveFacts.
Import PyStr Arch Notions Examples UpdateFacts SetupFacts.

(** In the optional target [(out)] the pattern [b*] is not parenthesised
    and matches no file, yet the set-up leaves the status unset instead
    of BAD: a pattern of an optional target is never compulsory. *)
Lemma required_pattern_of_optional_target :
  parenthesised "b*" = false
  ∧ w_glob w_one "b*" = []
  ∧ w_shlex_split w_one "a* b*" = Some ["a*"; "b*"]
  ∧ resolved_status
      (_run_target_setup w_one conf_two_patterns "arch:(out)" "out"
         node_two_patterns false)
    = Some (None, 1%nat).
Proof. repeat split; vm_compute; reflexivity. Qed.

Lemma source_loop_unmatched w t_key update_check source_prefix t globs g :
  g ∈ globs → parenthesised g = false → w_glob w (source_prefix ++ g) = [] →
  RoseArchTarget.status
    (source_loop w t_key update_check source_prefix true t globs).2 = Some ST_BAD.
Proof.
  intros Hin Hp Hg. revert t. induction globs as [|g' globs IH]; intros t.
  { by apply elem_of_nil in Hin. }
  simpl.
  pose proof (source_step_spec w t_key update_check source_prefix true t g') as Hs.
  destruct (source_step _ _ _ _ _ t g') as [ev1 t1] eqn:Hstep. simpl in Hs.
  pose proof (source_loop_spec w t_key update_check source_prefix true t1 globs) as Hl.
  destruct (source_loop _ _ _ _ _ t1 globs) as [ev2 t2] eqn:Hloop. simpl in *.
  apply elem_of_cons in Hin as [<-|Hin].
  - destruct Hl as (_ & _ & _ & Hb & _). apply Hb.
    unfold source_step in Hstep. rewrite Hp, Hg in Hstep.
    by injection Hstep as _ <-.
  - specialize (IH Hin t1). by rewrite Hloop in IH.
Qed.

(** C5 (amended). A pattern of the [source] option that matches no file
    changes the target only through its status: a parenthesised pattern
    leaves the target as it is, and so does an unwrapped pattern of an
    optional target (parenthesised target name); an unwrapped pattern of a
    compulsory target sets the status to BAD, and the target then
    leaves the set-up with status BAD. *)
Theorem unmatched_pattern_status :
  (∀ (w : World) (t_key : string) (update_check : option string)
     (source_prefix : string) (is_compulsory_target : bool) (target : Target)
     (source_glob : string),
     w_glob w (source_prefix
               ++ if parenthesised source_glob
                  then slice_1_m1 source_glob else source_glob) = [] →
     (source_step w t_key update_check source_prefix is_compulsory_target
        target source_glob).2
     = if negb (parenthesised source_glob) && is_compulsory_target
       then RoseArchTarget.set_status target (Some ST_BAD)
       else target)
  ∧ (∀ (w : World) (config : gmap string ConfigNode) (t_key s_key_tail : string)
       (t_node : ConfigNode) (ev : list Action) (t : Target)
       (source source_prefix : option string) (globs : list string) (g : string),
       _run_target_setup w config t_key s_key_tail t_node true = (ev, inr t) →
       _get_conf w config t_node "source" true None = inr source →
       w_shlex_split w (default "" source) = Some globs →
       _get_conf w config t_node "source-prefix" false (Some "") = inr source_prefix →
       g ∈ globs → parenthesised g = false →
       w_glob w (default "" source_prefix ++ g) = [] →
       RoseArchTarget.status t = Some ST_BAD).
Proof.
  split.
  - intros w t_key update_check source_prefix c target g Hg.
    unfold source_step. rewrite Hg. simpl.
    by destruct (parenthesised g), c.
  - intros w config t_key s_key_tail t_node ev t source source_prefix globs g
      Hsetup Hsrc Hsplit Hpre Hin Hp Hg.
    apply setup_inv in Hsetup
      as (t0 & uc & sp & src & gl & compress & ev2 & t3 & _ & _ & _ & _ & Hpre'
          & Hsrc' & Hsplit' & _ & Hc & Hr).
    rewrite Hpre in Hpre'. injection Hpre' as <-.
    rewrite Hsrc in Hsrc'. injection Hsrc' as <-.
    rewrite Hsplit in Hsplit'. injection Hsplit' as <-.
    pose proof (source_loop_unmatched w t_key uc (default "" source_prefix) t0
                  globs g Hin Hp Hg) as Hbad.
    set (t1 := (source_loop _ _ _ _ _ t0 globs).2) in *.
    destruct (zero_source_check_spec true t1) as (_ & _ & Hz0 & Hz1).
    assert (RoseArchTarget.status (zero_source_check true t1) = Some ST_BAD) as Hz.
    { destruct (decide (RoseArchTarget.sources t1 = ∅)) as [He|He].
      - by apply Hz0.
      - by rewrite Hz1. }
    apply resolve_compress_spec in Hc as (_ & _ & Hcs).
    apply rename_sources_spec in Hr as (_ & Hrs & _).
    rewrite Hrs, Hcs, Hz. by destruct (_ && _).
Qed.

Lemma unmatched_pattern_status_witness :
  (w_glob w_empty ("" ++ "data/*.txt") = []
   ∧ (source_step w_empty "arch:out.txt" None "" true (RoseArchTarget.__init__ "out.txt")
        "data/*.txt").2
     = RoseArchTarget.set_status (RoseArchTarget.__init__ "out.txt") (Some ST_BAD))
  ∧ (_run_target_setup w_one conf_two_patterns "arch:out" "out" node_two_patterns true
     = ((_run_target_setup w_one conf_two_patterns "arch:out" "out"
           node_two_patterns true).1,
        inr (RoseArchTarget.set_status t_one (Some ST_BAD)))
     ∧ RoseArchTarget.status (RoseArchTarget.set_status t_one (Some ST_BAD))
       = Some ST_BAD).
Proof.
  split.
  - split; [reflexivity|].
    apply (proj1 unmatched_pattern_status w_empty "arch:out.txt" None "" true
             (RoseArchTarget.__init__ "out.txt") "data/*.txt").
    reflexivity.
  - split; [vm_compute; reflexivity|].
    apply (proj2 unmatched_pattern_status w_one conf_two_patterns "arch:out" "out"
             node_two_patterns
             (_run_target_setup w_one conf_two_patterns "arch:out" "out"
                node_two_patterns true).1
             (RoseArchTarget.set_status t_one (Some ST_BAD))
             (Some "a* b*") (Some "") ["a*"; "b*"] "b*");
      try (vm_compute; reflexivity).
    set_solver.
Defined.

(** The optional target [(out.txt)] has no source, but its explicit
    compression scheme [zip] is unknown: it leaves the set-up BAD, not
    NULL. *)
Lemma optional_empty_target_bad :
  w_glob w_empty "data/*.txt" = []
  ∧ w_get_handler w_empty "zip" = false
  ∧ resolved_status
      (_run_target_setup w_empty conf_zip "arch:(out.txt)" "out.txt" node_zip false)
    = Some (Some ST_BAD, 0%nat)
  ∧ final_statuses (_run_targets w_empty conf_zip (st0 empty_db)) = Some [Some ST_BAD].
Proof. repeat split; vm_compute; reflexivity. Qed.

(** C6 (amended). A target that leaves the set-up without sources has
    status BAD when its name was compulsory; when its name was optional
    it has status NULL, unless a compression scheme is configured for it
    and is unknown, in which case it is BAD.  For a target resolved as BAD
    or NULL the update step only reports: the cache is unchanged (no
    provisional row), no command is run, and the step returns. *)
Theorem zero_source_outcome :
  (∀ (w : World) (config : gmap string ConfigNode) (t_key s_key_tail : string)
     (t_node : ConfigNode) (is_compulsory_target : bool) (ev : list Action)
     (t : Target) (compress : option string),
     _run_target_setup w config t_key s_key_tail t_node is_compulsory_target
     = (ev, inr t) →
     RoseArchTarget.sources t = ∅ →
     _get_conf w config t_node "compress" false None = inr compress →
     RoseArchTarget.status t
     = Some (if is_compulsory_target then ST_BAD
             else if truthy compress && negb (w_get_handler w (default "" compress))
                  then ST_BAD else ST_NULL))
  ∧ (∀ (w : World) (target : Target) (st : State),
       status_in_bad_null target = true →
       st_db (_run_target_update w target st).1 = st_db st
       ∧ (∃ t', (_run_target_update w target st).2 = inr t'
                ∧ RoseArchTarget.status t' = RoseArchTarget.status target)
       ∧ ∃ l, extends st (_run_target_update w target st).1 l ∧ Forall is_report l).
Proof.
  split.
  - intros w config t_key s_key_tail t_node c ev t compress Hsetup Hempty Hcomp.
    apply setup_inv in Hsetup
      as (t0 & uc & sp & src & gl & compress' & ev2 & t3 & _ & _ & _ & _ & _ & _ & _
          & Hcomp' & Hc & Hr).
    rewrite Hcomp in Hcomp'. injection Hcomp' as <-.
    set (t1 := (source_loop _ _ _ _ _ t0 gl).2) in *.
    apply rename_sources_spec in Hr as (_ & Hrs & _ & Hre).
    apply resolve_compress_spec in Hc as (_ & Hcsrc & Hcs).
    destruct (zero_source_check_spec c t1) as (_ & Hzsrc & Hz0 & _).
    rewrite Hrs, Hcs, Hz0.
    + by destruct c, (_ && _).
    + rewrite <- Hzsrc, <- Hcsrc. by apply Hre.
  - intros w target st Hb.
    destruct (update_bad_null w target st Hb) as (rc & level & ->). simpl.
    split; [done|]. split; [by eexists|].
    eexists [_; _]. split.
    + unfold extends. simpl. by rewrite <- app_assoc.
    + by repeat constructor.
Qed.

Lemma zero_source_outcome_witness :
  (_run_target_setup w_empty conf_opt "arch:(out.txt)" "out.txt"
     (node [("source", "data/*.txt");
            ("command-format", "cp %(sources)s %(target)s")]) false
   = ((_run_target_setup w_empty conf_opt "arch:(out.txt)" "out.txt"
         (node [("source", "data/*.txt");
                ("command-format", "cp %(sources)s %(target)s")]) false).1,
      inr (RoseArchTarget.mk "out.txt" None (Some "cp %(sources)s %(target)s") 0 ∅
             (Some "") (Some ST_NULL) None))
   ∧ RoseArchTarget.status
       (RoseArchTarget.mk "out.txt" None (Some "cp %(sources)s %(target)s") 0 ∅
          (Some "") (Some ST_NULL) None)
     = Some ST_NULL)
  ∧ (status_in_bad_null (RoseArchTarget.set_status t_one (Some ST_BAD)) = true
     ∧ st_db (_run_target_update w_one (RoseArchTarget.set_status t_one (Some ST_BAD))
                (st0 db_stale)).1
       = db_stale).
Proof.
  split.
  - split; [vm_compute; reflexivity|].
    apply (proj1 zero_source_outcome w_empty conf_opt "arch:(out.txt)" "out.txt"
             (node [("source", "data/*.txt");
                    ("command-format", "cp %(sources)s %(target)s")]) false
             (_run_target_setup w_empty conf_opt "arch:(out.txt)" "out.txt"
                (node [("source", "data/*.txt");
                       ("command-format", "cp %(sources)s %(target)s")]) false).1
             _ None); vm_compute; reflexivity.
  - split; [reflexivity|].
    apply (proj2 zero_source_outcome w_one
             (RoseArchTarget.set_status t_one (Some ST_BAD)) (st0 db_stale)).
    reflexivity.
Defined.

End ResolveFacts.

(** ** rose_arch: equality of targets and change detection *)

Module EqFacts.
Import PyStr Arch Notions Examples UpdateFacts DaoFacts.

Lemma source_eqb_spec s s' : RoseArchSource.__eq__ s s' = true ↔ same_source s s'.
Proof.
  unfold RoseArchSource.__eq__, same_source.
  by rewrite andb_true_iff, !String.eqb_eq.
Qed.

Lemma opt_str_eqb_spec a b : opt_str_eqb a b = true ↔ a = b.
Proof.
  destruct a as [x|], b as [y|]; simpl; try (split; done).
  rewrite String.eqb_eq. split; congruence.
Qed.

Lemma sources_eqb_spec (a b : gmap string Source) :
  sources_eqb a b = true ↔ same_sources a b.
Proof.
  unfold sources_eqb, same_sources.
  rewrite andb_true_iff, Nat.eqb_eq, forallb_forall. split.
  - intros [Hsize Hall].
    assert (Hsub : dom a ⊆ dom b).
    { intros k [s Hs]%elem_of_dom. apply elem_of_map_to_list in Hs.
      apply list_elem_of_In, Hall in Hs. simpl in Hs.
      apply elem_of_dom. destruct (b !! k); [by eexists|done]. }
    assert (Hdom : dom a = dom b).
    { apply set_subseteq_size_eq; [done|]. rewrite !size_dom. lia. }
    intros k. destruct (a !! k) as [s|] eqn:Ha.
    + apply elem_of_map_to_list, list_elem_of_In, Hall in Ha. simpl in Ha.
      destruct (b !! k); [by apply source_eqb_spec|done].
    + apply not_elem_of_dom in Ha. rewrite Hdom in Ha.
      apply not_elem_of_dom in Ha. by rewrite Ha.
  - intros H. split.
    + rewrite <- !size_dom. f_equal. apply set_eq. intros k.
      rewrite !elem_of_dom. specialize (H k).
      destruct (a !! k), (b !! k); try done; split; by eauto.
    + intros [k s] Hin%list_elem_of_In%elem_of_map_to_list. simpl.
      specialize (H k). rewrite Hin in H.
      destruct (b !! k); [by apply source_eqb_spec|done].
Qed.

(** [RoseArchTarget.__eq__] accepts two targets of the same name exactly
    when none of the compared values differs. *)
Lemma target_eqb_spec old t :
  RoseArchTarget.name old = RoseArchTarget.name t →
  RoseArchTarget.__eq__ old t = true ↔ ¬ differs old t.
Proof.
  intros Hn. unfold RoseArchTarget.__eq__, differs.
  rewrite !andb_true_iff, !opt_str_eqb_spec, String.eqb_eq, Z.eqb_eq,
    sources_eqb_spec.
  split.
  - intros (((((_ & H1) & H2) & H3) & H4) & H5) [?|[?|[?|[?|?]]]]; done.
  - intros H.
    destruct (decide (RoseArchTarget.compress_scheme old
                      = RoseArchTarget.compress_scheme t)); [|tauto].
    destruct (decide (RoseArchTarget.command_format old
                      = RoseArchTarget.command_format t)); [|tauto].
    destruct (decide (RoseArchTarget.command_rc old
                      = RoseArchTarget.command_rc t)); [|tauto].
    destruct (decide (RoseArchTarget.source_edit_format old
                      = RoseArchTarget.source_edit_format t)); [|tauto].
    destruct (sources_eqb (RoseArchTarget.sources old) (RoseArchTarget.sources t))
      eqn:He.
    + apply sources_eqb_spec in He. tauto.
    + exfalso. apply H. right; right; right; left.
      intros Hs%sources_eqb_spec. congruence.
Qed.

Lemma select_name db n old :
  RoseArchDAO.select db n = Some old → RoseArchTarget.name old = n.
Proof.
  unfold RoseArchDAO.select. destruct (filter _ _); [done|]. by intros [= <-].
Qed.

(** The compulsory target [out.txt] now matches no file and is resolved
    BAD; the cache holds it with one source, so the source sets differ and
    the rows of the name are purged - but the update step runs no archive
    command for it. *)
Lemma changed_bad_target_not_executed :
  _run_target_setup w_empty conf_comp "arch:out.txt" "out.txt"
    (node [("source", "data/*.txt");
           ("command-format", "cp %(sources)s %(target)s")]) true
  = ([AEvent (EvConfigValueError ["arch:out.txt"; "source"] "data/*.txt")],
     inr t_bad)
  ∧ (∃ old, RoseArchDAO.select db_prev "out.txt" = Some old
            ∧ size (RoseArchTarget.sources old) = 1%nat
            ∧ size (RoseArchTarget.sources t_bad) = 0%nat
            ∧ RoseArchTarget.__ne__ old t_bad = true)
  ∧ st_db (diff_step t_bad (st0 db_prev)).1 = empty_db
  ∧ commands
      (st_trace (_run_target_update w_empty (diff_step t_bad (st0 db_prev)).2
                   (diff_step t_bad (st0 db_prev)).1).1) = []
  ∧ commands (st_trace (_run_targets w_empty conf_comp (st0 db_prev)).1) = []
  ∧ final_statuses (_run_targets w_empty conf_comp (st0 db_prev)) = Some [Some ST_BAD].
Proof.
  split; [vm_compute; reflexivity|]. split.
  { eexists. split; [vm_compute; reflexivity|]. repeat split; vm_compute; reflexivity. }
  repeat split; vm_compute; reflexivity.
Qed.

(** C2 (amended). Let T be a resolved target with a same-named cached
    entry.  The rows of its name are purged if and only if at least one
    of command_format, source_edit_format, compress_scheme, command_rc or
    the source set (compared by checksum and possibly renamed name)
    differs from the cached value.  After the purge the update step
    re-inserts T and runs the archive command when T was resolved neither
    BAD nor NULL (unless an exception of the edit or compression stage ends
    the step first); a T resolved BAD or NULL is purged but only
    reported.  If none differs, T is marked OLD, the cache is left as it
    is and the update step only reports. *)
Theorem change_detection (w : World) (t old : Target) (st : State) :
  RoseArchDAO.select (st_db st) (RoseArchTarget.name t) = Some old →
  (differs old t →
     diff_step t st
     = (with_db (RoseArchDAO.delete (st_db st) t) (ADbDelete (RoseArchTarget.name t)) st,
        t)
     ∧ no_rows (st_db (diff_step t st).1) (RoseArchTarget.name t)
     ∧ (status_in_bad_null t = true →
        st_db (_run_target_update w t (diff_step t st).1).1
        = st_db (diff_step t st).1
        ∧ ∃ l, extends (diff_step t st).1
                 (_run_target_update w t (diff_step t st).1).1 l
               ∧ Forall is_report l)
     ∧ (pending t →
        ∃ tail,
          extends (diff_step t st).1 (_run_target_update w t (diff_step t st).1).1
            (ADbInsert
               (RoseArchDAO.target_row (RoseArchTarget.set_command_rc t 1))
               (RoseArchDAO.source_rows t) :: tail)
          ∧ ((∃ e, (_run_target_update w t (diff_step t st).1).2 = inl e
                   ∧ Forall quiet tail)
             ∨ (∃ t' command,
                  (_run_target_update w t (diff_step t st).1).2 = inr t'
                  ∧ ARun command ∈ tail))))
  ∧ (¬ differs old t →
     diff_step t st = (st, RoseArchTarget.set_status t (Some ST_OLD))
     ∧ _run_target_update w (diff_step t st).2 (diff_step t st).1
       = (emit (AEvent (RoseArchEvent
                          (RoseArchTarget.set_status t (Some ST_OLD)) None)) st,
          inr (RoseArchTarget.set_status t (Some ST_OLD)))).
Proof.
  intros Hsel.
  pose proof (target_eqb_spec old t (select_name _ _ _ Hsel)) as Heq.
  split.
  - intros Hd.
    assert (Hstep : diff_step t st
              = (with_db (RoseArchDAO.delete (st_db st) t)
                   (ADbDelete (RoseArchTarget.name t)) st, t)).
    { unfold diff_step. rewrite Hsel. unfold RoseArchTarget.__ne__.
      destruct (RoseArchTarget.__eq__ old t); [|done]. by destruct (proj1 Heq). }
    rewrite Hstep. cbn [fst snd]. split; [done|].
    assert (Hno : no_rows (st_db (with_db (RoseArchDAO.delete (st_db st) t)
                                    (ADbDelete (RoseArchTarget.name t)) st))
                    (RoseArchTarget.name t)) by apply delete_no_rows.
    set (st1 := with_db _ _ st) in *.
    split; [done|]. split.
    + intros Hb.
      destruct (update_bad_null w t st1 Hb) as (rc & level & ->). cbn [fst snd].
      split; [done|]. eexists [_; _]. split.
      * unfold extends. simpl. by rewrite <- !app_assoc.
      * by repeat constructor.
    + intros Hp.
      pose proof (insert_fresh _ (RoseArchTarget.set_command_rc t 1) Hno) as Hi.
      destruct (update_pending_spec w t st1 _ Hp Hi) as (tail & He & Hr).
      exists tail. split; [exact He|].
      destruct Hr as [(e & Hr & _ & Hq)
                     |(t' & c & _ & _ & tr1 & tr2 & Hr & _ & _ & _ & _ & -> & _)].
      * left. by exists e.
      * right. exists t', c. split; [done|]. apply elem_of_app. right. by left.
  - intros Hd. apply Heq in Hd.
    assert (Hstep : diff_step t st = (st, RoseArchTarget.set_status t (Some ST_OLD))).
    { unfold diff_step. rewrite Hsel. unfold RoseArchTarget.__ne__. by rewrite Hd. }
    rewrite Hstep. split; [done|]. cbn [fst snd]. by apply update_old.
Qed.

Lemma change_detection_witness :
  RoseArchDAO.select (st_db (st0 db_one)) (RoseArchTarget.name t_one)
  = Some (RoseArchTarget.mk "out" None (Some "cp %(sources)s %(target)s") 0
            {[ "c1" := RoseArchSource.__init__ "c1" "a1" None ]} (Some "") None None)
  ∧ ¬ differs (RoseArchTarget.mk "out" None (Some "cp %(sources)s %(target)s") 0
                 {[ "c1" := RoseArchSource.__init__ "c1" "a1" None ]} (Some "") None None)
        t_one
  ∧ diff_step t_one (st0 db_one)
    = (st0 db_one, RoseArchTarget.set_status t_one (Some ST_OLD)).
Proof.
  assert (Hsel : RoseArchDAO.select (st_db (st0 db_one)) (RoseArchTarget.name t_one)
                 = Some (RoseArchTarget.mk "out" None
                           (Some "cp %(sources)s %(target)s") 0
                           {[ "c1" := RoseArchSource.__init__ "c1" "a1" None ]}
                           (Some "") None None))
    by (vm_compute; reflexivity).
  assert (Hnd : ¬ differs (RoseArchTarget.mk "out" None
                             (Some "cp %(sources)s %(target)s") 0
                             {[ "c1" := RoseArchSource.__init__ "c1" "a1" None ]}
                             (Some "") None None) t_one).
  { apply target_eqb_spec; [reflexivity|]. vm_compute; reflexivity. }
  split; [exact Hsel|]. split; [exact Hnd|].
  apply (proj2 (change_detection w_one t_one _ (st0 db_one) Hsel) Hnd).
Defined.

End EqFacts.

(** ** rose_arch: duplicate target names *)

Module DuplicateFacts.
Import PyStr Arch Notions Examples.

(** Two entries with the same key after the colon are rejected while the
    targets are set up, before any command. *)
Example duplicate_key_rejected :
  (_run w_one conf_dup_key (st0 empty_db)).2
  = inl (RoseArchDuplicateError "arch:out" "out")
  ∧ commands (st_trace (_run w_one conf_dup_key (st0 empty_db)).1) = [].
Proof. split; vm_compute; reflexivity. Qed.

(** C4. The entries [arch:ab] and [arch:b] (the latter with
    [target-prefix=a]) both resolve to the target name [ab].  No
    [RoseArchDuplicateError] is raised: the test looks at the key after
    the colon, before the prefix is applied.  The run archives the first
    target and then fails on the second with the [IntegrityError] of the
    primary key of the cache. *)
Lemma duplicate_name_by_prefix_not_rejected :
  sorted_items conf_dup
  = [("arch:ab", node [("source", "a*");
                       ("command-format", "cp %(sources)s %(target)s")]);
     ("arch:b", node [("source", "a*"); ("target-prefix", "a");
                      ("command-format", "cp %(sources)s %(target)s")])]
  ∧ resolved_names (setup_loop w_one conf_dup (sorted_items conf_dup) ∅ []
                      (st0 empty_db))
    = Some ["ab"; "ab"]
  ∧ (_run w_one conf_dup (st0 empty_db)).2 = inl (IntegrityError "ab")
  ∧ commands (st_trace (_run w_one conf_dup (st0 empty_db)).1) = ["cp a1 ab"].
Proof. repeat split; vm_compute; reflexivity. Qed.

End DuplicateFacts.

(** ** rose_arch: a second run *)

Module SecondRun.
Import PyStr Arch Notions Examples UpdateFacts DaoFacts RunLemmas SetupFacts EqFacts.

(** The set-up loop is the cache-free loop followed by the comparisons. *)
Lemma setup_loop_resolve w config items tails acc st :
  setup_loop w config items tails acc st
  = let '(rs, x) := resolve_loop w config items tails in
    let '(st', ts) := diff_all rs st in
    match x with
    | None => (st', inr (acc ++ ts)%list)
    | Some (ev, e) => (emits ev st', inl e)
    end.
Proof.
  revert tails acc st. induction items as [|[t_key t_node] items IH];
    intros tails acc st; simpl.
  { by rewrite app_nil_r. }
  destruct (target_key t_key t_node) as [tail|]; [|apply IH].
  destruct (w_env_var_process w tail) as [tail'|]; simpl.
  2:{ unfold emits. simpl. rewrite app_nil_r. by destruct st. }
  case_bool_decide.
  { simpl. unfold emits. simpl. rewrite app_nil_r. by destruct st. }
  destruct (_run_target_setup _ _ _ _ _ _) as [ev [e|target]]; [done|].
  destruct (diff_step target (emits ev st)) as [st1 t] eqn:Hd.
  rewrite IH.
  destruct (resolve_loop w config items _) as [rs x]. simpl. rewrite Hd.
  destruct (diff_all rs st1) as [st2 ts].
  destruct x as [[ev' e]|]; [done|]. by rewrite <- app_assoc.
Qed.

(** One comparison: either the target is in the cache and is marked OLD,
    or the rows of its name are purged. *)
Lemma diff_step_cases r st :
  (hit (st_db st) r
   ∧ diff_step r st = (st, RoseArchTarget.set_status r (Some ST_OLD)))
  ∨ (¬ hit (st_db st) r
     ∧ diff_step r st
       = (with_db (RoseArchDAO.delete (st_db st) r)
            (ADbDelete (RoseArchTarget.name r)) st, r)).
Proof.
  unfold diff_step, hit, RoseArchTarget.__ne__.
  destruct (RoseArchDAO.select (st_db st) (RoseArchTarget.name r)) as [old|].
  - destruct (RoseArchTarget.__eq__ old r) eqn:He; simpl.
    + left. split; [by exists old|done].
    + right. split; [|done]. intros (old' & [= <-] & He'). congruence.
  - right. split; [|done]. by intros (old' & [=] & _).
Qed.



Lemma diff_step_name r st :
  RoseArchTarget.name (diff_step r st).2 = RoseArchTarget.name r.
Proof. by destruct (diff_step_cases r st) as [[_ ->]|[_ ->]]. Qed.

Lemma diff_all_names rs st :
  RoseArchTarget.name <$> (diff_all rs st).2 = RoseArchTarget.name <$> rs.*2.
Proof.
  revert st. induction rs as [|[ev r] rs IH]; intros st; cbn [diff_all]; [done|].
  pose proof (diff_step_name r (emits ev st)) as Hn.
  destruct (diff_step r (emits ev st)) as [st1 t].
  specialize (IH st1). destruct (diff_all rs st1) as [st2 ts].
  cbn [fst snd] in *. rewrite !fmap_cons. cbn [snd]. by rewrite Hn, IH.
Qed.



(** Inserting the pairs of a list without repeated keys, one after the
    other, gives the map of the list. *)
Lemma foldl_insert_list {A B} (f : string → A → B) (l : list (string * A))
    (m0 : gmap string B) :
  NoDup l.*1 →
  foldl (λ m kv, <[kv.1 := f kv.1 kv.2]> m) m0 l
  = list_to_map ((λ kv, (kv.1, f kv.1 kv.2)) <$> l) ∪ m0.
Proof.
  revert m0. induction l as [|[k a] l IH]; intros m0 Hnd; simpl.
  - by rewrite (left_id_L ∅ (∪)).
  - apply NoDup_cons in Hnd as [Hk Hnd]. rewrite IH by done.
    rewrite <- insert_union_l, <- insert_union_r; [done|].
    apply not_elem_of_list_to_map_1. rewrite <- list_fmap_compose.
    exact Hk.
Qed.

(** The sources that [select] rebuilds from the rows of a target. *)
Lemma select_sources_rows (t : Target) k :
  foldl (λ m r, <[sr_checksum r := RoseArchSource.__init__ (sr_checksum r)
                                     (sr_source_name r) None]> m)
        (∅ : gmap string Source) (RoseArchDAO.source_rows t) !! k
  = (λ s, RoseArchSource.__init__ k (RoseArchSource.name s) None)
      <$> RoseArchTarget.sources t !! k.
Proof.
  unfold RoseArchDAO.source_rows. rewrite foldl_fmap. cbn [sr_checksum sr_source_name].
  rewrite (foldl_insert_list
             (λ k s, RoseArchSource.__init__ k (RoseArchSource.name s) None))
    by apply NoDup_fst_map_to_list.
  rewrite (right_id_L ∅ (∪)).
  destruct (RoseArchTarget.sources t !! k) as [s|] eqn:Hs; simpl.
  - apply elem_of_list_to_map_1.
    + rewrite <- list_fmap_compose. apply (NoDup_fst_map_to_list (RoseArchTarget.sources t)).
    + apply list_elem_of_fmap. exists (k, s). split; [done|].
      by apply elem_of_map_to_list.
  - apply not_elem_of_list_to_map_1. rewrite <- list_fmap_compose.
    intros ([k' s] & Hk & Hin)%list_elem_of_fmap. simpl in Hk. subst k'.
    apply elem_of_map_to_list in Hin. congruence.
Qed.




Lemma update_rows_of_ne w t st n :
  n ≠ RoseArchTarget.name t →
  rows_of (st_db (_run_target_update w t st).1) n = rows_of (st_db st) n.
Proof.
  intros Hn.
  destruct (decide (RoseArchTarget.status t = Some ST_OLD)) as [Ho|Ho].
  { by rewrite update_old. }
  destruct (status_in_bad_null t) eqn:Hb.
  { by destruct (update_bad_null w t st Hb) as (rc & level & ->). }
  destruct (RoseArchDAO.insert (st_db st) (RoseArchTarget.set_command_rc t 1))
    as [db1|] eqn:Hi.
  2:{ by rewrite update_pending_conflict. }
  destruct (update_pending_spec w t st db1 (conj Ho Hb) Hi) as (tail & _ & Hr).
  pose proof (insert_rows_of_ne _ _ _ n Hi Hn) as Hins.
  destruct Hr as [(e & _ & -> & _)
                 |(t' & c & o & e & tr1 & tr2 & _ & Hn' & _ & _ & -> & _)];
    [done|].
  rewrite update_rc_rows_of_ne; [done|]. by rewrite Hn'.
Qed.





(** Sorting by name commutes with taking the names. *)
Lemma insert_sorted_fmap {A B} (f : A → B) (le : B → B → bool) x l :
  f <$> insert_sorted (λ a b, le (f a) (f b)) x l
  = insert_sorted le (f x) (f <$> l).
Proof.
  induction l as [|y l IH]; [done|].
  simpl. destruct (le (f y) (f x)); [|done]. by rewrite fmap_cons, IH.
Qed.

Lemma py_sorted_fmap {A B} (f : A → B) (le : B → B → bool) l :
  f <$> py_sorted (λ a b, le (f a) (f b)) l = py_sorted le (f <$> l).
Proof.
  unfold py_sorted.
  assert (H : ∀ acc,
            f <$> foldl (λ acc x, insert_sorted (λ a b, le (f a) (f b)) x acc) acc l
            = foldl (λ acc x, insert_sorted le x acc) (f <$> acc) (f <$> l)).
  { induction l as [|x l IH]; intros acc; [done|].
    simpl. by rewrite IH, insert_sorted_fmap. }
  apply (H []).
Qed.


(** [delete_all] leaves a cache alone that only names filter targets. *)
Lemma delete_all_id db ts :
  ts ≠ [] →
  names_in (λ n, n ∈ RoseArchTarget.name <$> ts) db →
  RoseArchDAO.delete_all db ts = db.
Proof.
  intros Hne [Ht Hs]. unfold RoseArchDAO.delete_all.
  destruct ts as [|t ts]; [done|]. destruct db as [tt ss]. cbn [T_TARGETS T_SOURCES] in *.
  f_equal.
  - apply filter_all. eapply Forall_impl; [exact Ht|]. intros r Hr.
    by apply where_all_false.
  - apply filter_all. eapply Forall_impl; [exact Hs|]. intros r Hr.
    by apply where_all_false.
Qed.






















(** With nothing changed but [ROSE_TASK_CYCLE_TIME], a target whose
    sources are renamed after the cycle is archived again: the renamed
    name is part of what [__eq__] compares. *)
Lemma second_run_other_cycle_reexecutes :
  final_statuses (_run_targets w_one conf_cycle (st0 empty_db)) = Some [Some ST_NEW]
  ∧ final_statuses
      (_run_targets w_next_cycle conf_cycle
         (st0 (st_db (_run_targets w_one conf_cycle (st0 empty_db)).1)))
    = Some [Some ST_NEW]
  ∧ commands
      (st_trace (_run_targets w_next_cycle conf_cycle
                   (st0 (st_db (_run_targets w_one conf_cycle (st0 empty_db)).1))).1)
    = ["cp /tmp/tmpdir/20130102T0000Z-a1 out"]
  ∧ final_statuses
      (_run_targets w_one conf_cycle
         (st0 (st_db (_run_targets w_one conf_cycle (st0 empty_db)).1)))
    = Some [Some ST_OLD].
Proof. repeat split; vm_compute; reflexivity. Qed.




End SecondRun.

(** * Further properties of the code *)

(** ** The cache: insertion, lookup, deletion *)

Module CacheProperties.
Import PyStr Arch Notions Examples UpdateFacts DaoFacts RunLemmas SetupFacts EqFacts
  SecondRun.

Lemma select_of_rows db n row rows srcs :
  rows_of db n = (row :: rows, srcs) →
  RoseArchDAO.select db n
  = Some (RoseArchTarget.mk n (tr_compress_scheme row) (tr_command_format row)
            (tr_command_rc row)
            (foldl (λ m r, <[sr_checksum r := RoseArchSource.__init__ (sr_checksum r)
                                               (sr_source_name r) None]> m)
                   ∅ srcs)
            (tr_source_edit_format row) None None).
Proof.
  unfold rows_of, RoseArchDAO.select, RoseArchDAO.select_sources.
  by intros [= -> ->].
Qed.

Lemma select_no_target db n srcs :
  rows_of db n = ([], srcs) → RoseArchDAO.select db n = None.
Proof. unfold rows_of, RoseArchDAO.select. by intros [= -> _]. Qed.

(** X1. Round trip of the cache: when the cache holds no row of the
    name of a target whose sources are keyed by their checksum, [insert]
    succeeds and a [select] of the name then returns a target that
    [__eq__] accepts as equal to the inserted one, with the same return
    code. *)
Theorem insert_select_round_trip (db : Db) (t : Target) :
  no_rows db (RoseArchTarget.name t) →
  keyed (RoseArchTarget.sources t) →
  ∃ db' old,
    RoseArchDAO.insert db t = Some db'
    ∧ RoseArchDAO.select db' (RoseArchTarget.name t) = Some old
    ∧ RoseArchTarget.__eq__ old t = true
    ∧ RoseArchTarget.command_rc old = RoseArchTarget.command_rc t.
Proof.
  intros Hno Hk.
  pose proof (insert_fresh db t Hno) as Hi.
  pose proof (insert_rows_of_eq db t _ Hno Hi) as Hrows.
  eexists _, _. split; [exact Hi|].
  split; [by apply (select_of_rows _ _ _ _ _ Hrows)|].
  split; [|reflexivity].
  unfold RoseArchTarget.__eq__.
  cbn [RoseArchTarget.name RoseArchTarget.compress_scheme
       RoseArchTarget.command_format RoseArchTarget.command_rc
       RoseArchTarget.sources RoseArchTarget.source_edit_format
       RoseArchDAO.target_row tr_compress_scheme tr_command_format
       tr_command_rc tr_source_edit_format].
  rewrite !andb_true_iff. split; [split; [split; [split; [split|]|]|]|].
  - apply String.eqb_refl.
  - by apply opt_str_eqb_spec.
  - by apply opt_str_eqb_spec.
  - apply Z.eqb_refl.
  - apply sources_eqb_spec. intros k. rewrite select_sources_rows.
    destruct (RoseArchTarget.sources t !! k) as [s|] eqn:Hs; simpl; [|done].
    split; simpl; [|done]. symmetry. by apply Hk.
  - by apply opt_str_eqb_spec.
Qed.

Lemma insert_select_round_trip_witness :
  no_rows empty_db (RoseArchTarget.name t_one)
  ∧ keyed (RoseArchTarget.sources t_one)
  ∧ ∃ db' old,
      RoseArchDAO.insert empty_db t_one = Some db'
      ∧ RoseArchDAO.select db' (RoseArchTarget.name t_one) = Some old
      ∧ RoseArchTarget.__eq__ old t_one = true
      ∧ RoseArchTarget.command_rc old = RoseArchTarget.command_rc t_one.
Proof.
  assert (Hk : keyed (RoseArchTarget.sources t_one)).
  { intros k s. unfold t_one. cbn [RoseArchTarget.sources].
    intros [<- <-]%lookup_singleton_Some. reflexivity. }
  split; [reflexivity|]. split; [exact Hk|].
  apply (insert_select_round_trip empty_db t_one); [reflexivity|exact Hk].
Defined.

Lemma source_conflict_app rows pre r :
  RoseArchDAO.source_conflict (rows ++ pre)%list r
  = RoseArchDAO.source_conflict rows r || RoseArchDAO.source_conflict pre r.
Proof. unfold RoseArchDAO.source_conflict. apply existsb_app. Qed.

Lemma insert_sources_None n rows new :
  Forall (λ r, sr_target_name r = n) new →
  NoDup (sr_checksum <$> new) →
  RoseArchDAO.insert_sources rows new = None
  ↔ ∃ r, r ∈ new ∧ RoseArchDAO.source_conflict rows r = true.
Proof.
  intros Hnew Hnd.
  assert (Hgen : ∀ pre, NoDup (sr_checksum <$> (pre ++ new)%list) →
            Forall (λ r, sr_target_name r = n) pre →
            RoseArchDAO.insert_sources (rows ++ pre)%list new = None
            ↔ ∃ r, r ∈ new ∧ RoseArchDAO.source_conflict rows r = true).
  { clear Hnd. induction new as [|r new IH]; intros pre Hnd Hpre; simpl.
    - split; [done|]. by intros (r & ?%elem_of_nil & _).
    - inversion Hnew as [|?? Hr Hnew']; subst.
      assert (Hpre_r : RoseArchDAO.source_conflict pre r = false).
      { unfold RoseArchDAO.source_conflict. apply not_true_is_false.
        intros (r' & Hin & Hc)%existsb_exists.
        apply andb_true_iff in Hc as [_ Hk%String.eqb_eq].
        rewrite fmap_app, fmap_cons in Hnd.
        apply NoDup_app in Hnd as (_ & Hdis & _).
        apply (Hdis (sr_checksum r')).
        - apply list_elem_of_fmap. exists r'. split; [done|].
          by apply list_elem_of_In.
        - rewrite Hk. by left. }
      rewrite source_conflict_app, Hpre_r, orb_false_r.
      destruct (RoseArchDAO.source_conflict rows r) eqn:Hc.
      + split; [|done]. intros _. exists r. split; [by left|done].
      + rewrite <- app_assoc. rewrite (IH Hnew' (pre ++ [r])%list).
        * split.
          -- intros (r' & Hin & Hc'). exists r'. split; [by right|done].
          -- intros (r' & Hin & Hc'). apply elem_of_cons in Hin as [->|Hin].
             ++ congruence.
             ++ by exists r'.
        * by rewrite <- app_assoc.
        * apply Forall_app. split; [done|]. by constructor. }
  specialize (Hgen [] Hnd (Forall_nil_2 _)). by rewrite app_nil_r in Hgen.
Qed.

(** X2. [insert] fails (the [IntegrityError] of the two constraints)
    exactly when the cache already holds a row of [targets] with the name
    of the target, or a row of [sources] with that name and the checksum of
    one of its sources; otherwise it appends the row of the target and one
    row per source and leaves every other row in place. *)
Theorem insert_fails_iff_conflict (db : Db) (t : Target) :
  (RoseArchDAO.insert db t = None
   ↔ (∃ r, r ∈ T_TARGETS db ∧ tr_target_name r = RoseArchTarget.name t)
     ∨ (∃ r, r ∈ T_SOURCES db ∧ sr_target_name r = RoseArchTarget.name t
             ∧ is_Some (RoseArchTarget.sources t !! sr_checksum r)))
  ∧ (∀ db', RoseArchDAO.insert db t = Some db' →
       T_TARGETS db' = (T_TARGETS db ++ [RoseArchDAO.target_row t])%list
       ∧ T_SOURCES db' = (T_SOURCES db ++ RoseArchDAO.source_rows t)%list
       ∧ length (RoseArchDAO.source_rows t) = size (RoseArchTarget.sources t)).
Proof.
  split.
  - unfold RoseArchDAO.insert.
    destruct (existsb _ (T_TARGETS db)) eqn:He.
    + split; [|done]. intros _. left.
      apply existsb_exists in He as (r & Hin%list_elem_of_In & Hr%String.eqb_eq).
      by exists r.
    + assert (Hnone : ¬ ∃ r, r ∈ T_TARGETS db
                             ∧ tr_target_name r = RoseArchTarget.name t).
      { intros (r & Hin & Hr). apply not_true_iff_false in He. apply He.
        apply existsb_exists. exists r. split; [by apply list_elem_of_In|].
        by apply String.eqb_eq. }
      pose proof (insert_sources_None (RoseArchTarget.name t) (T_SOURCES db)
                    (RoseArchDAO.source_rows t) (source_rows_name t)
                    (source_rows_NoDup t)) as Hs.
      destruct (RoseArchDAO.insert_sources _ _) as [srcs|].
      * split; [done|]. intros [H|(r & Hin & Hn & [s Hs'])]; [by destruct Hnone|].
        exfalso. assert (Hx : Some srcs = None); [|discriminate Hx].
        apply Hs. exists {| sr_target_name := RoseArchTarget.name t;
                            sr_source_name := RoseArchSource.name s;
                            sr_checksum := sr_checksum r |}.
        split.
        -- unfold RoseArchDAO.source_rows. apply list_elem_of_fmap.
           exists (sr_checksum r, s). split; [done|]. by apply elem_of_map_to_list.
        -- unfold RoseArchDAO.source_conflict. apply existsb_exists. exists r.
           split; [by apply list_elem_of_In|]. cbn.
           apply andb_true_iff. split; [by apply String.eqb_eq|apply String.eqb_refl].
      * split; [|done]. intros _. right.
        destruct (proj1 Hs eq_refl) as (r & Hin & Hc).
        apply existsb_exists in Hc as (r' & Hin'%list_elem_of_In & Hc).
        apply andb_true_iff in Hc as [Hn%String.eqb_eq Hk%String.eqb_eq].
        exists r'. split; [done|].
        unfold RoseArchDAO.source_rows in Hin.
        apply list_elem_of_fmap in Hin as ([k s] & -> & Hks%elem_of_map_to_list).
        cbn in Hn, Hk. split; [done|]. rewrite Hk. by exists s.
  - intros db' Hi. apply insert_Some in Hi as ->. cbn [T_TARGETS T_SOURCES].
    split; [done|]. split; [done|].
    unfold RoseArchDAO.source_rows. by rewrite length_fmap, length_map_to_list.
Qed.

(** X3. [delete] removes the target from the cache and nothing else: a
    [select] of its name then finds nothing, a [select] of any other name
    returns what it returned before, and deleting twice is deleting
    once. *)
Theorem delete_then_select (db : Db) (t : Target) :
  RoseArchDAO.select (RoseArchDAO.delete db t) (RoseArchTarget.name t) = None
  ∧ (∀ n, n ≠ RoseArchTarget.name t →
          RoseArchDAO.select (RoseArchDAO.delete db t) n = RoseArchDAO.select db n)
  ∧ RoseArchDAO.delete (RoseArchDAO.delete db t) t = RoseArchDAO.delete db t.
Proof.
  split; [apply no_rows_select, delete_no_rows|]. split.
  - intros n Hn. apply select_rows_of. by apply delete_rows_of.
  - unfold RoseArchDAO.delete. cbn [T_TARGETS T_SOURCES]. f_equal.
    + apply filter_all, Forall_forall. intros r Hr.
      by apply list_elem_of_filter in Hr as [? _].
    + apply filter_all, Forall_forall. intros r Hr.
      by apply list_elem_of_filter in Hr as [? _].
Qed.

(** X4. [update_command_rc] changes the return code of the cached
    target and nothing else: a [select] of the name returns the target it
    returned before with the new return code (and still nothing when
    there was none), and every other name is unaffected. *)
Theorem update_command_rc_then_select (db : Db) (t : Target) :
  RoseArchDAO.select (RoseArchDAO.update_command_rc db t) (RoseArchTarget.name t)
  = (λ old, RoseArchTarget.set_command_rc old (RoseArchTarget.command_rc t))
      <$> RoseArchDAO.select db (RoseArchTarget.name t)
  ∧ (∀ n, n ≠ RoseArchTarget.name t →
          RoseArchDAO.select (RoseArchDAO.update_command_rc db t) n
          = RoseArchDAO.select db n)
  ∧ T_SOURCES (RoseArchDAO.update_command_rc db t) = T_SOURCES db
  ∧ length (T_TARGETS (RoseArchDAO.update_command_rc db t)) = length (T_TARGETS db).
Proof.
  split; [|split; [|split]].
  - pose proof (update_rc_rows_of_eq db t) as Hr.
    destruct (rows_of db (RoseArchTarget.name t)) as [rows srcs] eqn:Hrows.
    cbn [fst snd] in Hr. destruct rows as [|row rows].
    + rewrite (select_no_target db _ srcs Hrows). simpl.
      by apply (select_no_target _ _ srcs).
    + rewrite fmap_cons in Hr.
      rewrite (select_of_rows _ _ _ _ _ Hr), (select_of_rows _ _ _ _ _ Hrows).
      reflexivity.
  - intros n Hn. apply select_rows_of. by apply update_rc_rows_of_ne.
  - reflexivity.
  - unfold RoseArchDAO.update_command_rc. cbn [T_TARGETS]. apply length_fmap.
Qed.

(** X5. [delete_all] keeps exactly the targets it is given: a [select] of
    the name of a filter target returns what it returned before, a
    [select] of any other name finds nothing (every name, when no filter
    target is given), and a second [delete_all] with the same targets
    changes nothing. *)
Theorem delete_all_then_select (db : Db) (ts : list Target) :
  (∀ n, n ∈ RoseArchTarget.name <$> ts →
        RoseArchDAO.select (RoseArchDAO.delete_all db ts) n = RoseArchDAO.select db n)
  ∧ (∀ n, n ∉ RoseArchTarget.name <$> ts →
          RoseArchDAO.select (RoseArchDAO.delete_all db ts) n = None)
  ∧ RoseArchDAO.delete_all (RoseArchDAO.delete_all db ts) ts
    = RoseArchDAO.delete_all db ts.
Proof.
  split; [|split].
  - intros n Hn. apply select_rows_of. by apply delete_all_rows_of.
  - intros n Hn. apply no_rows_select, no_rows_iff.
    destruct (delete_all_names db ts) as [Ht Hs].
    split; (eapply Forall_impl; [eassumption|]); intros r Hr; cbn in *; congruence.
  - destruct ts as [|t ts]; [reflexivity|].
    apply delete_all_id; [done|]. apply names_in_delete_all.
Qed.

Lemma select_fold_spec (l : list SourceRow) (m0 : gmap string Source) :
  let m := foldl (λ m r, <[sr_checksum r := RoseArchSource.__init__ (sr_checksum r)
                                              (sr_source_name r) None]> m) m0 l in
  (∀ k s, m !! k = Some s →
          m0 !! k = Some s
          ∨ ∃ r, r ∈ l ∧ sr_checksum r = k
                 ∧ s = RoseArchSource.__init__ k (sr_source_name r) None)
  ∧ (∀ r, r ∈ l → is_Some (m !! sr_checksum r))
  ∧ (∀ k, is_Some (m0 !! k) → is_Some (m !! k)).
Proof.
  revert m0. induction l as [|r l IH]; intros m0; simpl.
  - split; [by left|]. split; [by intros r ?%elem_of_nil|done].
  - destruct (IH (<[sr_checksum r := RoseArchSource.__init__ (sr_checksum r)
                                      (sr_source_name r) None]> m0))
      as (H1 & H2 & H3).
    split; [|split].
    + intros k s Hs. destruct (H1 k s Hs) as [H0|(r' & Hin & Hk & ->)].
      * destruct (decide (sr_checksum r = k)) as [<-|Hne].
        -- rewrite lookup_insert_eq in H0. injection H0 as <-.
           right. exists r. split; [by left|done].
        -- rewrite lookup_insert_ne in H0 by done. by left.
      * right. exists r'. split; [by right|done].
    + intros r' [->|Hin]%elem_of_cons; [|by apply H2].
      apply H3. rewrite lookup_insert_eq. by eexists.
    + intros k Hk. apply H3.
      destruct (decide (sr_checksum r = k)) as [<-|Hne].
      * rewrite lookup_insert_eq. by eexists.
      * by rewrite lookup_insert_ne.
Qed.

(** X6. What [select] returns is a target in cached form: it carries the
    name asked for, no status and no consolidated artifact; its sources
    are keyed by their checksum, have no path, have their cached name as
    original name, and each comes from a row of [sources] of that name;
    and every such row is represented. *)
Theorem select_returns_cached_form (db : Db) (n : string) (old : Target) :
  RoseArchDAO.select db n = Some old →
  RoseArchTarget.name old = n
  ∧ RoseArchTarget.status old = None
  ∧ RoseArchTarget.work_source_path old = None
  ∧ keyed (RoseArchTarget.sources old)
  ∧ (∀ k s, RoseArchTarget.sources old !! k = Some s →
       RoseArchSource.orig_name s = RoseArchSource.name s
       ∧ RoseArchSource.orig_path s = None
       ∧ RoseArchSource.path s = None
       ∧ ∃ r, r ∈ T_SOURCES db ∧ sr_target_name r = n ∧ sr_checksum r = k
              ∧ sr_source_name r = RoseArchSource.name s)
  ∧ (∀ r, r ∈ T_SOURCES db → sr_target_name r = n →
          is_Some (RoseArchTarget.sources old !! sr_checksum r)).
Proof.
  unfold RoseArchDAO.select, RoseArchDAO.select_sources.
  destruct (filter _ (T_TARGETS db)) as [|row rows]; [done|].
  intros [= <-]. cbn [RoseArchTarget.name RoseArchTarget.status
                      RoseArchTarget.work_source_path RoseArchTarget.sources].
  destruct (select_fold_spec (filter (λ r, sr_target_name r = n) (T_SOURCES db)) ∅)
    as (H1 & H2 & _). cbv zeta in H1, H2.
  split; [done|]. split; [done|]. split; [done|]. split; [|split].
  - intros k s Hs. destruct (H1 k s Hs) as [H0|(r & _ & _ & ->)]; [|done].
    by rewrite lookup_empty in H0.
  - intros k s Hs. destruct (H1 k s Hs) as [H0|(r & Hin & Hk & ->)].
    { by rewrite lookup_empty in H0. }
    apply list_elem_of_filter in Hin as [Hn Hin].
    split; [done|]. split; [done|]. split; [done|]. by exists r.
  - intros r Hin Hn. apply H2. by apply list_elem_of_filter.
Qed.

Lemma select_returns_cached_form_witness :
  RoseArchDAO.select db_one "out"
  = Some (RoseArchTarget.mk "out" None (Some "cp %(sources)s %(target)s") 0
            {[ "c1" := RoseArchSource.__init__ "c1" "a1" None ]} (Some "") None None)
  ∧ RoseArchTarget.name
      (RoseArchTarget.mk "out" None (Some "cp %(sources)s %(target)s") 0
         {[ "c1" := RoseArchSource.__init__ "c1" "a1" None ]} (Some "") None None)
    = "out".
Proof.
  split; [vm_compute; reflexivity|].
  apply (select_returns_cached_form db_one "out"). vm_compute; reflexivity.
Defined.

Lemma bool_eq_iff (a b : bool) : (a = true ↔ b = true) → a = b.
Proof. destruct a, b; intros [H1 H2]; try done; [by rewrite H1|by rewrite H2]. Qed.

Lemma same_sources_sym a b : same_sources a b → same_sources b a.
Proof.
  intros H k. specialize (H k). destruct (a !! k), (b !! k); try done.
  destruct H. by split.
Qed.

Lemma same_sources_trans a b c :
  same_sources a b → same_sources b c → same_sources a c.
Proof.
  intros H1 H2 k. specialize (H1 k). specialize (H2 k).
  destruct (a !! k), (b !! k), (c !! k); try done.
  destruct H1, H2. split; congruence.
Qed.

Lemma target_eq_fields a b :
  RoseArchTarget.__eq__ a b = true
  ↔ RoseArchTarget.name a = RoseArchTarget.name b
    ∧ RoseArchTarget.compress_scheme a = RoseArchTarget.compress_scheme b
    ∧ RoseArchTarget.command_format a = RoseArchTarget.command_format b
    ∧ RoseArchTarget.command_rc a = RoseArchTarget.command_rc b
    ∧ same_sources (RoseArchTarget.sources a) (RoseArchTarget.sources b)
    ∧ RoseArchTarget.source_edit_format a = RoseArchTarget.source_edit_format b.
Proof.
  unfold RoseArchTarget.__eq__.
  rewrite !andb_true_iff, !opt_str_eqb_spec, String.eqb_eq, Z.eqb_eq,
    sources_eqb_spec. tauto.
Qed.

(** X7. [RoseArchTarget.__eq__], the test that decides whether a target
    is skipped, is an equivalence: reflexive, symmetric and transitive.  It
    looks at the name, the compression scheme, the two templates, the
    return code and the checksum and name of every source, and at nothing
    else: the status, the consolidated artifact and the paths of the
    sources do not matter. *)
Theorem target_eq_equivalence :
  (∀ t, RoseArchTarget.__eq__ t t = true)
  ∧ (∀ a b, RoseArchTarget.__eq__ a b = RoseArchTarget.__eq__ b a)
  ∧ (∀ a b c, RoseArchTarget.__eq__ a b = true → RoseArchTarget.__eq__ b c = true →
              RoseArchTarget.__eq__ a c = true)
  ∧ (∀ a b status artifact (new_path : Source → option string),
       RoseArchTarget.__eq__
         (RoseArchTarget.set_sources
            (RoseArchTarget.set_work_source_path
               (RoseArchTarget.set_status a status) artifact)
            ((λ s, RoseArchSource.set_path s (new_path s))
               <$> RoseArchTarget.sources a)) b
       = RoseArchTarget.__eq__ a b).
Proof.
  split; [|split; [|split]].
  - intros t. apply target_eq_fields. repeat split; try done.
    intros k. by destruct (RoseArchTarget.sources t !! k).
  - intros a b. apply bool_eq_iff. rewrite !target_eq_fields.
    split; intros (? & ? & ? & ? & ? & ?); repeat split; try done;
      by apply same_sources_sym.
  - intros a b c. rewrite !target_eq_fields.
    intros (? & ? & ? & ? & ? & ?) (? & ? & ? & ? & ? & ?).
    repeat split; try congruence. by eapply same_sources_trans.
  - intros a b status artifact new_path. apply bool_eq_iff.
    rewrite !target_eq_fields.
    cbn [RoseArchTarget.name RoseArchTarget.compress_scheme
         RoseArchTarget.command_format RoseArchTarget.command_rc
         RoseArchTarget.sources RoseArchTarget.source_edit_format
         RoseArchTarget.set_sources RoseArchTarget.set_work_source_path
         RoseArchTarget.set_status].
    assert (Hs : ∀ m, same_sources
                        ((λ s, RoseArchSource.set_path s (new_path s))
                           <$> RoseArchTarget.sources a) m
                      ↔ same_sources (RoseArchTarget.sources a) m).
    { intros m. unfold same_sources. split; intros H k; specialize (H k);
        rewrite lookup_fmap in *;
        destruct (RoseArchTarget.sources a !! k), (m !! k); done. }
    rewrite Hs. tauto.
Qed.

End CacheProperties.

(** ** The update step *)

Module UpdateProperties.
Import PyStr Arch Notions Examples UpdateFacts DaoFacts RunLemmas SecondRun.

Ltac body_trace :=
  eexists; split;
  [ unfold extends, emit, with_db; simpl; rewrite <- ?app_assoc; simpl;
    first [ reflexivity | symmetry; apply app_nil_r ]
  | repeat constructor ].

Lemma stage_source_body w target work_dir s st :
  (stage_source w target work_dir s st).1.2 = staged work_dir s
  ∧ ∃ l, extends st (stage_source w target work_dir s st).1.1 l
         ∧ Forall body_action l.
Proof.
  unfold stage_source. cbv zeta.
  destruct (truthy _).
  - destruct (format _ _) eqn:Hf; simpl.
    + destruct (_ =? _)%Z; simpl; (split; [done|]); body_trace.
    + split; [done|]. body_trace.
    + split; [done|]. body_trace.
    + split; [done|]. body_trace.
  - simpl. split; [done|]. body_trace.
Qed.

Lemma stage_list_body w target work_dir l acc st :
  ∃ tr, extends st (stage_list w target work_dir l acc st).1.1 tr
        ∧ Forall body_action tr.
Proof.
  revert acc st. induction l as [|[k s] l IH]; intros acc st; simpl.
  - exists []. split; [apply extends_refl|constructor].
  - destruct (stage_source_body w target work_dir s st) as [_ (l1 & He1 & Hq1)].
    destruct (stage_source w target work_dir s st) as [[st1 s1] e1].
    simpl in He1. destruct e1.
    + simpl. by exists l1.
    + destruct (IH (<[k:=s1]> acc) st1) as (l2 & He2 & Hq2).
      exists (l1 ++ l2)%list.
      split; [by eapply extends_trans|by apply Forall_app].
Qed.

Lemma stage_list_done w target work_dir l acc st st' acc' :
  NoDup l.*1 →
  stage_list w target work_dir l acc st = (st', acc', None) →
  ∀ k, acc' !! k = match (list_to_map l : gmap string Source) !! k with
                   | Some s => Some (staged work_dir s)
                   | None => acc !! k
                   end.
Proof.
  revert acc st. induction l as [|[k0 s0] l IH]; intros acc st Hnd; simpl.
  - by intros [= _ <-] k.
  - apply NoDup_cons in Hnd as [Hk0 Hnd].
    destruct (stage_source_body w target work_dir s0 st) as [Hs _].
    destruct (stage_source w target work_dir s0 st) as [[st1 s1] e1].
    simpl in Hs. subst s1. destruct e1; [done|].
    intros H k. rewrite (IH _ _ Hnd H k), ?list_to_map_cons.
    destruct (decide (k = k0)) as [->|Hne].
    + rewrite (not_elem_of_list_to_map_1 _ _ Hk0).
      by rewrite !lookup_insert_eq.
    + by rewrite !lookup_insert_ne.
Qed.

Lemma stage_body w target work_dir st :
  ∃ tr, extends st (stage w target work_dir st).1.1 tr ∧ Forall body_action tr.
Proof.
  unfold stage. destruct (_ || _).
  - destruct (stage_list_body w target work_dir
                (map_to_list (RoseArchTarget.sources target))
                (RoseArchTarget.sources target) st) as (tr & He & Hq).
    destruct (stage_list _ _ _ _ _ _) as [[st1 srcs] e]. by exists tr.
  - exists []. split; [apply extends_refl|constructor].
Qed.

Lemma compress_body w target work_dir st :
  ∃ tr, extends st (compress w target work_dir st).1.1 tr ∧ Forall body_action tr.
Proof.
  unfold compress. destruct (truthy _).
  - destruct (w_get_handler _ _).
    + destruct (w_compress_sources _ _ _ _); simpl; body_trace.
    + simpl. body_trace.
  - simpl. body_trace.
Qed.

Lemma archive_body w target st :
  ∃ tr, extends st (archive w target st).1.1.1 tr ∧ Forall body_action tr.
Proof.
  unfold archive.
  destruct (RoseArchTarget.command_format target) as [cf|]; simpl.
  2:{ exists []. split; [apply extends_refl|constructor]. }
  destruct (format cf _) as [command| | |] eqn:Hf.
  2-4: exists []; (split; [apply extends_refl|constructor]).
  destruct (w_popen_run w command) as [[ret_code out] err] eqn:Hr.
  destruct (ret_code =? 0)%Z; simpl; body_trace.
Qed.

Lemma update_body_body w target work_dir st :
  ∃ tr, extends st (update_body w target work_dir st).1.1.1 tr
        ∧ Forall body_action tr.
Proof.
  unfold update_body. cbv zeta.
  set (t1 := RoseArchTarget.set_status target (Some ST_BAD)).
  destruct (stage_body w t1 work_dir st) as (l1 & He1 & Hq1).
  destruct (stage w t1 work_dir st) as [[st1 t2] e1]. simpl in He1.
  destruct e1; [by exists l1|].
  destruct (compress_body w t2 work_dir st1) as (l2 & He2 & Hq2).
  destruct (compress w t2 work_dir st1) as [[st2 t3] e2]. simpl in He2.
  destruct e2.
  { exists (l1 ++ l2)%list. split; [by eapply extends_trans|by apply Forall_app]. }
  destruct (archive_body w t3 st2) as (l3 & He3 & Hq3).
  exists ((l1 ++ l2) ++ l3)%list. split.
  - eapply extends_trans; [by eapply extends_trans|done].
  - by repeat apply Forall_app_2.
Qed.

(** X8. An update never touches what the cache holds under another
    name: whatever the targets of a list go through (skipped, reported,
    archived, or an exception that ends the loop), [select] of a name
    that is not the name of one of them gives what it gave before. *)
Theorem update_leaves_other_names (w : World) (ts : list Target) (st : State)
    (n : string) :
  n ∉ RoseArchTarget.name <$> ts →
  RoseArchDAO.select (st_db (update_loop w ts st).1) n
  = RoseArchDAO.select (st_db st) n.
Proof.
  intros Hn. apply select_rows_of. revert st.
  induction ts as [|t ts IH]; intros st; [done|].
  rewrite fmap_cons, not_elem_of_cons in Hn. destruct Hn as [Hne Hn].
  cbn [update_loop].
  pose proof (update_rows_of_ne w t st n Hne) as H1.
  destruct (_run_target_update w t st) as [st1 [e|t1]]; [done|].
  cbn [fst] in H1. specialize (IH Hn st1).
  destruct (update_loop w ts st1) as [st2 [e|out]]; cbn [fst] in *; congruence.
Qed.

Lemma update_leaves_other_names_witness :
  RoseArchDAO.select (st_db (update_loop w_one [t_one] (st0 db_stale)).1) "gone"
  = RoseArchDAO.select (st_db (st0 db_stale)) "gone".
Proof.
  apply update_leaves_other_names.
  intros H. by apply list_elem_of_singleton in H.
Defined.

(** X9. What the update step returns: a target of the same name whose
    status is set; a target marked OLD comes back as it was; any other
    target comes back BAD exactly when its return code is not 0 (1 for a
    target that was already BAD, the exit status of the archive command
    otherwise), and a target without sources (NULL) keeps its status with
    return code 0. *)
Theorem update_outcome (w : World) (t t' : Target) (st st' : State) :
  _run_target_update w t st = (st', inr t') →
  RoseArchTarget.name t' = RoseArchTarget.name t
  ∧ (RoseArchTarget.status t = Some ST_OLD → t' = t ∧ st_db st' = st_db st)
  ∧ (RoseArchTarget.status t ≠ Some ST_OLD →
     RoseArchTarget.status t' ≠ None
     ∧ RoseArchTarget.status t' ≠ Some ST_OLD
     ∧ (RoseArchTarget.status t' = Some ST_BAD ↔ RoseArchTarget.command_rc t' ≠ 0%Z)
     ∧ (RoseArchTarget.status t = Some ST_NULL →
        t' = RoseArchTarget.set_command_rc t 0 ∧ st_db st' = st_db st)
     ∧ (RoseArchTarget.status t = Some ST_BAD →
        t' = RoseArchTarget.set_command_rc t 1 ∧ st_db st' = st_db st)).
Proof.
  intros H.
  destruct (decide (RoseArchTarget.status t = Some ST_OLD)) as [Ho|Ho].
  { rewrite (update_old w t st Ho) in H. injection H as <- <-.
    split; [done|]. split; [done|]. by intros []. }
  destruct (status_in_bad_null t) eqn:Hb.
  - revert H. unfold _run_target_update.
    rewrite bool_decide_eq_false_2 by done. rewrite Hb.
    unfold status_in_bad_null in Hb.
    destruct (RoseArchTarget.status t) as [[| | |]|] eqn:Hs; try done.
    + rewrite bool_decide_eq_true_2 by done. intros [= <- <-].
      cbn [RoseArchTarget.name RoseArchTarget.status RoseArchTarget.command_rc
           RoseArchTarget.set_command_rc]. rewrite Hs.
      split; [done|]. split; [done|]. intros _.
      repeat split; try done.
    + rewrite bool_decide_eq_false_2 by done. intros [= <- <-].
      cbn [RoseArchTarget.name RoseArchTarget.status RoseArchTarget.command_rc
           RoseArchTarget.set_command_rc]. rewrite Hs.
      split; [done|]. split; [done|]. intros _.
      repeat split; try done.
  - assert (Hp : pending t) by done.
    destruct (RoseArchDAO.insert (st_db st) (RoseArchTarget.set_command_rc t 1))
      as [db1|] eqn:Hi.
    2:{ by rewrite (update_pending_conflict w t st Hp Hi) in H. }
    destruct (update_pending_spec w t st db1 Hp Hi) as (tail & _ & Hr).
    cbv zeta in Hr. rewrite H in Hr. cbn [fst snd] in Hr.
    destruct Hr as [(e & He & _)|(t1 & c & out & err & tr1 & tr2 & Ht & Hn & _
                                  & Hst & _)]; [done|].
    injection Ht as <-. split; [done|]. split; [done|]. intros _.
    rewrite Hst.
    unfold status_in_bad_null in Hb.
    destruct (Z.eqb_spec (RoseArchTarget.command_rc t') 0) as [Hz|Hz].
    + repeat split; try done;
        exfalso; destruct (RoseArchTarget.status t) as [[| | |]|]; done.
    + repeat split; try done;
        exfalso; destruct (RoseArchTarget.status t) as [[| | |]|]; done.
Qed.

Lemma update_outcome_witness :
  RoseArchTarget.name (RoseArchTarget.set_command_rc
                         (RoseArchTarget.set_status t_one (Some ST_NEW)) 0)
  = RoseArchTarget.name t_one.
Proof.
  apply (update_outcome w_one t_one _ (st0 empty_db)
           (_run_target_update w_one t_one (st0 empty_db)).1).
  vm_compute. reflexivity.
Defined.

Lemma update_pending_trace (w : World) (t : Target) (st : State) (db1 : Db) :
  pending t →
  RoseArchDAO.insert (st_db st) (RoseArchTarget.set_command_rc t 1) = Some db1 →
  ∃ mid rest,
    extends st (_run_target_update w t st).1
      (ADbInsert (RoseArchDAO.target_row (RoseArchTarget.set_command_rc t 1))
         (RoseArchDAO.source_rows t)
       :: AMkdtemp (w_mkdtemp w (length (st_trace st) + 1))
       :: mid ++ AFsDelete (w_mkdtemp w (length (st_trace st) + 1)) :: rest)%list
    ∧ Forall body_action mid
    ∧ Forall is_report rest.
Proof.
  intros [Ho Hb] Hi. unfold _run_target_update.
  rewrite bool_decide_eq_false_2 by done. rewrite Hb, Hi. cbv zeta.
  set (t1 := RoseArchTarget.set_command_rc t 1).
  set (ins := ADbInsert (RoseArchDAO.target_row t1) (RoseArchDAO.source_rows t1)).
  assert (Hlen : length (st_trace (with_db db1 ins st)) = length (st_trace st) + 1).
  { unfold with_db. cbn [st_trace]. by rewrite length_app. }
  rewrite Hlen.
  set (d := w_mkdtemp w (length (st_trace st) + 1)).
  set (st1 := emit (AMkdtemp d) (with_db db1 ins st)).
  destruct (update_body_body w t1 d st1) as (mid & He & Hq).
  destruct (update_body w t1 d st1) as [[[st2 t2] rc] e]. cbn [fst] in He.
  exists mid.
  assert (Htr : st_trace st2 = (st_trace st ++ ins :: AMkdtemp d :: mid)%list).
  { rewrite He. unfold st1, emit, with_db. cbn [st_trace].
    by rewrite <- !app_assoc. }
  destruct (status_in_bad_null t2).
  - exists [AEvent (RoseArchEvent t2 (Some rc));
            AEventErr (RoseArchEvent t2 (Some rc)) LevelFail].
    split; [|split; [done|by repeat constructor]].
    destruct e; unfold extends, emit; cbn [fst st_trace]; rewrite Htr;
      rewrite <- !app_assoc; reflexivity.
  - exists [AEvent (RoseArchEvent t2 (Some rc))].
    split; [|split; [done|by repeat constructor]].
    destruct e; unfold extends, emit; cbn [fst st_trace]; rewrite Htr;
      rewrite <- !app_assoc; reflexivity.
Qed.

(** X10. The working directory of an update is always removed: once the
    provisional row is inserted, the step creates one temporary directory
    and, whether the [try] block returns or raises (an edit command that
    fails, a compression handler that raises, a template that cannot be
    formatted), deletes that same directory before it reports; in between
    no other temporary directory is created and nothing is deleted. *)
Theorem work_dir_always_removed (w : World) (t : Target) (st : State) (db1 : Db) :
  pending t →
  RoseArchDAO.insert (st_db st) (RoseArchTarget.set_command_rc t 1) = Some db1 →
  ∃ mid rest,
    extends st (_run_target_update w t st).1
      (ADbInsert (RoseArchDAO.target_row (RoseArchTarget.set_command_rc t 1))
         (RoseArchDAO.source_rows t)
       :: AMkdtemp (w_mkdtemp w (length (st_trace st) + 1))
       :: mid ++ AFsDelete (w_mkdtemp w (length (st_trace st) + 1)) :: rest)%list
    ∧ Forall body_action mid
    ∧ Forall is_report rest.
Proof. apply update_pending_trace. Qed.

Lemma work_dir_always_removed_witness :
  ∃ mid rest,
    extends (st0 empty_db) (_run_target_update w_one t_one (st0 empty_db)).1
      (ADbInsert (RoseArchDAO.target_row (RoseArchTarget.set_command_rc t_one 1))
         (RoseArchDAO.source_rows t_one)
       :: AMkdtemp (w_mkdtemp w_one (length (st_trace (st0 empty_db)) + 1))
       :: mid ++ AFsDelete (w_mkdtemp w_one (length (st_trace (st0 empty_db)) + 1))
       :: rest)%list
    ∧ Forall body_action mid
    ∧ Forall is_report rest.
Proof.
  apply (work_dir_always_removed w_one t_one (st0 empty_db)
           {| T_TARGETS := [RoseArchDAO.target_row
                              (RoseArchTarget.set_command_rc t_one 1)];
              T_SOURCES := RoseArchDAO.source_rows t_one |}).
  - split; [discriminate|reflexivity].
  - vm_compute. reflexivity.
Defined.

Lemma rename_required_spec (t : Target) :
  existsb (λ kv, negb (String.eqb (RoseArchSource.name kv.2)
                                  (RoseArchSource.orig_name kv.2)))
          (map_to_list (RoseArchTarget.sources t)) = true
  ↔ renamed t.
Proof.
  rewrite existsb_exists. unfold renamed. split.
  - intros ([k s] & Hin & Hne). exists k, s.
    apply list_elem_of_In, elem_of_map_to_list in Hin. split; [done|].
    cbn [snd] in Hne. apply negb_true_iff, String.eqb_neq in Hne. done.
  - intros (k & s & Hin & Hne). exists (k, s). split.
    + by apply list_elem_of_In, elem_of_map_to_list.
    + cbn [snd]. by apply negb_true_iff, String.eqb_neq.
Qed.

(** X11. Staging is all or nothing.  When no source has been renamed
    and no edit command is configured, the staging step does nothing at
    all and the sources keep the paths they were found at.  Otherwise,
    when it completes, every source of the target - renamed or not -
    has been given the path of its (possibly renamed) name under the
    working directory; the cache is not touched. *)
Theorem stage_outcome (w : World) (t : Target) (work_dir : string) (st : State) :
  (¬ renamed t → truthy (RoseArchTarget.source_edit_format t) = false →
   stage w t work_dir st = (st, t, None))
  ∧ (renamed t ∨ truthy (RoseArchTarget.source_edit_format t) = true →
     ∀ st' t', stage w t work_dir st = (st', t', None) →
       t' = RoseArchTarget.set_sources t
              (staged work_dir <$> RoseArchTarget.sources t)
       ∧ st_db st' = st_db st).
Proof.
  pose proof (rename_required_spec t) as Hreq.
  pose proof (stage_spec w t work_dir st) as Hspec. cbv zeta in Hspec.
  revert Hspec. unfold stage.
  destruct (existsb _ _) eqn:Hex.
  - intros Hspec. split; [intros Hn; exfalso; by apply Hn, Hreq|].
    intros _ st' t'. cbn [orb].
    destruct (stage_list _ _ _ _ _ _) as [[st1 srcs] e] eqn:Hl.
    intros [= -> <- ->]. split; [|by destruct Hspec].
    f_equal. apply map_eq. intros k.
    rewrite (stage_list_done _ _ _ _ _ _ _ _ (NoDup_fst_map_to_list _) Hl k).
    rewrite list_to_map_to_list, lookup_fmap.
    by destruct (RoseArchTarget.sources t !! k).
  - cbn [orb]. destruct (truthy _).
    + intros Hspec. split; [done|]. intros _ st' t'.
      destruct (stage_list _ _ _ _ _ _) as [[st1 srcs] e] eqn:Hl.
      intros [= -> <- ->]. split; [|by destruct Hspec].
      f_equal. apply map_eq. intros k.
      rewrite (stage_list_done _ _ _ _ _ _ _ _ (NoDup_fst_map_to_list _) Hl k).
      rewrite list_to_map_to_list, lookup_fmap.
      by destruct (RoseArchTarget.sources t !! k).
    + intros _. split; [done|]. intros [Hr|?]; [|done].
      apply Hreq in Hr. done.
Qed.

Lemma archive_commands_none (l : list Action) :
  Forall (λ a, quiet a ∨ ∃ n rc, a = ADbUpdateCommandRc n rc) l →
  archive_commands l = [].
Proof.
  induction 1 as [|a l Ha _ IH]; [done|].
  unfold archive_commands in *. cbn [omap list_omap].
  destruct a; try (by rewrite IH).
  destruct Ha as [[]|(? & ? & [=])].
Qed.

Lemma archive_commands_quiet (l : list Action) :
  Forall quiet l → archive_commands l = [].
Proof.
  intros H. apply archive_commands_none.
  eapply Forall_impl; [exact H|]. by left.
Qed.

(** X12. One update step runs at most one archive command.  When it
    runs one, the target was pending (neither OLD, BAD nor NULL), the step
    returns, and the return code of the target it returns is the exit
    status of that command; and a pending target whose update returns has
    had its command run. *)
Theorem one_archive_command (w : World) (t : Target) (st : State)
    (l : list Action) :
  extends st (_run_target_update w t st).1 l →
  (length (archive_commands l) ≤ 1)%nat
  ∧ (∀ c, archive_commands l = [c] →
          pending t
          ∧ ∃ t' out err,
              (_run_target_update w t st).2 = inr t'
              ∧ w_popen_run w c = (RoseArchTarget.command_rc t', out, err))
  ∧ (pending t → ∀ t', (_run_target_update w t st).2 = inr t' →
     archive_commands l ≠ []).
Proof.
  unfold extends. intros Hl.
  destruct (decide (RoseArchTarget.status t = Some ST_OLD)) as [Ho|Ho].
  { rewrite (update_old w t st Ho) in *. cbn [fst snd emit st_trace] in *.
    apply app_inv_head in Hl as <-. cbn. split; [lia|].
    split; [done|]. by intros [? _]. }
  destruct (status_in_bad_null t) eqn:Hb.
  { destruct (update_bad_null w t st Hb) as (rc & level & Hu). rewrite Hu in *.
    cbn [fst snd emit st_trace] in *. rewrite <- app_assoc in Hl.
    apply app_inv_head in Hl as <-. cbn. split; [lia|].
    split; [done|]. intros [_ Hx]. congruence. }
  assert (Hp : pending t) by done.
  destruct (RoseArchDAO.insert (st_db st) (RoseArchTarget.set_command_rc t 1))
    as [db1|] eqn:Hi.
  2:{ rewrite (update_pending_conflict w t st Hp Hi) in *. cbn [fst snd] in *.
      rewrite <- (app_nil_r (st_trace st)) in Hl at 1.
      apply app_inv_head in Hl as <-. cbn. split; [lia|].
      split; [done|]. done. }
  destruct (update_pending_spec w t st db1 Hp Hi) as (tail & He & Hr).
  cbv zeta in He, Hr. unfold extends in He. rewrite He in Hl.
  apply app_inv_head in Hl as <-.
  destruct Hr as [(e & Hx & _ & Hq)
                 |(t1 & c & out & err & tr1 & tr2 & Ht & _ & Hrun & _ & _
                   & -> & Hq1 & Hq2)].
  - unfold archive_commands. cbn [omap list_omap].
    fold (archive_commands tail). rewrite (archive_commands_quiet _ Hq).
    split; [cbn; lia|]. split; [done|]. intros _ t'. by rewrite Hx.
  - unfold archive_commands. cbn [omap list_omap].
    fold (archive_commands (tr1 ++ ARun c :: tr2)).
    assert (Hc : archive_commands (tr1 ++ ARun c :: tr2) = [c]).
    { unfold archive_commands. rewrite omap_app. cbn [omap list_omap].
      fold (archive_commands tr1). fold (archive_commands tr2).
      by rewrite (archive_commands_quiet _ Hq1), (archive_commands_none _ Hq2). }
    rewrite Hc. split; [cbn; lia|]. split.
    + intros c' [= <-]. split; [done|]. by exists t1, out, err.
    + by intros _ t' _.
Qed.

Lemma one_archive_command_witness :
  (length (archive_commands
             (st_trace (_run_target_update w_one t_one (st0 empty_db)).1)) ≤ 1)%nat.
Proof.
  apply (one_archive_command w_one t_one (st0 empty_db)).
  reflexivity.
Defined.

End UpdateProperties.

(** ** The set-up of a target *)

Module SetupProperties.
Import PyStr Arch Notions Examples UpdateFacts DaoFacts RunLemmas SetupFacts.

Lemma same_settings_refl t : same_settings t t.
Proof. by repeat split. Qed.

Lemma same_settings_trans t1 t2 t3 :
  same_settings t1 t2 → same_settings t2 t3 → same_settings t1 t3.
Proof.
  intros (? & ? & ? & ? & ?) (? & ? & ? & ? & ?). repeat split; congruence.
Qed.

Lemma add_checksums_settings name path t l :
  same_settings t (add_checksums name path t l)
  ∧ RoseArchTarget.compress_scheme (add_checksums name path t l)
    = RoseArchTarget.compress_scheme t.
Proof.
  unfold add_checksums. revert t. induction l as [|[p c] l IH]; intros t; simpl.
  - by repeat split.
  - destruct c as [c|]; simpl; [|apply IH].
    match goal with |- context [foldl _ ?t0 l] => specialize (IH t0) end.
    destruct IH as [(? & ? & ? & ? & ?) ?]. by repeat split.
Qed.

Lemma add_paths_settings w uc sp t paths :
  same_settings t (add_paths w uc sp t paths).
Proof.
  unfold add_paths. revert t. induction paths as [|p paths IH]; intros t; simpl.
  - apply same_settings_refl.
  - eapply same_settings_trans; [|apply IH]. apply add_checksums_settings.
Qed.

Lemma source_step_settings w t_key uc sp c t g :
  same_settings t (source_step w t_key uc sp c t g).2.
Proof.
  unfold source_step.
  destruct (w_glob w _) as [|p paths] eqn:Hg; cbn [snd].
  - destruct (if parenthesised g then false else c); by repeat split.
  - apply add_paths_settings.
Qed.

Lemma source_loop_settings w t_key uc sp c t globs :
  same_settings t (source_loop w t_key uc sp c t globs).2.
Proof.
  revert t. induction globs as [|g globs IH]; intros t; cbn [source_loop].
  - apply same_settings_refl.
  - pose proof (source_step_settings w t_key uc sp c t g) as H1.
    destruct (source_step w t_key uc sp c t g) as [ev t1]. cbn [snd] in H1.
    specialize (IH t1).
    destruct (source_loop w t_key uc sp c t1 globs) as [ev' t2]. cbn [snd] in *.
    by eapply same_settings_trans.
Qed.

Lemma zero_source_check_settings c t : same_settings t (zero_source_check c t).
Proof. unfold zero_source_check. destruct (bool_decide _); by repeat split. Qed.

Lemma resolve_compress_settings w t_key compress t ev t' :
  resolve_compress w t_key compress t = (ev, inr t') →
  same_settings t t'
  ∧ (truthy (RoseArchTarget.compress_scheme t') = true →
     RoseArchTarget.status t' ≠ Some ST_BAD →
     w_get_handler w (default "" (RoseArchTarget.compress_scheme t')) = true).
Proof.
  unfold resolve_compress. destruct (truthy compress) eqn:Ht; simpl.
  - destruct (w_get_handler w _) eqn:Hh; simpl; intros [= _ <-];
      (split; [by repeat split|]); simpl; [done|]. by intros _ [].
  - destruct (split_first _ _) as [[h tail]|];
      [destruct (w_get_handler w tail) eqn:Hh|];
      simpl; intros [= _ <-]; (split; [by repeat split|]); simpl;
      try done; by rewrite Ht.
Qed.

Lemma get_conf_compulsory w config t_node key v :
  _get_conf w config t_node key true None = inr v → ∃ s, v = Some s.
Proof.
  unfold _get_conf. cbv zeta. cbn [andb].
  destruct (get_value config t_node key None) as [x|]; [|done].
  destruct (truthy (Some x)); cbn [negb]; [|done].
  destruct (w_env_var_process w x); [|done]. intros [= <-]. by eexists.
Qed.

Lemma rename_source_origin w n fmt parser s s' :
  rename_source w n fmt parser s = inr s' → same_origin s s'.
Proof.
  unfold rename_source. destruct (format _ _); try done.
  by intros [= <-].
Qed.

Lemma rename_list_origin w n fmt parser l l' :
  rename_list w n fmt parser l = inr l' →
  Forall2 (λ x y, x.1 = y.1 ∧ same_origin x.2 y.2) l l'.
Proof.
  revert l'. induction l as [|[k s] l IH]; intros l'; simpl.
  - intros [= <-]. constructor.
  - destruct (rename_source w n fmt parser s) as [e|s'] eqn:Hs; [done|].
    destruct (rename_list w n fmt parser l) as [e|r]; [done|].
    intros [= <-]. constructor; [|by apply IH].
    split; [done|]. by eapply rename_source_origin.
Qed.

Lemma list_to_map_Forall2 (P : Source → Source → Prop)
    (l l' : list (string * Source)) :
  Forall2 (λ x y, x.1 = y.1 ∧ P x.2 y.2) l l' →
  ∀ k, match (list_to_map l : gmap string Source) !! k,
             (list_to_map l' : gmap string Source) !! k with
       | Some s, Some s' => P s s'
       | None, None => True
       | _, _ => False
       end.
Proof.
  induction 1 as [|[k0 s0] [k1 s1] l l' [Hk HP] _ IH]; intros k.
  - by rewrite !list_to_map_nil, !lookup_empty.
  - cbn [fst snd] in *. subst k1. rewrite !list_to_map_cons.
    destruct (decide (k = k0)) as [->|Hne].
    + by rewrite !lookup_insert_eq.
    + rewrite !lookup_insert_ne by done. apply IH.
Qed.

Lemma set_sources_same (t : Target) :
  RoseArchTarget.set_sources t (RoseArchTarget.sources t) = t.
Proof. by destruct t. Qed.

Lemma rename_sources_frame w config t_node t t' :
  rename_sources w config t_node t = inr t' →
  t' = RoseArchTarget.set_sources t (RoseArchTarget.sources t')
  ∧ (∀ k, match RoseArchTarget.sources t !! k, RoseArchTarget.sources t' !! k with
          | Some s, Some s' => same_origin s s'
          | None, None => True
          | _, _ => False
          end)
  ∧ (∀ rf, _get_conf w config t_node "rename-format" false None = inr rf →
           truthy rf = false → t' = t).
Proof.
  unfold rename_sources.
  destruct (_get_conf w config t_node "rename-format" false None) as [e|rf]; [done|].
  destruct (truthy rf) eqn:Hrf.
  2:{ intros [= <-]. split; [by rewrite set_sources_same|]. split; [|done].
      intros k. by destruct (RoseArchTarget.sources t !! k). }
  destruct (_get_conf w config t_node "rename-parser" false None) as [e|rp]; [done|].
  match goal with |- context [match ?c with inl _ => _ | inr _ => _ end] =>
    destruct c as [e|parser] end; [done|].
  destruct (rename_list _ _ _ _ _) as [e|l'] eqn:Hl; [done|].
  intros [= <-]. apply rename_list_origin in Hl.
  split; [done|]. split.
  - intros k. pose proof (list_to_map_Forall2 _ _ _ Hl k) as H.
    by rewrite list_to_map_to_list in H.
  - intros rf' [= <-]. congruence.
Qed.

Lemma check_format_ok what fmt keys t ev t' :
  check_format what fmt keys t = (ev, inr t') →
  RoseArchTarget.status t' = None →
  ∃ f s, fmt = Some f ∧ format f keys = FmtOk s.
Proof.
  unfold check_format. destruct fmt as [f|]; [|done].
  destruct (format f keys) as [s| | |] eqn:Hf; cbn; try done.
  - intros _ _. by exists f, s.
  - by intros [= _ <-].
Qed.

Lemma setup_inv_full w config t_key s_key_tail t_node c ev t :
  _run_target_setup w config t_key s_key_tail t_node c = (ev, inr t) →
  ∃ prefix cf sef t0 update_check source_prefix globs compress ev2 t3,
    _get_conf w config t_node "target-prefix" false (Some "") = inr prefix
    ∧ _get_conf w config t_node "command-format" true None = inr (Some cf)
    ∧ _get_conf w config t_node "source-edit-format" false (Some "") = inr sef
    ∧ RoseArchTarget.name t0 = default "" prefix ++ s_key_tail
    ∧ RoseArchTarget.command_format t0 = Some cf
    ∧ RoseArchTarget.source_edit_format t0 = sef
    ∧ RoseArchTarget.work_source_path t0 = None
    ∧ RoseArchTarget.sources t0 = ∅
    ∧ (RoseArchTarget.status t0 = None ∨ RoseArchTarget.status t0 = Some ST_BAD)
    ∧ resolve_compress w t_key compress
        (zero_source_check c
           (source_loop w t_key update_check (default "" source_prefix) c t0 globs).2)
      = (ev2, inr t3)
    ∧ rename_sources w config t_node t3 = inr t
    ∧ (RoseArchTarget.status t0 = None →
       (∃ s, format cf (<["sources" := VStr ""]> (<["target" := VStr ""]> ∅))
             = FmtOk s)
       ∧ (∃ f s, sef = Some f
                 ∧ format f (<["in" := VStr ""]> (<["out" := VStr ""]> ∅))
                   = FmtOk s)).
Proof.
  unfold _run_target_setup. intros H.
  apply bindW_inr in H as (? & target_prefix & ? & [Htp _]%liftW_inr & H & _).
  apply bindW_inr in H as (? & command_format & ? & [Hcf _]%liftW_inr & H & _).
  destruct (get_conf_compulsory _ _ _ _ _ Hcf) as [cf ->].
  apply bindW_inr in H as (? & ta & ? & Ha & H & _).
  apply bindW_inr in H as (? & source_edit_format & ? & [Hsef _]%liftW_inr & H & _).
  apply bindW_inr in H as (? & tb & ? & Hb & H & _).
  apply bindW_inr in H as (? & update_check & ? & [Hu _]%liftW_inr & H & _).
  destruct (negb (w_get_checksum_func w update_check)); [done|].
  apply bindW_inr in H as (? & source_prefix & ? & [Hp _]%liftW_inr & H & _).
  apply bindW_inr in H as (? & source & ? & [Hs _]%liftW_inr & H & _).
  destruct (w_shlex_split w (default "" source)) as [globs|] eqn:Hg; [|done].
  apply bindW_inr in H as (? & tc & ? & Hc & H & _).
  apply bindW_inr in H as (? & compress & ? & [Hz _]%liftW_inr & H & _).
  apply bindW_inr in H as (ev2 & t3 & ? & Hr & H & _).
  apply liftW_inr in H as [H _].
  exists target_prefix, cf, source_edit_format, tb, update_check, source_prefix,
    globs, compress, ev2, t3.
  assert (tc = (source_loop w t_key update_check (default "" source_prefix) c
                  tb globs).2) as <-.
  { destruct (source_loop _ _ _ _ _ tb globs) as [evs ts]. by injection Hc as _ <-. }
  pose proof (check_format_ok _ _ _ _ _ _ Ha) as Hfa.
  pose proof (check_format_ok _ _ _ _ _ _ Hb) as Hfb.
  apply check_format_inr in Ha, Hb.
  assert (Hback : RoseArchTarget.status tb = None → RoseArchTarget.status ta = None).
  { destruct Hb as [->| ->]; [done|]. by intros [=]. }
  assert (Hfmt : RoseArchTarget.status tb = None →
                 (∃ s, format cf (<["sources" := VStr ""]>
                                    (<["target" := VStr ""]> ∅)) = FmtOk s)
                 ∧ (∃ f s, source_edit_format = Some f
                           ∧ format f (<["in" := VStr ""]>
                                         (<["out" := VStr ""]> ∅)) = FmtOk s)).
  { intros Hnone. split.
    - destruct (Hfa (Hback Hnone)) as (f & s & [= <-] & Hf). by exists s.
    - apply (Hfb Hnone). }
  clear Hfa Hfb Hback.
  destruct Hb as [->| ->]; destruct Ha as [->| ->]; cbn in *;
    repeat split; auto; by apply Hfmt.
Qed.

Lemma pointwise_empty (a b : gmap string Source) :
  (∀ k, match a !! k, b !! k with
        | Some s, Some s' => same_origin s s'
        | None, None => True
        | _, _ => False
        end) →
  (a = ∅ ↔ b = ∅) ∧ (keyed a → keyed b).
Proof.
  intros H. split; [split|].
  - intros ->. apply map_empty. intros k. specialize (H k).
    rewrite lookup_empty in H. by destruct (b !! k).
  - intros ->. apply map_empty. intros k. specialize (H k).
    rewrite lookup_empty in H. by destruct (a !! k).
  - intros Hk k s' Hs'. specialize (H k). rewrite Hs' in H.
    destruct (a !! k) as [s|] eqn:Ha; [|done].
    destruct H as (-> & _). by apply Hk.
Qed.

Lemma setup_post (w : World) (config : gmap string ConfigNode)
    (t_key s_key_tail : string) (t_node : ConfigNode) (c : bool)
    (ev : list Action) (t : Target) :
  _run_target_setup w config t_key s_key_tail t_node c = (ev, inr t) →
  (∃ prefix cf,
     _get_conf w config t_node "target-prefix" false (Some "") = inr prefix
     ∧ RoseArchTarget.name t = default "" prefix ++ s_key_tail
     ∧ _get_conf w config t_node "command-format" true None = inr (Some cf)
     ∧ RoseArchTarget.command_format t = Some cf)
  ∧ _get_conf w config t_node "source-edit-format" false (Some "")
    = inr (RoseArchTarget.source_edit_format t)
  ∧ RoseArchTarget.command_rc t = 0%Z
  ∧ RoseArchTarget.work_source_path t = None
  ∧ keyed (RoseArchTarget.sources t)
  ∧ (RoseArchTarget.status t = None ∨ RoseArchTarget.status t = Some ST_BAD
     ∨ RoseArchTarget.status t = Some ST_NULL)
  ∧ (RoseArchTarget.status t = None → RoseArchTarget.sources t ≠ ∅)
  ∧ (RoseArchTarget.status t = Some ST_NULL →
     RoseArchTarget.sources t = ∅ ∧ c = false)
  ∧ (RoseArchTarget.sources t = ∅ → c = true →
     RoseArchTarget.status t = Some ST_BAD)
  ∧ (truthy (RoseArchTarget.compress_scheme t) = true →
     RoseArchTarget.status t ≠ Some ST_BAD →
     w_get_handler w (default "" (RoseArchTarget.compress_scheme t)) = true)
  ∧ Forall is_report ev.
Proof.
  intros Hsetup.
  pose proof (setup_fresh _ _ _ _ _ _ _ _ Hsetup) as (Hrc & Hkeyed & Hstatus).
  pose proof (setup_reports w config t_key s_key_tail t_node c) as Hrep.
  unfold reports in Hrep. rewrite Hsetup in Hrep. cbn [fst] in Hrep.
  apply setup_inv_full in Hsetup
    as (prefix & cf & sef & t0 & uc & sp & gl & compress & ev2 & t3
        & Htp & Hcf & Hsef & Hn0 & Hcf0 & Hsef0 & Hw0 & Hsrc0 & Hst0 & Hc & Hr
        & Hfmt).
  destruct (source_loop_spec w t_key uc (default "" sp) c t0 gl)
    as (_ & _ & _ & _ & Hst1).
  pose proof (source_loop_settings w t_key uc (default "" sp) c t0 gl) as Hs1.
  set (t1 := (source_loop _ _ _ _ _ t0 gl).2) in *.
  destruct (zero_source_check_spec c t1) as (_ & Hsrc2 & Hz0 & Hz1).
  pose proof (zero_source_check_settings c t1) as Hs2.
  pose proof (resolve_compress_spec _ _ _ _ _ _ Hc) as (_ & Hsrc3 & Hst3).
  apply resolve_compress_settings in Hc as [Hs3 Hh3].
  apply rename_sources_frame in Hr as (Heq & Hpt & _).
  apply pointwise_empty in Hpt as [Hempty _].
  pose proof (same_settings_trans _ _ _ (same_settings_trans _ _ _ Hs1 Hs2) Hs3)
    as (Hn & Hcfm & _ & Hse & Hws).
  assert (Hst : RoseArchTarget.status t = RoseArchTarget.status t3)
    by (rewrite Heq; reflexivity).
  assert (Hcs : RoseArchTarget.compress_scheme t = RoseArchTarget.compress_scheme t3)
    by (rewrite Heq; reflexivity).
  assert (Hnm : RoseArchTarget.name t = RoseArchTarget.name t3)
    by (rewrite Heq; reflexivity).
  assert (Hcm : RoseArchTarget.command_format t = RoseArchTarget.command_format t3)
    by (rewrite Heq; reflexivity).
  assert (Hsf : RoseArchTarget.source_edit_format t
                = RoseArchTarget.source_edit_format t3)
    by (rewrite Heq; reflexivity).
  assert (Hwp : RoseArchTarget.work_source_path t
                = RoseArchTarget.work_source_path t3)
    by (rewrite Heq; reflexivity).
  assert (Hsrc : RoseArchTarget.sources t = ∅ ↔ RoseArchTarget.sources t1 = ∅).
  { rewrite <- Hempty, Hsrc3, Hsrc2. done. }
  split. { exists prefix, cf. repeat split; congruence. }
  split; [congruence|]. split; [done|]. split; [congruence|].
  split; [done|]. split; [done|].
  rewrite Hst, Hcs, Hst3.
  split; [|split; [|split; [|split; [|done]]]].
  - intros Hnone He. apply Hsrc in He.
    destruct (_ && _); [done|]. rewrite (Hz0 He) in Hnone. done.
  - intros Hnull. destruct (_ && _); [done|].
    destruct (decide (RoseArchTarget.sources t1 = ∅)) as [He|He].
    + split; [by apply Hsrc|]. rewrite (Hz0 He) in Hnull. by destruct c.
    + exfalso. rewrite (Hz1 He) in Hnull.
      destruct Hst1 as [H1|H1]; rewrite H1 in Hnull; [|done].
      destruct Hst0 as [H0|H0]; rewrite H0 in Hnull; done.
  - intros He%Hsrc ->. destruct (_ && _); [done|]. by rewrite (Hz0 He).
  - intros Htr Hbad. apply Hh3; [done|]. rewrite Hst3. exact Hbad.
Qed.

(** X13. What a target is when its set-up returns.  Its name is the
    processed target-prefix followed by the key tail; it carries the
    processed command-format and source-edit-format, return code 0 and no
    consolidated artifact; its sources are keyed by checksum; its status is
    unset, BAD or NULL; a target whose status is unset - one the update
    step will archive - has at least one source; a NULL target has none
    and is optional; a compulsory target without sources is BAD; unless the
    target is BAD, a non-empty compression scheme has a handler; and the
    set-up has done nothing but report. *)
Theorem setup_postcondition (w : World) (config : gmap string ConfigNode)
    (t_key s_key_tail : string) (t_node : ConfigNode) (c : bool)
    (ev : list Action) (t : Target) :
  _run_target_setup w config t_key s_key_tail t_node c = (ev, inr t) →
  (∃ prefix cf,
     _get_conf w config t_node "target-prefix" false (Some "") = inr prefix
     ∧ RoseArchTarget.name t = default "" prefix ++ s_key_tail
     ∧ _get_conf w config t_node "command-format" true None = inr (Some cf)
     ∧ RoseArchTarget.command_format t = Some cf)
  ∧ _get_conf w config t_node "source-edit-format" false (Some "")
    = inr (RoseArchTarget.source_edit_format t)
  ∧ RoseArchTarget.command_rc t = 0%Z
  ∧ RoseArchTarget.work_source_path t = None
  ∧ keyed (RoseArchTarget.sources t)
  ∧ (RoseArchTarget.status t = None ∨ RoseArchTarget.status t = Some ST_BAD
     ∨ RoseArchTarget.status t = Some ST_NULL)
  ∧ (RoseArchTarget.status t = None → RoseArchTarget.sources t ≠ ∅)
  ∧ (RoseArchTarget.status t = Some ST_NULL →
     RoseArchTarget.sources t = ∅ ∧ c = false)
  ∧ (RoseArchTarget.sources t = ∅ → c = true →
     RoseArchTarget.status t = Some ST_BAD)
  ∧ (truthy (RoseArchTarget.compress_scheme t) = true →
     RoseArchTarget.status t ≠ Some ST_BAD →
     w_get_handler w (default "" (RoseArchTarget.compress_scheme t)) = true)
  ∧ Forall is_report ev.
Proof. apply setup_post. Qed.

Lemma setup_postcondition_witness :
  RoseArchTarget.command_rc t_one = 0%Z
  ∧ RoseArchTarget.work_source_path t_one = None
  ∧ keyed (RoseArchTarget.sources t_one).
Proof.
  pose proof (setup_postcondition w_one conf_one "arch:out" "out"
                (node [("source", "a*");
                       ("command-format", "cp %(sources)s %(target)s")])
                true [] t_one) as H.
  destruct H as (_ & _ & Hrc & Hw & Hk & _).
  - vm_compute. reflexivity.
  - by repeat split.
Defined.

(** X14. Renaming changes names only.  When the rename step returns,
    the target has the same sources under the same checksums, each with
    the original name, original path and path it had; nothing else in the
    target changes; and when no rename-format is configured the target is
    returned as it is. *)
Theorem rename_changes_names_only (w : World) (config : gmap string ConfigNode)
    (t_node : ConfigNode) (t t' : Target) :
  rename_sources w config t_node t = inr t' →
  t' = RoseArchTarget.set_sources t (RoseArchTarget.sources t')
  ∧ (∀ k, match RoseArchTarget.sources t !! k, RoseArchTarget.sources t' !! k with
          | Some s, Some s' => same_origin s s'
          | None, None => True
          | _, _ => False
          end)
  ∧ (∀ rf, _get_conf w config t_node "rename-format" false None = inr rf →
           truthy rf = false → t' = t).
Proof. apply rename_sources_frame. Qed.

Lemma rename_changes_names_only_witness :
  rename_sources w_one conf_cycle node_cycle t_one = inr t_renamed
  ∧ t_renamed
    = RoseArchTarget.set_sources t_one (RoseArchTarget.sources t_renamed).
Proof.
  split; [vm_compute; reflexivity|].
  apply (rename_changes_names_only w_one conf_cycle node_cycle t_one t_renamed).
  vm_compute. reflexivity.
Defined.

(** X15. Sources are kept by checksum, so files of equal content
    collapse: after the entries that [get_checksum] returns for a matched
    path have been added, the source held under a checksum is the one built
    from the last entry with that checksum - earlier ones are overwritten -
    and it is the one the target had before when no entry has it.  Entries
    without checksum (directories) add nothing. *)
Theorem add_checksums_last_wins (name path : string) (t : Target)
    (l : list (string * option string)) (c : string) :
  RoseArchTarget.sources (add_checksums name path t l) !! c
  = match last (filter (λ pc, pc.2 = Some c) l) with
    | Some pc => Some (found_source name path pc.1 c)
    | None => RoseArchTarget.sources t !! c
    end.
Proof.
  unfold add_checksums. revert t.
  induction l as [|[rel oc] l IH]; intros t; [done|].
  cbn [foldl]. rewrite IH. cbn [snd fst].
  rewrite filter_cons. cbn [snd].
  destruct oc as [c'|].
  - destruct (decide (Some c' = Some c)) as [[= ->]|Hne].
    + rewrite last_cons.
      destruct (last (filter _ l)); [done|].
      cbn [RoseArchTarget.sources RoseArchTarget.set_sources].
      by rewrite lookup_insert_eq.
    + destruct (last (filter _ l)); [done|].
      cbn [RoseArchTarget.sources RoseArchTarget.set_sources].
      rewrite lookup_insert_ne; [done|congruence].
  - rewrite decide_False by done. done.
Qed.

End SetupProperties.

(** ** The run as a whole *)

Module RunProperties.
Import PyStr Arch Notions Examples UpdateFacts DaoFacts RunLemmas SetupFacts.
Import SecondRun UpdateProperties SetupProperties.

Lemma split_first_app c s h t :
  split_first c s = Some (h, t) → s = h ++ String c t.
Proof.
  revert h. induction s as [|a s IH]; intros h; cbn [split_first]; [done|].
  destruct (Ascii.eqb_spec a c) as [->|Hne].
  - by intros [= <- <-].
  - destruct (split_first c s) as [[h' t']|]; [|done].
    intros [= <- <-]. by rewrite (IH h' eq_refl) at 1.
Qed.

(** X16. Which sections of the configuration are targets: a section is
    set up as a target exactly when it is not ignored and its key is
    [arch:] followed by a non-empty tail, which is then the key tail; the
    tail may itself contain colons, and the section [arch] of the run-level
    defaults is never a target. *)
Theorem target_key_spec (t_key : string) (t_node : ConfigNode) (tail : string) :
  target_key t_key t_node = Some tail
  ↔ is_ignored t_node = false ∧ t_key = "arch:" ++ tail ∧ tail ≠ "".
Proof.
  unfold target_key. split.
  - destruct (is_ignored t_node); [done|]. cbn [orb].
    destruct (negb (contains ":" t_key)); [done|].
    destruct (split_first ":" t_key) as [[h t]|] eqn:Hs; [|done].
    apply split_first_app in Hs.
    destruct (String.eqb_spec h SECTION) as [->|]; [|done]. cbn [negb orb].
    destruct (String.eqb_spec t "") as [|Hne]; [done|].
    intros [= <-]. by repeat split.
  - intros (-> & -> & Hne).
    change ("arch:" ++ tail)
      with (String "a" (String "r" (String "c" (String "h" (String ":" tail))))).
    cbn. destruct (String.eqb_spec tail "") as [|_]; done.
Qed.

Lemma resolve_loop_tails w config items tails rs :
  resolve_loop w config items tails = (rs, None) →
  NoDup (omap (processed_tail w) items)
  ∧ (∀ x, x ∈ omap (processed_tail w) items → x ∉ tails)
  ∧ Forall2 (λ tail r, ∃ pre, RoseArchTarget.name r.2 = pre ++ tail)
      (omap (processed_tail w) items) rs
  ∧ length (omap (processed_tail w) items)
    = length (omap (λ i, target_key i.1 i.2) items).
Proof.
  revert tails rs. induction items as [|[t_key t_node] items IH]; intros tails rs.
  - intros [= <-]. cbn. split; [constructor|].
    split; [by intros x ?%elem_of_nil|]. split; [constructor|done].
  - cbn [resolve_loop omap list_omap fst snd].
    destruct (target_key t_key t_node) as [tail|] eqn:Hk.
    2:{ assert (processed_tail w (t_key, t_node) = None) as ->
          by (unfold processed_tail; cbn [fst snd]; by rewrite Hk).
        apply IH. }
    destruct (w_env_var_process w tail) as [tail'|] eqn:He; [|done].
    set (tl := if parenthesised tail' then slice_1_m1 tail' else tail').
    assert (processed_tail w (t_key, t_node) = Some tl) as ->
      by (unfold processed_tail; cbn [fst snd]; by rewrite Hk, He).
    destruct (bool_decide (tl ∈ tails)) eqn:Hin; [done|].
    apply bool_decide_eq_false in Hin.
    destruct (_run_target_setup w config t_key tl t_node
                (negb (parenthesised tail'))) as [ev [e|t]] eqn:Hset; [done|].
    destruct (resolve_loop w config items ({[tl]} ∪ tails)) as [rs' x] eqn:Hr.
    intros [= <- ->].
    destruct (IH _ _ Hr) as (Hnd & Hnot & Hf & Hlen).
    split; [|split; [|split]].
    + constructor; [|done]. intros Hx. apply (Hnot _ Hx).
      by apply elem_of_union_l, elem_of_singleton.
    + intros x [->|Hx]%elem_of_cons; [done|].
      intros Ht. apply (Hnot _ Hx). by apply elem_of_union_r.
    + constructor; [|done]. cbn [snd].
      apply setup_inv_full in Hset
        as (prefix & cf & sef & t0 & uc & sp & gl & compress & ev2 & t3
            & _ & _ & _ & Hn0 & _ & _ & _ & _ & _ & Hc & Hren & _).
      pose proof (source_loop_settings w t_key uc (default "" sp)
                    (negb (parenthesised tail')) t0 gl) as (Hn1 & _).
      pose proof (zero_source_check_settings (negb (parenthesised tail'))
                    (source_loop w t_key uc (default "" sp)
                       (negb (parenthesised tail')) t0 gl).2) as (Hn2 & _).
      apply resolve_compress_settings in Hc as [(Hn3 & _) _].
      apply rename_sources_frame in Hren as (Heq & _).
      exists (default "" prefix). rewrite Heq.
      cbn [RoseArchTarget.name RoseArchTarget.set_sources]. congruence.
    + cbn [length]. by rewrite Hlen.
Qed.

(** X17. One target per key tail.  When the set-up loop completes,
    every entry of the configuration that is a target has been set up; the
    key tails of these entries - environment variables substituted,
    enclosing parentheses removed - are pairwise different (a repeated tail
    ends the loop with an exception instead); and the targets it returns
    are named, in order, by some target-prefix followed by these tails. *)
Theorem setup_loop_key_tails (w : World) (config : gmap string ConfigNode)
    (items : list (string * ConfigNode)) (st st' : State) (ts : list Target) :
  setup_loop w config items ∅ [] st = (st', inr ts) →
  NoDup (omap (processed_tail w) items)
  ∧ Forall2 (λ tail n, ∃ pre, n = pre ++ tail)
      (omap (processed_tail w) items) (RoseArchTarget.name <$> ts)
  ∧ length ts = length (omap (λ i, target_key i.1 i.2) items).
Proof.
  rewrite setup_loop_resolve.
  destruct (resolve_loop w config items ∅) as [rs x] eqn:Hr.
  pose proof (diff_all_names rs st) as Hnames.
  destruct (diff_all rs st) as [st1 ts1]. cbn [snd] in Hnames.
  destruct x as [[ev e]|]; [done|]. intros [= <- <-].
  destruct (resolve_loop_tails _ _ _ _ _ Hr) as (Hnd & _ & Hf & Hlen).
  split; [done|]. cbn [app]. split.
  - rewrite Hnames, <- list_fmap_compose. by apply Forall2_fmap_r.
  - rewrite <- Hlen. apply Forall2_length in Hf. rewrite Hf.
    rewrite <- (length_fmap RoseArchTarget.name ts1), Hnames.
    by rewrite !length_fmap.
Qed.

Lemma setup_loop_key_tails_witness :
  omap (processed_tail w_one) (sorted_items conf_dup) = ["ab"; "b"]
  ∧ NoDup (omap (processed_tail w_one) (sorted_items conf_dup)).
Proof.
  split; [vm_compute; reflexivity|].
  apply (setup_loop_key_tails w_one conf_dup (sorted_items conf_dup)
           (st0 empty_db)
           (setup_loop w_one conf_dup (sorted_items conf_dup) ∅ []
              (st0 empty_db)).1
           (returned (setup_loop w_one conf_dup (sorted_items conf_dup) ∅ []
                        (st0 empty_db)))).
  vm_compute. reflexivity.
Defined.

Lemma filter_is_sublist {A} (P : A → Prop) `{∀ x, Decision (P x)} (l : list A) :
  filter P l `sublist_of` l.
Proof.
  induction l as [|x l IH]; [constructor|].
  rewrite filter_cons. destruct (decide (P x)); by constructor.
Qed.

Lemma report_setup_action a : is_report a → setup_action a.
Proof. by destruct a. Qed.

Lemma report_update_action a : is_report a → update_action a.
Proof. by destruct a. Qed.

Lemma body_update_action a : body_action a → update_action a.
Proof. by destruct a. Qed.

Lemma diff_step_trace r st :
  ∃ l, extends st (diff_step r st).1 l ∧ Forall setup_action l
       ∧ T_TARGETS (st_db (diff_step r st).1) `sublist_of` T_TARGETS (st_db st)
       ∧ T_SOURCES (st_db (diff_step r st).1) `sublist_of` T_SOURCES (st_db st).
Proof.
  destruct (diff_step_cases r st) as [[_ ->]|[_ ->]]; cbn [fst].
  - exists []. split; [apply extends_refl|]. by repeat split.
  - exists [ADbDelete (RoseArchTarget.name r)]. split; [reflexivity|].
    split; [by repeat constructor|].
    split; apply filter_is_sublist.
Qed.

Lemma setup_loop_trace w config items tails acc st :
  ∃ l, extends st (setup_loop w config items tails acc st).1 l
       ∧ Forall setup_action l
       ∧ T_TARGETS (st_db (setup_loop w config items tails acc st).1)
           `sublist_of` T_TARGETS (st_db st)
       ∧ T_SOURCES (st_db (setup_loop w config items tails acc st).1)
           `sublist_of` T_SOURCES (st_db st).
Proof.
  revert tails acc st.
  induction items as [|[t_key t_node] items IH]; intros tails acc st;
    cbn [setup_loop].
  - exists []. split; [apply extends_refl|]. by repeat split.
  - destruct (target_key t_key t_node) as [tail|]; [|apply IH].
    destruct (w_env_var_process w tail) as [tail'|].
    2:{ exists []. split; [apply extends_refl|]. by repeat split. }
    destruct (bool_decide _).
    { exists []. split; [apply extends_refl|]. by repeat split. }
    match goal with |- context [_run_target_setup ?a ?b ?c ?d ?e ?f] =>
      pose proof (setup_reports a b c d e f) as Hrep;
      destruct (_run_target_setup a b c d e f) as [ev [e0|t]] end;
      unfold reports in Hrep; cbn [fst] in Hrep.
    + exists ev. split; [reflexivity|]. split; [|by split].
      eapply Forall_impl; [exact Hrep|]. apply report_setup_action.
    + destruct (diff_step_trace t (emits ev st)) as (l1 & He1 & Hq1 & Ht1 & Hs1).
      destruct (diff_step t (emits ev st)) as [st1 t1]. cbn [fst] in *.
      match goal with |- context [setup_loop w config items ?a ?b st1] =>
        destruct (IH a b st1) as (l2 & He2 & Hq2 & Ht2 & Hs2) end.
      exists ((ev ++ l1) ++ l2)%list. split; [|split; [|split]].
      * eapply extends_trans; [|exact He2].
        eapply extends_trans; [|exact He1]. reflexivity.
      * repeat apply Forall_app_2; try done.
        eapply Forall_impl; [exact Hrep|]. apply report_setup_action.
      * by etrans.
      * by etrans.
Qed.

Lemma update_trace w t st :
  ∃ l, extends st (_run_target_update w t st).1 l ∧ Forall update_action l.
Proof.
  destruct (decide (RoseArchTarget.status t = Some ST_OLD)) as [Ho|Ho].
  { rewrite (update_old w t st Ho). eexists. split; [reflexivity|].
    by repeat constructor. }
  destruct (status_in_bad_null t) eqn:Hb.
  { destruct (update_bad_null w t st Hb) as (rc & level & ->).
    exists [AEvent (RoseArchEvent (RoseArchTarget.set_command_rc t rc) None);
            AEventErr (RoseArchEvent (RoseArchTarget.set_command_rc t rc) None)
              level].
    split; [|by repeat constructor].
    unfold extends, emit. cbn [fst st_trace]. by rewrite <- app_assoc. }
  assert (Hp : pending t) by done.
  destruct (RoseArchDAO.insert (st_db st) (RoseArchTarget.set_command_rc t 1))
    as [db1|] eqn:Hi.
  2:{ rewrite (update_pending_conflict w t st Hp Hi). exists [].
      split; [apply extends_refl|constructor]. }
  destruct (update_pending_trace w t st db1 Hp Hi) as (mid & rest & He & Hm & Hr).
  eexists. split; [exact He|].
  constructor; [done|]. constructor; [done|].
  apply Forall_app_2.
  - eapply Forall_impl; [exact Hm|]. apply body_update_action.
  - constructor; [done|].
    eapply Forall_impl; [exact Hr|]. apply report_update_action.
Qed.

Lemma update_loop_trace w ts st :
  ∃ l, extends st (update_loop w ts st).1 l ∧ Forall update_action l.
Proof.
  revert st. induction ts as [|t ts IH]; intros st; cbn [update_loop].
  - exists []. split; [apply extends_refl|constructor].
  - destruct (update_trace w t st) as (l1 & He1 & Hq1).
    destruct (_run_target_update w t st) as [st1 [e|t1]]; cbn [fst] in *.
    { by exists l1. }
    destruct (IH st1) as (l2 & He2 & Hq2).
    exists (l1 ++ l2)%list.
    split; [|by apply Forall_app_2].
    destruct (update_loop w ts st1) as [st2 [e|out]]; cbn [fst] in *;
      by eapply extends_trans.
Qed.

Lemma run_targets_trace w config st :
  ∃ l1, Forall setup_action l1
    ∧ ((∃ e, (_run_targets w config st).2 = inl e
             ∧ extends st (_run_targets w config st).1 l1
             ∧ T_TARGETS (st_db (_run_targets w config st).1)
                 `sublist_of` T_TARGETS (st_db st)
             ∧ T_SOURCES (st_db (_run_targets w config st).1)
                 `sublist_of` T_SOURCES (st_db st))
       ∨ (∃ names l2,
            extends st (_run_targets w config st).1
              (l1 ++ ADbDeleteAll names :: l2)%list
            ∧ Forall update_action l2)).
Proof.
  unfold _run_targets.
  destruct (setup_loop_trace w config (sorted_items config) ∅ [] st)
    as (l1 & He1 & Hq1 & Ht1 & Hs1).
  exists l1. split; [done|].
  destruct (setup_loop w config (sorted_items config) ∅ [] st)
    as [st1 [e|ts]]; cbn [fst snd] in *.
  - left. by exists e.
  - right.
    destruct (update_loop_trace w (sort_targets ts)
                (delete_all_step (sort_targets ts) st1)) as (l2 & He2 & Hq2).
    exists (RoseArchTarget.name <$> sort_targets ts), l2. split; [|done].
    unfold extends in *. rewrite He2. unfold delete_all_step, with_db.
    cbn [st_trace]. rewrite He1. by rewrite <- !app_assoc.
Qed.

(** X18. A run has two phases that never mix.  First every target is
    set up and compared with the cache: this only reports and purges rows
    of single names.  Either the run ends with an exception having done
    only that - no command run, no file or directory touched, the cache
    having at most lost rows - or [delete_all] is issued once and only then
    are targets updated; nothing after it purges rows of a single name,
    issues [delete_all] again or changes directory. *)
Theorem run_phases (w : World) (config : gmap string ConfigNode) (st : State) :
  ∃ l1, Forall setup_action l1
    ∧ ((∃ e, (_run_targets w config st).2 = inl e
             ∧ extends st (_run_targets w config st).1 l1
             ∧ T_TARGETS (st_db (_run_targets w config st).1)
                 `sublist_of` T_TARGETS (st_db st)
             ∧ T_SOURCES (st_db (_run_targets w config st).1)
                 `sublist_of` T_SOURCES (st_db st))
       ∨ (∃ names l2,
            extends st (_run_targets w config st).1
              (l1 ++ ADbDeleteAll names :: l2)%list
            ∧ Forall update_action l2)).
Proof. apply run_targets_trace. Qed.

(** X19. With a suite name set, [run] changes directory exactly twice:
    into the suite directory before anything else, and back to the
    directory it started in as its last action - whether [_run] returns or
    raises.  Everything else happens in between. *)
Theorem run_restores_directory (w : World) (config : gmap string ConfigNode)
    (file0 : option Db) :
  truthy (w_suite_name w) = true →
  ∃ l, (run w config file0).1.2
       = (AChdir (w_get_suite_dir w (default "" (w_suite_name w)))
          :: l ++ [AChdir (w_getcwd w)])%list
     ∧ Forall (λ a, ∀ d, a ≠ AChdir d) l.
Proof.
  intros Ht. unfold run. rewrite Ht. cbn [negb]. cbv zeta.
  set (s0 := {| st_db := default empty_db (file (dao_init file0));
                st_trace := [AChdir (w_get_suite_dir w
                                       (default "" (w_suite_name w)))] |}).
  destruct (run_targets_trace w config s0)
    as (l1 & Hs & [(e & _ & Hext & _)|(names & l2 & Hext & Hu)]);
    unfold _run; revert Hext; unfold extends;
    destruct (_run_targets w config s0) as [st [e'|ts]];
    cbn [fst snd st_trace s0]; intros ->.
  1,2: exists l1; split; [done|];
       eapply Forall_impl; [exact Hs|]; intros a Ha d ->; done.
  1,2: exists (l1 ++ ADbDeleteAll names :: l2)%list; split; [done|];
       apply Forall_app_2;
       [ eapply Forall_impl; [exact Hs|]; intros a Ha d ->; done
       | constructor; [done|];
         eapply Forall_impl; [exact Hu|]; intros a Ha d ->; done ].
Qed.

Lemma run_restores_directory_witness :
  ∃ l, (run w_one conf_one None).1.2
       = (AChdir (w_get_suite_dir w_one (default "" (w_suite_name w_one)))
          :: l ++ [AChdir (w_getcwd w_one)])%list
     ∧ Forall (λ a, ∀ d, a ≠ AChdir d) l.
Proof. apply run_restores_directory. reflexivity. Defined.

Lemma insert_sorted_Sorted {A} (le : A → A → bool) (x : A) (l : list A) :
  (∀ a b, le a b = true ∨ le b a = true) →
  Sorted (λ a b, le a b = true) l →
  Sorted (λ a b, le a b = true) (insert_sorted le x l).
Proof.
  intros Htot. induction 1 as [|y l Hs IH Hhd]; cbn [insert_sorted].
  - by repeat constructor.
  - destruct (le y x) eqn:Hyx.
    + constructor; [done|]. destruct Hhd as [|z l' Hyz]; cbn [insert_sorted].
      { by constructor. }
      destruct (le z x); by constructor.
    + constructor; [by constructor|]. constructor.
      destruct (Htot x y); [done|congruence].
Qed.

Lemma py_sorted_Sorted {A} (le : A → A → bool) (l : list A) :
  (∀ a b, le a b = true ∨ le b a = true) →
  Sorted (λ a b, le a b = true) (py_sorted le l).
Proof.
  intros Htot. unfold py_sorted.
  assert (H : ∀ acc, Sorted (λ a b, le a b = true) acc →
                     Sorted (λ a b, le a b = true)
                       (foldl (λ acc x, insert_sorted le x acc) acc l)).
  { induction l as [|x l IH]; intros acc Hacc; cbn [foldl]; [done|].
    by apply IH, insert_sorted_Sorted. }
  apply H. constructor.
Qed.

(** X20. The targets of a run, as the update loop leaves them, are in
    the order of their names (not of their configuration keys): each name
    is less than or equal to the next in the order of strings. *)
Theorem final_targets_in_name_order (w : World)
    (config : gmap string ConfigNode) (st st' : State) (out : list Target) :
  _run_targets w config st = (st', inr out) →
  Sorted (λ a b, String.leb a b = true) (RoseArchTarget.name <$> out).
Proof.
  unfold _run_targets.
  destruct (setup_loop w config (sorted_items config) ∅ [] st) as [st1 [e|ts]];
    [done|].
  intros H.
  destruct (update_loop_names w (sort_targets ts)
              (delete_all_step (sort_targets ts) st1) (λ _, True))
    as [_ Hn].
  { split; by apply Forall_forall. }
  { by apply Forall_forall. }
  rewrite H in Hn. rewrite (Hn out eq_refl).
  unfold sort_targets. rewrite py_sorted_fmap.
  apply py_sorted_Sorted, String.leb_total.
Qed.

Lemma final_targets_in_name_order_witness :
  RoseArchTarget.name
    <$> returned (setup_loop w_one conf_three (sorted_items conf_three) ∅ []
                    (st0 empty_db))
  = ["za"; "b"; "ac"]
  ∧ RoseArchTarget.name <$> returned (_run_targets w_one conf_three (st0 empty_db))
    = ["ac"; "b"; "za"]
  ∧ Sorted (λ a b, String.leb a b = true)
      (RoseArchTarget.name
         <$> returned (_run_targets w_one conf_three (st0 empty_db))).
Proof.
  split; [vm_compute; reflexivity|]. split; [vm_compute; reflexivity|].
  apply (final_targets_in_name_order w_one conf_three (st0 empty_db)
           (_run_targets w_one conf_three (st0 empty_db)).1).
  vm_compute. reflexivity.
Defined.

End RunProperties.

(** ** The templates: set-up check and use *)

Module FormatProperties.
Import PyStr Arch Notions Examples UpdateFacts SetupFacts SetupProperties.

Lemma convert_sim m0 m c sp a0 a :
  arg_sim a0 a →
  match convert m0 c sp a0 with
  | inl e => ∀ s, e ≠ FmtOk s
  | inr (_, a0') => ∃ p a', convert m c sp a = inr (p, a') ∧ arg_sim a0' a'
  end.
Proof.
  intros Hs. unfold convert, not_enough.
  destruct (Ascii.eqb c "%"); [by eauto|].
  destruct a0 as [|v0|], a as [|v|]; cbn in Hs; try done; subst; cbv zeta.
  - destruct (Ascii.eqb c "s"); [do 2 eexists; split; [reflexivity|exact I]|].
    destruct (Ascii.eqb c "r"); [do 2 eexists; split; [reflexivity|exact I]|].
    destruct (contains c "iduoxX"); [done|].
    destruct (contains c "eEfFgG"); [done|].
    destruct (Ascii.eqb c "c"); done.
  - destruct (Ascii.eqb c "s"); [do 2 eexists; split; [reflexivity|exact I]|].
    destruct (Ascii.eqb c "r"); [do 2 eexists; split; [reflexivity|exact I]|].
    destruct (contains c "iduoxX"); [done|].
    destruct (contains c "eEfFgG"); [done|].
    destruct (Ascii.eqb c "c"); done.
Qed.

Lemma after_prec_sim m0 m c sp a0 a out0 out :
  arg_sim a0 a →
  next_sim (after_prec m0 c sp a0 out0) (after_prec m c sp a out).
Proof.
  intros Hs. unfold after_prec.
  destruct (contains c "hlL"); [cbn; by eauto|].
  pose proof (convert_sim m0 m c sp a0 a Hs) as H.
  destruct (convert m0 c sp a0) as [e|[p0 a0']]; [done|].
  destruct H as (p & a' & -> & H). cbn. by eauto.
Qed.

Lemma star_sim a s : star a ≠ FmtOk s.
Proof. by destruct a. Qed.

Lemma after_dot_sim m0 m c sp a0 a out0 out :
  arg_sim a0 a →
  next_sim (after_dot m0 c sp a0 out0) (after_dot m c sp a out).
Proof.
  intros Hs. unfold after_dot.
  destruct (Ascii.eqb c "*"); [intros s; apply star_sim|].
  destruct (is_digit c); [cbn; by eauto|].
  by apply after_prec_sim.
Qed.

Lemma after_width_sim m0 m c sp a0 a out0 out :
  arg_sim a0 a →
  next_sim (after_width m0 c sp a0 out0) (after_width m c sp a out).
Proof.
  intros Hs. unfold after_width.
  destruct (Ascii.eqb c "."); [cbn; by eauto|].
  by apply after_prec_sim.
Qed.

Lemma after_flags_sim m0 m c sp a0 a out0 out :
  arg_sim a0 a →
  next_sim (after_flags m0 c sp a0 out0) (after_flags m c sp a out).
Proof.
  intros Hs. unfold after_flags.
  destruct (Ascii.eqb c "*"); [intros s; apply star_sim|].
  destruct (is_digit c); [cbn; by eauto|].
  by apply after_width_sim.
Qed.

Lemma in_flags_sim m0 m c sp a0 a out0 out :
  arg_sim a0 a →
  next_sim (in_flags m0 c sp a0 out0) (in_flags m c sp a out).
Proof.
  intros Hs. unfold in_flags.
  destruct (Ascii.eqb c "-"); [cbn; by eauto|].
  destruct (contains c "+ #0"); [cbn; by eauto|].
  by apply after_flags_sim.
Qed.

Lemma step_sim m0 m c st a0 a out0 out :
  covers m0 m → arg_sim a0 a →
  next_sim (step m0 c st a0 out0) (step m c st a out).
Proof.
  intros Hm Hs. destruct st as [| |depth acc|sp|sp|sp|sp|sp]; cbn [step].
  - destruct (Ascii.eqb c "%"); cbn; by eauto.
  - destruct (Ascii.eqb c "("); [cbn; by eauto|]. by apply in_flags_sim.
  - destruct (Ascii.eqb c ")").
    + destruct depth as [|[|d]]; [cbn; by eauto| |cbn; by eauto].
      destruct (m0 !! acc) as [v0|] eqn:H0; [|done].
      destruct (Hm _ _ H0) as [-> [v ->]]. cbn.
      do 2 eexists; split; [reflexivity|done].
    + destruct (Ascii.eqb c "("); cbn; by eauto.
  - by apply in_flags_sim.
  - destruct (is_digit c); [|by apply after_width_sim].
    destruct (_ <? _)%N; [done|]. cbn. by eauto.
  - by apply after_dot_sim.
  - destruct (is_digit c); [|by apply after_prec_sim].
    destruct (prec sp) as [p|]; [|done].
    destruct (_ <? _)%N; [done|]. cbn. by eauto.
  - pose proof (convert_sim m0 m c sp a0 a Hs) as H.
    destruct (convert m0 c sp a0) as [e|[p0 a0']]; [done|].
    destruct H as (p & a' & -> & H). cbn. by eauto.
Qed.

Lemma run_sim m0 m fmt st a0 a out0 out s0 :
  covers m0 m → arg_sim a0 a →
  PyStr.run m0 fmt st a0 out0 = FmtOk s0 →
  ∃ s, PyStr.run m fmt st a out = FmtOk s.
Proof.
  intros Hm. revert st a0 a out0 out.
  induction fmt as [|c fmt IH]; intros st a0 a out0 out Hs; cbn [PyStr.run].
  - destruct st; try done. by eauto.
  - pose proof (step_sim m0 m c st a0 a out0 out Hm Hs) as H.
    destruct (step m0 c st a0 out0) as [st' a0' out0'|r]; cbn in H.
    + destruct H as (a' & out' & -> & Hs'). by apply IH.
    + intros ->. by destruct (H s0).
Qed.

(** A template that the set-up check accepts formats with any values
    for the keys of the check. *)
Lemma format_checked fmt m0 m s0 :
  covers m0 m → format fmt m0 = FmtOk s0 → ∃ s, format fmt m = FmtOk s.
Proof. intros Hm. unfold format. by apply run_sim. Qed.

Lemma covers_two (k1 k2 : string) (v1 v2 : PyVal) :
  covers (<[k1 := VStr ""]> (<[k2 := VStr ""]> ∅))
         (<[k1 := v1]> (<[k2 := v2]> ∅)).
Proof.
  intros k v0. destruct (decide (k1 = k)) as [->|H1].
  - rewrite !lookup_insert_eq. intros [= <-]. split; [done|by eexists].
  - rewrite !(lookup_insert_ne _ k1 k) by done.
    destruct (decide (k2 = k)) as [->|H2].
    + rewrite !lookup_insert_eq. intros [= <-]. split; [done|by eexists].
    + rewrite lookup_insert_ne by done. by rewrite lookup_empty.
Qed.

Lemma stage_source_exc w t wd s st f s0 x :
  RoseArchTarget.source_edit_format t = Some f →
  format f (<["in" := VStr ""]> (<["out" := VStr ""]> ∅)) = FmtOk s0 →
  (stage_source w t wd s st).2 = Some x →
  ∃ cmd rc, x = RosePopenError cmd rc ∧ rc ≠ 0%Z.
Proof.
  intros Hsef Hf. unfold stage_source. cbv zeta. rewrite Hsef.
  destruct (truthy (Some f)); [|done].
  match goal with |- context [format ?g ?m] =>
    destruct (format_checked f _ m s0 (covers_two _ _ _ _) Hf) as [cmd Hc];
    change (format g m) with (format f m); rewrite Hc end.
  destruct (Z.eqb_spec (w_popen_run w cmd).1.1 0) as [|Hne]; [done|].
  cbn [snd]. intros [= <-]. by eauto.
Qed.

Lemma stage_list_exc w t wd l acc st f s0 x :
  RoseArchTarget.source_edit_format t = Some f →
  format f (<["in" := VStr ""]> (<["out" := VStr ""]> ∅)) = FmtOk s0 →
  (stage_list w t wd l acc st).2 = Some x →
  ∃ cmd rc, x = RosePopenError cmd rc ∧ rc ≠ 0%Z.
Proof.
  intros Hsef Hf. revert acc st.
  induction l as [|[k s] l IH]; intros acc st; cbn [stage_list]; [done|].
  pose proof (stage_source_exc w t wd s st f s0) as Hs.
  destruct (stage_source w t wd s st) as [[st1 s1] e1]. cbn [snd] in Hs.
  destruct e1 as [e|]; [|apply IH].
  cbn [snd]. intros [= <-]. by apply Hs.
Qed.

Lemma stage_exc w t wd st f s0 :
  RoseArchTarget.source_edit_format t = Some f →
  format f (<["in" := VStr ""]> (<["out" := VStr ""]> ∅)) = FmtOk s0 →
  RoseArchTarget.command_format (stage w t wd st).1.2
  = RoseArchTarget.command_format t
  ∧ RoseArchTarget.compress_scheme (stage w t wd st).1.2
    = RoseArchTarget.compress_scheme t
  ∧ ∀ x, (stage w t wd st).2 = Some x →
         ∃ cmd rc, x = RosePopenError cmd rc ∧ rc ≠ 0%Z.
Proof.
  intros Hsef Hf. unfold stage. destruct (_ || _); [|done].
  pose proof (stage_list_exc w t wd (map_to_list (RoseArchTarget.sources t))
                (RoseArchTarget.sources t) st f s0 ) as Hl.
  destruct (stage_list _ _ _ _ _ _) as [[st1 srcs] e]. cbn [fst snd] in *.
  split; [done|]. split; [done|]. intros x Hx. by apply Hl.
Qed.

Lemma compress_exc w t wd st :
  (truthy (RoseArchTarget.compress_scheme t) = true →
   w_get_handler w (default "" (RoseArchTarget.compress_scheme t)) = true) →
  RoseArchTarget.command_format (compress w t wd st).1.2
  = RoseArchTarget.command_format t
  ∧ ∀ x, (compress w t wd st).2 = Some x → ∃ scheme, x = HandlerError scheme.
Proof.
  intros Hh. unfold compress.
  destruct (truthy _); [|done]. rewrite (Hh eq_refl).
  destruct (w_compress_sources _ _ _ _); cbn [fst snd]; [done|].
  split; [done|]. intros x [= <-]. by eexists.
Qed.

Lemma archive_formats w t st cf s0 :
  RoseArchTarget.command_format t = Some cf →
  format cf (<["sources" := VStr ""]> (<["target" := VStr ""]> ∅)) = FmtOk s0 →
  (archive w t st).2 = None.
Proof.
  intros Hcf Hf.
  destruct (archive_spec w t st)
    as [(e & _ & Hno)|(c & rc & out & err & _ & _ & st' & ev & -> & _)];
    [|done].
  exfalso. unfold archive_command in Hno. rewrite Hcf in Hno. cbn in Hno.
  match type of Hno with context [format cf ?m] =>
    destruct (format_checked cf _ m s0 (covers_two _ _ _ _) Hf) as [cmd Hc] end.
  by apply (Hno cmd), f_equal.
Qed.

Lemma update_body_exc w t wd st cf s1 f s2 x :
  RoseArchTarget.command_format t = Some cf →
  format cf (<["sources" := VStr ""]> (<["target" := VStr ""]> ∅)) = FmtOk s1 →
  RoseArchTarget.source_edit_format t = Some f →
  format f (<["in" := VStr ""]> (<["out" := VStr ""]> ∅)) = FmtOk s2 →
  (truthy (RoseArchTarget.compress_scheme t) = true →
   w_get_handler w (default "" (RoseArchTarget.compress_scheme t)) = true) →
  (update_body w t wd st).2 = Some x →
  (∃ cmd rc, x = RosePopenError cmd rc ∧ rc ≠ 0%Z)
  ∨ (∃ scheme, x = HandlerError scheme).
Proof.
  intros Hcf Hf1 Hsef Hf2 Hh. unfold update_body. cbv zeta.
  set (t1 := RoseArchTarget.set_status t (Some ST_BAD)).
  destruct (stage_exc w t1 wd st f s2 Hsef Hf2) as (Hc1 & Hz1 & Hx1).
  destruct (stage w t1 wd st) as [[st1 t2] e1]. cbn [fst snd] in *.
  destruct e1 as [e|].
  { cbn [snd]. intros [= <-]. left. by apply Hx1. }
  destruct (compress_exc w t2 wd st1) as (Hc2 & Hx2).
  { rewrite Hz1. exact Hh. }
  destruct (compress w t2 wd st1) as [[st2 t3] e2]. cbn [fst snd] in *.
  destruct e2 as [e|].
  { cbn [snd]. intros [= <-]. right. by apply Hx2. }
  rewrite (archive_formats w t3 st2 cf s1); [done| |done].
  rewrite Hc2, Hc1. exact Hcf.
Qed.

Lemma setup_pending_formats w config t_key s_key_tail t_node c ev t :
  _run_target_setup w config t_key s_key_tail t_node c = (ev, inr t) →
  RoseArchTarget.status t = None →
  (∃ cf s, RoseArchTarget.command_format t = Some cf
           ∧ format cf (<["sources" := VStr ""]> (<["target" := VStr ""]> ∅))
             = FmtOk s)
  ∧ (∃ f s, RoseArchTarget.source_edit_format t = Some f
            ∧ format f (<["in" := VStr ""]> (<["out" := VStr ""]> ∅)) = FmtOk s)
  ∧ (truthy (RoseArchTarget.compress_scheme t) = true →
     w_get_handler w (default "" (RoseArchTarget.compress_scheme t)) = true).
Proof.
  intros Hsetup Hnone.
  pose proof (setup_post _ _ _ _ _ _ _ _ Hsetup)
    as ((prefix & cf & _ & _ & Hgcf & Hcf) & Hgsef & _ & _ & _ & _ & _ & _ & _
        & Hh & _).
  apply setup_inv_full in Hsetup
    as (prefix' & cf' & sef & t0 & uc & sp & gl & compress & ev2 & t3
        & _ & Hgcf' & Hgsef' & _ & _ & _ & _ & Hsrc0 & Hst0 & Hc & Hr & Hfmt).
  rewrite Hgcf in Hgcf'. injection Hgcf' as <-.
  rewrite Hgsef in Hgsef'. injection Hgsef' as <-.
  assert (H0 : RoseArchTarget.status t0 = None).
  { destruct (source_loop_spec w t_key uc (default "" sp) c t0 gl)
      as (_ & _ & _ & Hbad & _).
    set (t1 := (source_loop _ _ _ _ _ t0 gl).2) in *.
    destruct (zero_source_check_spec c t1) as (_ & _ & Hz0 & Hz1).
    apply resolve_compress_spec in Hc as (_ & _ & Hst3).
    apply rename_sources_frame in Hr as (Heq & _ & _).
    assert (Hst : RoseArchTarget.status t = RoseArchTarget.status t3)
      by (rewrite Heq; reflexivity).
    rewrite Hst, Hst3 in Hnone. destruct (_ && _); [done|].
    destruct (decide (RoseArchTarget.sources t1 = ∅)) as [He|He].
    { rewrite (Hz0 He) in Hnone. by destruct c. }
    rewrite (Hz1 He) in Hnone.
    destruct Hst0 as [Hs0|Hs0]; [done|].
    by rewrite (Hbad Hs0) in Hnone. }
  destruct (Hfmt H0) as [[s1 Hf1] (f & s2 & Hsef & Hf2)].
  split; [by exists cf, s1|]. split; [by exists f, s2|].
  intros Htr. apply Hh; [done|]. by rewrite Hnone.
Qed.

(** X21. The checks of the set-up pay off in the update.  A target that
    leaves the set-up without a status has templates that passed the check
    with empty values, and then they format with the real values too: when
    such a target is updated, the archive command and the edit commands are
    always built, and the compression scheme, if any, has a handler.  With
    the calls of the file system taken to succeed, the only exceptions that
    can end its update are the [IntegrityError] of the insertion, the
    [RosePopenError] of an edit command with a non-zero exit status, and an
    exception raised inside the compression handler. *)
Theorem update_exceptions (w : World) (config : gmap string ConfigNode)
    (t_key s_key_tail : string) (t_node : ConfigNode) (c : bool)
    (ev : list Action) (t : Target) (st : State) :
  _run_target_setup w config t_key s_key_tail t_node c = (ev, inr t) →
  RoseArchTarget.status t = None →
  ∀ x, (_run_target_update w t st).2 = inl x →
       x = IntegrityError (RoseArchTarget.name t)
       ∨ (∃ cmd rc, x = RosePopenError cmd rc ∧ rc ≠ 0%Z)
       ∨ (∃ scheme, x = HandlerError scheme).
Proof.
  intros Hsetup Hnone x.
  destruct (setup_pending_formats _ _ _ _ _ _ _ _ Hsetup Hnone)
    as ((cf & s1 & Hcf & Hf1) & (f & s2 & Hsef & Hf2) & Hh).
  unfold _run_target_update, status_in_bad_null.
  rewrite Hnone. rewrite bool_decide_eq_false_2 by done.
  cbn [RoseArchTarget.status RoseArchTarget.set_command_rc].
  destruct (RoseArchDAO.insert _ _) as [db1|].
  2:{ cbn [snd]. intros [= <-]. by left. }
  cbv zeta.
  match goal with |- context [update_body w ?t1 ?wd ?sa] =>
    pose proof (update_body_exc w t1 wd sa cf s1 f s2) as Hb;
    destruct (update_body w t1 wd sa) as [[[st2 t2] rc] e] end.
  cbn [snd] in Hb. destruct e as [e|]; [|done].
  cbn [snd]. intros [= <-]. right. by apply Hb.
Qed.

Lemma update_exceptions_witness :
  RoseArchTarget.status t_one = None
  ∧ ∀ x, (_run_target_update w_one t_one (st0 empty_db)).2 = inl x →
         x = IntegrityError (RoseArchTarget.name t_one)
         ∨ (∃ cmd rc, x = RosePopenError cmd rc ∧ rc ≠ 0%Z)
         ∨ (∃ scheme, x = HandlerError scheme).
Proof.
  split; [reflexivity|].
  apply (update_exceptions w_one conf_one "arch:out" "out"
           (node [("source", "a*");
                  ("command-format", "cp %(sources)s %(target)s")])
           true [] t_one (st0 empty_db)).
  - vm_compute. reflexivity.
  - reflexivity.
Defined.

End FormatProperties.

(** ** rose_prune *)

Module PruneProperties.
Import PyStr Prune.

Lemma shift_cycles_nil (w : World) : shift_cycles w [] = None.
Proof. reflexivity. Qed.

(** X22. A call of [RosePruneApp.run] returns normally only when there
    is nothing to prune: the suite name is unset or empty, or no cycle and
    no glob is configured - and then it has done nothing.  In every other
    case it raises.  The most it ever does is one generation of the log
    view, and that is called with the cycles as they are configured: the
    values that the shifting loop computes for offsets are dropped. *)
Theorem prune_run_outcome (w : World) :
  ((run w).2 = None
   ↔ truthy (w_suite_name w) = false
     ∨ (w_shlex_split w (w_conf_cycles w) = []
        ∧ truthy (w_conf_globs w) = false))
  ∧ ((run w).2 = None → (run w).1 = [])
  ∧ (∀ a, a ∈ (run w).1 →
          a = AGenerate (default "" (w_suite_name w))
                (w_shlex_split w (w_conf_cycles w)))
  ∧ (length (run w).1 ≤ 1)%nat.
Proof.
  assert (Hfmt : ∀ d g, sh_cmd d g = FmtValueError "incomplete format").
  { intros d g. vm_compute. reflexivity. }
  unfold run.
  destruct (truthy (w_suite_name w)) eqn:Hs; cbn [negb].
  2:{ cbn. repeat split; auto. by intros a ?%elem_of_nil. }
  destruct (w_shlex_split w (w_conf_cycles w)) as [|cy cys] eqn:Hc.
  - cbn [andb]. destruct (truthy (w_conf_globs w)) eqn:Hg; cbn [negb].
    + rewrite shift_cycles_nil, Hfmt. cbn. repeat split; try done.
      * intros [|[_ ?]]; done.
      * by intros a ?%elem_of_nil.
      * lia.
    + cbn. repeat split; auto. by intros a ?%elem_of_nil.
  - cbn [andb]. destruct (shift_cycles w (cy :: cys)) as [e|].
    + cbn. repeat split; try done.
      * intros [|[? _]]; done.
      * by intros a ?%elem_of_nil.
      * lia.
    + rewrite Hfmt. cbn. repeat split; try done.
      * intros [|[? _]]; done.
      * by intros a ->%list_elem_of_singleton.
Qed.

End PruneProperties.
